(** * Findings parser and normaliser

    A shallow embedding of [tools/parse_findings.py]: the severity and
    category normalisers, the five report adapters, the within-tool
    deduplicator, the weakness clusterer, the finding-id allocator and the
    store writer, followed by the properties established about them.

    Conventions of the embedding.
    - A Python [str] is a [string] read as a sequence of code points below
      256; digits, white space and letter case are the Unicode ones
      restricted to that range.
    - A decoded JSON document is a [value]; a Python [float] is a binary64
      [spec_float]; a Python [int] is a [Z].
    - A computation that may raise is a [res]; the constructor [Raise]
      carries the exception class.
    - An [int] held by a decoded document or given on the command line has
      at most 4300 decimal digits: the interpreter, with its default
      settings, refuses to read a longer one, so [str] of such an [int]
      does not raise. A batch holds fewer than 10^4300 findings.
    - The encoding in which files are opened and that of standard output
      hold every code point below 256, and standard output is open:
      [print] does not raise. *)

From Stdlib Require Import ZArith QArith String Ascii List Lia Bool.
From Stdlib Require Import Floats.SpecFloat.
From stdpp Require Import base gmap strings list.

Set Warnings "-register-all,-clear-no-such-hyp".

Open Scope string_scope.
Open Scope list_scope.
Open Scope Z_scope.

(* ================================================================== *)
(** * Part I. The embedding *)
(* ================================================================== *)

(** ** Exceptions and results

    [OSError] stands for the class and its subclasses,
    [FileNotFoundError] among them; [CsvError] for what the [csv] reader
    raises. [OutsideDataModel] is no exception of the program: it marks
    the findings that the typed record [Finding] does not hold. *)

Inductive exn : Set :=
| JSONDecodeError
| AttributeError
| TypeError
| KeyError
| IndexError
| ValueError
| OSError
| CsvError
| OutsideDataModel.

Inductive res (A : Type) : Type :=
| Ok (a : A)
| Raise (e : exn).
Arguments Ok {A} a.
Arguments Raise {A} e.

#[global] Instance res_ret : MRet res := fun A a => Ok a.
#[global] Instance res_bind : MBind res := fun A B k m =>
  match m with Ok a => k a | Raise e => Raise e end.
#[global] Instance res_fmap : FMap res := fun A B f m =>
  match m with Ok a => Ok (f a) | Raise e => Raise e end.

Definition is_ok {A} (r : res A) : bool :=
  match r with Ok _ => true | Raise _ => false end.

(** [for x in xs: ...] with a body that may raise, collecting one output
    per element. *)
Fixpoint traverse {A B} (f : A -> res B) (xs : list A) : res (list B) :=
  match xs with
  | [] => Ok []
  | x :: xs' => y ← f x; ys ← traverse f xs'; Ok (y :: ys)
  end.

(** ** Text *)

Definition code (c : ascii) : N := N_of_ascii c.

Definition is_digit (c : ascii) : bool :=
  ((48 <=? code c) && (code c <=? 57))%N.

Definition digit_val (c : ascii) : Z := Z.of_N (code c) - 48.

Definition digit_char (d : N) : ascii := ascii_of_N (48 + d).

(** The white space that [int()] skips at both ends of its argument,
    among the code points below 256: the ASCII white space, and U+0085
    and U+00A0, which the conversion reads as a space. The separators
    U+001C to U+001F, white space for [str.isspace], are not skipped. *)
Definition is_int_space (c : ascii) : bool :=
  let n := code c in
  (((9 <=? n) && (n <=? 13)) || (n =? 32) || (n =? 133) || (n =? 160))%N.

Definition ascii_lower (c : ascii) : ascii :=
  let n := code c in
  if ((65 <=? n) && (n <=? 90))%N then ascii_of_N (n + 32) else c.

(** [c] matches the pattern letter [p] under [re.IGNORECASE]; [p] is one
    of the lower-case letters c, w, e, which have no other case variant. *)
Definition ieq (c p : ascii) : bool := bool_decide (ascii_lower c = p).

Fixpoint str_take (n : nat) (s : string) : string :=
  match n, s with
  | S n', String c r => String c (str_take n' r)
  | _, _ => ""
  end.

Fixpoint str_chars (s : string) : list string :=
  match s with
  | "" => []
  | String c r => String c "" :: str_chars r
  end.

Fixpoint str_rev_onto (s acc : string) : string :=
  match s with
  | "" => acc
  | String c r => str_rev_onto r (String c acc)
  end.

Definition str_rev (s : string) : string := str_rev_onto s "".

Fixpoint int_lstrip (s : string) : string :=
  match s with
  | String c r => if is_int_space c then int_lstrip r else s
  | "" => ""
  end.

Definition int_strip (s : string) : string :=
  str_rev (int_lstrip (str_rev (int_lstrip s))).

(** The maximal run of digits at the head of [s]. *)
Fixpoint take_digits (s : string) : string :=
  match s with
  | String c r => if is_digit c then String c (take_digits r) else ""
  | "" => ""
  end.

(** Decimal rendering of a natural number, least significant digit
    first onto the accumulator. *)
Fixpoint N_digits (fuel : nat) (n : N) (acc : string) : string :=
  match fuel with
  | O => acc
  | S fuel' =>
      let acc' := String (digit_char (n mod 10)) acc in
      if (n / 10 =? 0)%N then acc' else N_digits fuel' (n / 10)%N acc'
  end.

Definition N_to_string (n : N) : string :=
  N_digits (S (N.to_nat (N.log2 n))) n "".

(** [str(z)] for an [int]. *)
Definition Z_to_string (z : Z) : string :=
  match z with
  | Zneg p => String "-" (N_to_string (Npos p))
  | _ => N_to_string (Z.to_N z)
  end.

Fixpoint zeros (n : nat) : string :=
  match n with O => "" | S n' => String "0" (zeros n') end.

(** [f"{z:03d}"]: at least three characters, the sign counted, zeros
    inserted after the sign. *)
Definition fmt_03d (z : Z) : string :=
  match z with
  | Zneg p =>
      let ds := N_to_string (Npos p) in
      String "-" (zeros (2 - String.length ds) +:+ ds)
  | _ =>
      let ds := N_to_string (Z.to_N z) in
      zeros (3 - String.length ds) +:+ ds
  end.

(** The digits of an [int] literal as [int()] reads them: one or more
    digits, single underscores allowed between digits. *)
Fixpoint int_body (acc : Z) (after_digit : bool) (s : string) : option Z :=
  match s with
  | "" => if after_digit then Some acc else None
  | String c r =>
      if is_digit c then int_body (10 * acc + digit_val c) true r
      else if bool_decide (c = "_"%char)
           then (if after_digit then int_body acc false r else None)
           else None
  end.

(** The interpreter's default limit on the number of digits in a
    conversion between [int] and decimal text. *)
Definition int_max_str_digits : Z := 4300.

(** The number of digits in [s]. *)
Fixpoint digits_in (s : string) : Z :=
  match s with
  | "" => 0
  | String c r => (if is_digit c then 1 else 0) + digits_in r
  end.

(** [int(s)] in base ten: a literal of more than 4300 digits raises
    [ValueError], as a malformed one does. *)
Definition py_int (s : string) : res Z :=
  let t := int_strip s in
  let r :=
    match t with
    | String "+" b => int_body 0 false b
    | String "-" b => Z.opp <$> int_body 0 false b
    | _ => int_body 0 false t
    end in
  match r with
  | Some z =>
      if digits_in t <=? int_max_str_digits then Ok z else Raise ValueError
  | None => Raise ValueError
  end.

(** The number of decimal digits of [z]. *)
Definition decimal_digits (z : Z) : Z :=
  Z.of_nat (String.length (N_to_string (Z.abs_N z))).

(** [f"{z:03d}"] as the interpreter runs it: the conversion of an [int]
    of more than 4300 digits raises [ValueError]. *)
Definition py_fmt_03d (z : Z) : res string :=
  if decimal_digits z <=? int_max_str_digits then Ok (fmt_03d z)
  else Raise ValueError.

(** [s.split("-")]. *)
Fixpoint split_dash (s : string) : list string :=
  match s with
  | "" => [""]
  | String c r =>
      if bool_decide (c = "-"%char) then "" :: split_dash r
      else match split_dash r with
           | h :: t => String c h :: t
           | [] => [String c ""]
           end
  end.

(** *** The two category patterns

    [cwe_group dash_optional r] is group 1 of the pattern once its three
    letters are read, [r] being what follows them, or the empty string
    when the rest of the pattern does not match there.
    [match_cwe dash_optional s] matches [cwe-?(\d+)] (dash optional) or
    [CWE-(\d+)] (dash required) at the head of [s], ignoring case, and
    returns group 1. The digits are taken greedily; when the optional dash
    is present but no digit follows it, giving the dash back cannot help,
    since the next character is then the dash itself. *)
Definition cwe_group (dash_optional : bool) (r : string) : string :=
  match r with
  | String "-" r' => take_digits r'
  | _ => if dash_optional then take_digits r else ""
  end.

Definition match_cwe (dash_optional : bool) (s : string) : option string :=
  match s with
  | String c (String w (String e r)) =>
      if ieq c "c" && ieq w "w" && ieq e "e" then
        let ds := cwe_group dash_optional r in
        if bool_decide (ds = "") then None else Some ds
      else None
  | _ => None
  end.

(** [re.search]: the leftmost position at which the pattern matches. *)
Fixpoint re_search_cwe (dash_optional : bool) (s : string) : option string :=
  match match_cwe dash_optional s with
  | Some ds => Some ds
  | None =>
      match s with
      | "" => None
      | String _ r => re_search_cwe dash_optional r
      end
  end.

(** ** Values *)

(** A decoded JSON document. An object keeps its members in document
    order, each key once: iterating a [dict] yields its keys in that
    order. *)
Inductive value : Type :=
| VNone
| VBool (b : bool)
| VInt (z : Z)
| VFloat (f : spec_float)
| VStr (s : string)
| VList (l : list value)
| VDict (d : list (string * value)).

(** The run-time services the embedding does not implement: [repr] of a
    float or of a container, the SHA-256 digest in hexadecimal, and the
    [csv] module. [csv_reader text] is what [csv.reader] makes of a file
    that holds [text], opened as [main] opens it: the records it yields
    and, if it raises after them, the exception. [csv_line cells] is the
    line, terminator included, that [csv.writer] writes for a record of
    strings. *)
Class Runtime := {
  py_repr : value -> string;
  sha256_hexdigest : string -> string;
  csv_reader : string -> list (list string) * option exn;
  csv_line : list string -> string
}.

(** *** Binary64 constants and exact comparison with integers *)

Definition prec : Z := 53.
Definition emax : Z := 1024.

Definition float_0 : spec_float := S754_zero false.
Definition float_4 : spec_float := S754_finite false 4503599627370496 (-50).
Definition float_7 : spec_float := S754_finite false 7881299347898368 (-50).
Definition float_9 : spec_float := S754_finite false 5066549580791808 (-49).
Definition float_10 : spec_float := S754_finite false 5629499534213120 (-49).
(** The binary64 nearest to 3.9. *)
Definition float_3_9 : spec_float := S754_finite false 8782019273372467 (-51).

(** Python compares an [int] with a [float] exactly, without converting
    either: [SF_compare_Z f z] is the order of [f] against [z], [None] for
    a NaN. *)
Definition SF_compare_Z (f : spec_float) (z : Z) : option comparison :=
  match f with
  | S754_nan => None
  | S754_infinity s => Some (if s then Lt else Gt)
  | S754_zero _ => Some (0 ?= z)%Z
  | S754_finite s m e =>
      let sm := if s then Zneg m else Zpos m in
      Some (if 0 <=? e then (sm * 2 ^ e ?= z)%Z else (sm ?= z * 2 ^ (- e))%Z)
  end.

Definition as_number (v : value) : option (Z + spec_float) :=
  match v with
  | VBool b => Some (inl (if b then 1 else 0))
  | VInt z => Some (inl z)
  | VFloat f => Some (inr f)
  | _ => None
  end.

Definition num_compare (a b : Z + spec_float) : option comparison :=
  match a, b with
  | inl x, inl y => Some (x ?= y)%Z
  | inr f, inl y => SF_compare_Z f y
  | inl x, inr g => CompOpp <$> SF_compare_Z g x
  | inr f, inr g => SFcompare f g
  end.

(** [a >= b] on numbers; anything else raises [TypeError]. *)
Definition py_ge (a b : value) : res bool :=
  match as_number a, as_number b with
  | Some x, Some y =>
      Ok (match num_compare x y with Some (Gt | Eq) => true | _ => false end)
  | _, _ => Raise TypeError
  end.

(** *** Dictionary keys *)

Definition hashable (v : value) : bool :=
  match v with VList _ | VDict _ => false | _ => true end.

(** [a == b] between two hashable values. *)
Definition key_eqb (a b : value) : bool :=
  match a, b with
  | VNone, VNone => true
  | VStr s, VStr t => bool_decide (s = t)
  | _, _ =>
      match as_number a, as_number b with
      | Some x, Some y =>
          match num_compare x y with Some Eq => true | _ => false end
      | _, _ => false
      end
  end.

(** *** Operations on values *)

Fixpoint assoc (k : string) (d : list (string * value)) : option value :=
  match d with
  | [] => None
  | (k', v) :: d' => if bool_decide (k' = k) then Some v else assoc k d'
  end.

(** [v.get(k, dflt)]. *)
Definition py_get (v : value) (k : string) (dflt : value) : res value :=
  match v with
  | VDict d => Ok (default dflt (assoc k d))
  | _ => Raise AttributeError
  end.

(** [v[k]] for a string [k]. *)
Definition py_getitem (v : value) (k : string) : res value :=
  match v with
  | VDict d => match assoc k d with Some x => Ok x | None => Raise KeyError end
  | _ => Raise TypeError
  end.

(** [bool(v)]. *)
Definition py_truthy (v : value) : bool :=
  match v with
  | VNone => false
  | VBool b => b
  | VInt z => negb (z =? 0)
  | VFloat (S754_zero _) => false
  | VFloat _ => true
  | VStr s => negb (bool_decide (s = ""))
  | VList l => match l with [] => false | _ => true end
  | VDict d => match d with [] => false | _ => true end
  end.

(** [v[0]]. A JSON object has string keys only, so the key [0] is never
    there. *)
Definition py_index0 (v : value) : res value :=
  match v with
  | VList (x :: _) => Ok x
  | VList [] => Raise IndexError
  | VStr (String c _) => Ok (VStr (String c ""))
  | VStr "" => Raise IndexError
  | VDict _ => Raise KeyError
  | _ => Raise TypeError
  end.

(** The elements [for x in v] visits. *)
Definition py_iter (v : value) : res (list value) :=
  match v with
  | VList l => Ok l
  | VStr s => Ok (VStr <$> str_chars s)
  | VDict d => Ok ((fun kv => VStr kv.1) <$> d)
  | _ => Raise TypeError
  end.

(** [v[:n]]. *)
Definition py_slice_to (n : nat) (v : value) : res value :=
  match v with
  | VStr s => Ok (VStr (str_take n s))
  | VList l => Ok (VList (take n l))
  | _ => Raise TypeError
  end.

(** [isinstance(v, list)]. *)
Definition is_list (v : value) : bool :=
  match v with VList _ => true | _ => false end.

Section WithRuntime.
Context `{Runtime}.

(** [str(v)], also what an f-string field renders. *)
Definition py_str (v : value) : string :=
  match v with
  | VStr s => s
  | VInt z => Z_to_string z
  | VBool true => "True"
  | VBool false => "False"
  | VNone => "None"
  | _ => py_repr v
  end.

(* ------------------------------------------------------------------ *)
(** ** Severity normalisation *)

Definition CODEQL_SEVERITY_MAP : gmap string string :=
  list_to_map
    [("error", "high"); ("warning", "medium"); ("note", "low");
     ("none", "info")].

Definition SEMGREP_SEVERITY_MAP : gmap string string :=
  list_to_map [("ERROR", "high"); ("WARNING", "medium"); ("INFO", "low")].

(** [table.get(level, dflt)] for a table keyed by strings: only a string
    can equal a key, and an unhashable [level] raises. *)
Definition severity_get (table : gmap string string) (level : value)
    (dflt : string) : res string :=
  match level with
  | VStr s => Ok (default dflt (table !! s))
  | VList _ | VDict _ => Raise TypeError
  | _ => Ok dflt
  end.

Definition normalize_cvss_severity (cvss_score : value) : res string :=
  c ← py_ge cvss_score (VFloat float_9);
  if c : bool then Ok "critical" else
  h ← py_ge cvss_score (VFloat float_7);
  if h : bool then Ok "high" else
  m ← py_ge cvss_score (VFloat float_4);
  if m : bool then Ok "medium" else Ok "low".

(* ------------------------------------------------------------------ *)
(** ** Fingerprint *)

Definition compute_fingerprint (tool rule_id file_path : string)
    (start_line : Z) : string :=
  let raw := tool +:+ "|" +:+ rule_id +:+ "|" +:+ file_path +:+ "|"
             +:+ Z_to_string start_line in
  str_take 16 (sha256_hexdigest raw).

(* ------------------------------------------------------------------ *)
(** ** CWE extraction *)

Fixpoint first_tag_match (tags : list value) : string :=
  match tags with
  | [] => ""
  | tag :: rest =>
      match re_search_cwe true (py_str tag) with
      | Some ds => "CWE-" +:+ ds
      | None => first_tag_match rest
      end
  end.

Definition extract_cwe_from_tags (tags : value) : res string :=
  ts ← py_iter tags; Ok (first_tag_match ts).

(** [re.search] accepts a [str] only. *)
Definition extract_cwe_from_text (text : value) : res string :=
  match text with
  | VStr s =>
      Ok (match re_search_cwe false s with
          | Some ds => "CWE-" +:+ ds
          | None => ""
          end)
  | _ => Raise TypeError
  end.

End WithRuntime.

(* ------------------------------------------------------------------ *)
(** ** Parsers *)

(** What an adapter appends for one native result. The rule identifier,
    the location and the description are whatever the report holds at
    those places. *)
Record draft : Type := mk_draft {
  d_tool : string;
  d_rule_id : value;
  d_cwe_id : string;
  d_severity : string;
  d_file_path : value;
  d_start_line : value;
  d_description : value
}.

(** The [rules] lookup table of the SARIF adapters, keyed by rule id. *)
Definition rules_dict : Type := list (value * value).

Fixpoint rules_set (k v : value) (rules : rules_dict) : rules_dict :=
  match rules with
  | [] => [(k, v)]
  | (k', v') :: rest =>
      if key_eqb k' k then (k', v) :: rest else (k', v') :: rules_set k v rest
  end.

Fixpoint rules_find (k : value) (rules : rules_dict) : option value :=
  match rules with
  | [] => None
  | (k', v) :: rest => if key_eqb k' k then Some v else rules_find k rest
  end.

(** [rules.get(rule_id, {})]. *)
Definition rules_get (rules : rules_dict) (rule_id : value) : res value :=
  if hashable rule_id then Ok (default (VDict []) (rules_find rule_id rules))
  else Raise TypeError.

(** [for rule in ...: rules[rule["id"]] = rule]. *)
Fixpoint build_rules (rules : rules_dict) (rs : list value) : res rules_dict :=
  match rs with
  | [] => Ok rules
  | rule :: rest =>
      id ← py_getitem rule "id";
      if hashable id then build_rules (rules_set id rule rules) rest
      else Raise TypeError
  end.

Definition run_rules (run : value) : res rules_dict :=
  tool ← py_get run "tool" (VDict []);
  driver ← py_get tool "driver" (VDict []);
  rule_list ← py_get driver "rules" (VList []);
  rs ← py_iter rule_list;
  build_rules [] rs.

(** The location block shared by the three SARIF adapters: the first
    location's file and starting line. *)
Definition first_location (result : value) : res (value * value) :=
  locations ← py_get result "locations" (VList [VDict []]);
  phys ← (if py_truthy locations
          then loc0 ← py_index0 locations;
               py_get loc0 "physicalLocation" (VDict [])
          else Ok (VDict []));
  artifact ← py_get phys "artifactLocation" (VDict []);
  file_path ← py_get artifact "uri" (VStr "");
  region ← py_get phys "region" (VDict []);
  start_line ← py_get region "startLine" (VInt 0);
  Ok (file_path, start_line).

(** [result.get("message", {}).get("text", "")]. *)
Definition message_text (result : value) : res value :=
  message ← py_get result "message" (VDict []);
  py_get message "text" (VStr "").

(** [rule_def.get("properties", {}).get("tags", [])]. *)
Definition rule_tags (rule_def : value) : res value :=
  properties ← py_get rule_def "properties" (VDict []);
  py_get properties "tags" (VList []).

(** [data.get(key, [])] walked by an inner loop, the outputs of all
    iterations concatenated. *)
Definition for_each {B} (container : value) (key : string)
    (body : value -> res (list B)) : res (list B) :=
  items ← py_get container key (VList []);
  xs ← py_iter items;
  yss ← traverse body xs;
  Ok (concat yss).

Section Parsers.
Context `{Runtime}.

Definition codeql_result (rules : rules_dict) (result : value) : res draft :=
  rule_id ← py_get result "ruleId" (VStr "unknown");
  rule_def ← rules_get rules rule_id;
  loc ← first_location result;
  level ← py_get result "level" (VStr "warning");
  severity ← severity_get CODEQL_SEVERITY_MAP level "medium";
  tags ← rule_tags rule_def;
  cwe0 ← extract_cwe_from_tags tags;
  cwe ← (if bool_decide (cwe0 = "")
         then text ← message_text result; extract_cwe_from_text text
         else Ok cwe0);
  text ← message_text result;
  description ← py_slice_to 200 text;
  Ok (mk_draft "codeql" rule_id cwe severity loc.1 loc.2 description).

Definition codeql_run (run : value) : res (list draft) :=
  rules ← run_rules run;
  for_each run "results" (fun result => r ← codeql_result rules result; Ok [r]).

(** [parse_codeql_sarif], on the decoded document. *)
Definition parse_codeql_sarif (sarif : value) : res (list draft) :=
  for_each sarif "runs" codeql_run.

Definition semgrep_json_result (result : value) : res draft :=
  rule_id ← py_get result "check_id" (VStr "unknown");
  extra ← py_get result "extra" (VDict []);
  level ← py_get extra "severity" (VStr "WARNING");
  severity ← severity_get SEMGREP_SEVERITY_MAP level "medium";
  extra ← py_get result "extra" (VDict []);
  metadata ← py_get extra "metadata" (VDict []);
  cwe_list ← py_get metadata "cwe" (VList []);
  cwe ← (if py_truthy cwe_list
         then if is_list cwe_list
              then first ← py_index0 cwe_list;
                   extract_cwe_from_text (VStr (py_str first))
              else extract_cwe_from_text (VStr (py_str cwe_list))
         else Ok "");
  file_path ← py_get result "path" (VStr "");
  start ← py_get result "start" (VDict []);
  start_line ← py_get start "line" (VInt 0);
  extra ← py_get result "extra" (VDict []);
  message ← py_get extra "message" (VStr "");
  description ← py_slice_to 200 message;
  Ok (mk_draft "semgrep" rule_id cwe severity file_path start_line description).

Definition parse_semgrep_json (data : value) : res (list draft) :=
  for_each data "results" (fun result => r ← semgrep_json_result result; Ok [r]).

Definition semgrep_sarif_result (rules : rules_dict) (result : value)
    : res draft :=
  rule_id ← py_get result "ruleId" (VStr "unknown");
  rule_def ← rules_get rules rule_id;
  loc ← first_location result;
  level ← py_get result "level" (VStr "warning");
  severity ← severity_get CODEQL_SEVERITY_MAP level "medium";
  tags ← rule_tags rule_def;
  cwe ← extract_cwe_from_tags tags;
  text ← message_text result;
  description ← py_slice_to 200 text;
  Ok (mk_draft "semgrep" rule_id cwe severity loc.1 loc.2 description).

Definition semgrep_sarif_run (run : value) : res (list draft) :=
  rules ← run_rules run;
  for_each run "results"
    (fun result => r ← semgrep_sarif_result rules result; Ok [r]).

Definition parse_semgrep_sarif (sarif : value) : res (list draft) :=
  for_each sarif "runs" semgrep_sarif_run.

Definition gitleaks_result (result : value) : res draft :=
  loc ← first_location result;
  rule_id ← py_get result "ruleId" (VStr "unknown");
  text ← message_text result;
  description ← py_slice_to 200 text;
  Ok (mk_draft "gitleaks" rule_id "CWE-798" "high" loc.1 loc.2 description).

Definition gitleaks_run (run : value) : res (list draft) :=
  for_each run "results" (fun result => r ← gitleaks_result result; Ok [r]).

Definition parse_gitleaks_sarif (sarif : value) : res (list draft) :=
  for_each sarif "runs" gitleaks_run.

(** The category of one dependency vulnerability:
    [f"CWE-{cwes[0]}" if cwes else ""]. *)
Definition depcheck_cwe (vuln : value) : res string :=
  cwes ← py_get vuln "cwes" (VList []);
  if py_truthy cwes
  then first ← py_index0 cwes; Ok ("CWE-" +:+ py_str first)
  else Ok "".

Definition depcheck_score (vuln : value) : res value :=
  cvss3 ← py_get vuln "cvssv3" (VDict []);
  cvss2 ← py_get vuln "cvssv2" (VDict []);
  if py_truthy cvss3 then py_get cvss3 "baseScore" (VFloat float_0)
  else if py_truthy cvss2 then py_get cvss2 "score" (VFloat float_0)
  else Ok (VFloat float_0).

Definition depcheck_vuln (dep vuln : value) : res draft :=
  cvss_score ← depcheck_score vuln;
  cwe ← depcheck_cwe vuln;
  rule_id ← py_get vuln "name" (VStr "unknown");
  severity ← normalize_cvss_severity cvss_score;
  file_name ← py_get dep "fileName" (VStr "");
  text ← py_get vuln "description" (VStr "");
  description ← py_slice_to 200 text;
  Ok (mk_draft "depcheck" rule_id cwe severity file_name (VInt 0) description).

Definition depcheck_dep (dep : value) : res (list draft) :=
  for_each dep "vulnerabilities"
    (fun vuln => r ← depcheck_vuln dep vuln; Ok [r]).

Definition parse_depcheck_json (data : value) : res (list draft) :=
  for_each data "dependencies" depcheck_dep.

End Parsers.

(* ------------------------------------------------------------------ *)
(** ** Findings *)

(** A finding of the documented shape: string identifiers and paths, an
    integer line. This is the record the deduplicator, the clusterer and
    the writer work on, after the metadata loop of [main]. *)
Record Finding : Type := mk_finding {
  tool : string;
  rule_id : string;
  cwe_id : string;
  severity : string;
  file_path : string;
  start_line : Z;
  description : string;
  pr_number : Z;
  task_id : string;
  condition : string;
  ai_share : spec_float;
  pipeline : string;
  fingerprint : string;
  triage_status : string;
  triage_notes : string
}.

(** A finding after the clusterer has set its two fields. *)
Record clustered : Type := mk_clustered {
  c_finding : Finding;
  unique_weakness_id : string;
  is_cross_tool_dup : bool
}.

(** A finding with its identifier, as written to the store. *)
Record record : Type := mk_record {
  r_clustered : clustered;
  finding_id : string
}.

(* ------------------------------------------------------------------ *)
(** ** Deduplication *)

Definition dedup_key : Type := string * string * string * Z.

Definition key_of (f : Finding) : dedup_key :=
  (tool f, rule_id f, file_path f, start_line f).

(** Step 1, the loop over [findings] with the set [seen]. *)
Fixpoint within_tool_dedup (seen : gset dedup_key) (findings : list Finding)
    : list Finding :=
  match findings with
  | [] => []
  | f :: rest =>
      if decide (key_of f ∈ seen) then within_tool_dedup seen rest
      else f :: within_tool_dedup ({[key_of f]} ∪ seen) rest
  end.

(** An entry of [weakness_map]. *)
Record weakness : Type := mk_weakness {
  wm_cwe : string;
  wm_file : string;
  wm_line : Z;
  wm_weakness_id : string
}.

(** The condition under which a finding joins an entry. *)
Definition wm_matches (f : Finding) (wm : weakness) : Prop :=
  cwe_id f ≠ "" ∧ cwe_id f = wm_cwe wm ∧ file_path f = wm_file wm
  ∧ Z.abs (start_line f - wm_line wm) ≤ 3.

#[global] Instance wm_matches_dec f wm : Decision (wm_matches f wm).
Proof. unfold wm_matches. apply _. Defined.

Record cluster_state : Type := mk_cluster_state {
  weakness_counter : Z;
  weakness_map : list weakness
}.

(** [f"W-{weakness_counter:03d}"]; the counter is at most the number of
    findings of the batch, below the limit of the conversion. *)
Definition weakness_label (n : Z) : string := "W-" +:+ fmt_03d n.

(** One iteration of the step-2 loop. *)
Definition assign_weakness (st : cluster_state) (f : Finding)
    : cluster_state * clustered :=
  match list_find (wm_matches f) (weakness_map st) with
  | Some (i, wm) =>
      let wm' := mk_weakness (wm_cwe wm) (wm_file wm)
                   (Z.min (wm_line wm) (start_line f)) (wm_weakness_id wm) in
      (mk_cluster_state (weakness_counter st) (<[i := wm']> (weakness_map st)),
       mk_clustered f (wm_weakness_id wm) true)
  | None =>
      let n := weakness_counter st + 1 in
      let wid := weakness_label n in
      (mk_cluster_state n
         (weakness_map st ++ [mk_weakness (cwe_id f) (file_path f) (start_line f) wid]),
       mk_clustered f wid false)
  end.

Fixpoint assign_weaknesses (st : cluster_state) (deduped : list Finding)
    : list clustered :=
  match deduped with
  | [] => []
  | f :: rest =>
      let '(st', c) := assign_weakness st f in
      c :: assign_weaknesses st' rest
  end.

Definition initial_clusters : cluster_state := mk_cluster_state 0 [].

Definition deduplicate_and_assign_weaknesses (findings : list Finding)
    : list clustered :=
  assign_weaknesses initial_clusters (within_tool_dedup ∅ findings).

(* ------------------------------------------------------------------ *)
(** ** The store and the identifiers *)

(** What the [csv] module reads from the store: a sequence of records,
    each a sequence of cells, the first record being the header. *)
Definition csv_table : Type := list (list string).

Definition fieldnames : list string :=
  ["finding_id"; "pr_number"; "task_id"; "condition"; "ai_share";
   "pipeline"; "tool"; "rule_id"; "cwe_id"; "severity"; "file_path";
   "start_line"; "fingerprint"; "triage_status"; "is_cross_tool_dup";
   "unique_weakness_id"; "triage_notes"].

(** The position of the last column called [name]: in the dictionary a
    [DictReader] builds for a record, a later column of the same name
    overrides an earlier one. *)
Fixpoint last_index (name : string) (header : list string) (i : nat)
    : option nat :=
  match header with
  | [] => None
  | h :: rest =>
      match last_index name rest (S i) with
      | Some j => Some j
      | None => if bool_decide (h = name) then Some i else None
      end
  end.

(** [row.get("finding_id", "F-000")]: the default when the header has no
    such column, Python's [None] when the record is too short to have the
    cell. *)
Definition row_finding_id (header cells : list string) : option string :=
  match last_index "finding_id" header 0 with
  | None => Some "F-000"
  | Some i => cells !! i
  end.

(** [int(fid.split("-")[1])]. *)
Definition finding_number (fid : option string) : res Z :=
  match fid with
  | None => Raise AttributeError
  | Some s =>
      match split_dash s !! 1%nat with
      | Some piece => py_int piece
      | None => Raise IndexError
      end
  end.

(** The loop over the existing rows; a [DictReader] skips empty
    records. *)
Fixpoint scan_rows (header : list string) (next_id : Z)
    (rows : list (list string)) : res Z :=
  match rows with
  | [] => Ok next_id
  | [] :: rest => scan_rows header next_id rest
  | cells :: rest =>
      num ← finding_number (row_finding_id header cells);
      scan_rows header (Z.max next_id (num + 1)) rest
  end.

Definition next_id_of_table (table : csv_table) : res Z :=
  match table with
  | [] => Ok 1
  | header :: rows => scan_rows header 1 rows
  end.

(** The text of the identifier of number [n]. *)
Definition finding_label (n : Z) : string := "F-" +:+ fmt_03d n.

(** The loop that numbers the findings: [f"F-{next_id:03d}"] for each,
    which raises when the number has too many digits to be converted. *)
Fixpoint assign_finding_ids (next_id : Z) (findings : list clustered)
    : res (list record) :=
  match findings with
  | [] => Ok []
  | f :: rest =>
      digits ← py_fmt_03d next_id;
      records ← assign_finding_ids (next_id + 1) rest;
      Ok (mk_record f ("F-" +:+ digits) :: records)
  end.

(* ------------------------------------------------------------------ *)
(** ** The invocation *)

(** The part of the file system an invocation touches. A report file is
    recorded by what [json.load] makes of it ([None] when opening or
    decoding it raises). The store is the text of the file at the output
    path, [None] while nothing is there. [readable] tells whether the
    path, when it exists, can be opened for reading: it cannot when it is
    a directory, or when permission is denied. [writable] tells whether
    the path can be opened for appending: it cannot when its directory is
    missing, or when permission is denied. The output path is taken to
    differ from the report paths. *)
Record world : Type := mk_world {
  files : gmap string (option value);
  store : option string;
  console : list string;
  readable : bool;
  writable : bool
}.

(** A command: it may raise, and it leaves a world behind either way. *)
Definition io (A : Type) : Type := world -> res A * world.

#[global] Instance io_ret : MRet io := fun A a w => (Ok a, w).
#[global] Instance io_bind : MBind io := fun A B k m w =>
  match m w with
  | (Ok a, w') => k a w'
  | (Raise e, w') => (Raise e, w')
  end.

Definition lift {A} (r : res A) : io A := fun w => (r, w).

Definition print (line : string) : io unit := fun w =>
  (Ok (),
   mk_world (files w) (store w) (console w ++ [line]) (readable w)
     (writable w)).

(** [path and os.path.exists(path)]. *)
Definition given_and_exists (path : option string) : io (option string) :=
  fun w =>
    match path with
    | Some p =>
        if bool_decide (p = "") then (Ok None, w)
        else match files w !! p with
             | Some _ => (Ok (Some p), w)
             | None => (Ok None, w)
             end
    | None => (Ok None, w)
    end.

(** [with open(path) as f: json.load(f)]. *)
Definition load_json (path : string) : io value := fun w =>
  match files w !! path with
  | Some (Some v) => (Ok v, w)
  | _ => (Raise JSONDecodeError, w)
  end.

Definition output_exists : io bool := fun w =>
  (Ok (match store w with Some _ => true | None => false end), w).

(** [open(output)] and the text of the file: opening raises when the
    path cannot be read. *)
Definition read_output : io string := fun w =>
  if readable w then (Ok (default "" (store w)), w) else (Raise OSError, w).


Record args : Type := mk_args {
  a_pr : Z;
  a_task : string;
  a_condition : string;
  a_ai_share : spec_float;
  a_pipeline : string;
  a_codeql_sarif : option string;
  a_semgrep_json : option string;
  a_semgrep_sarif : option string;
  a_gitleaks_sarif : option string;
  a_depcheck_json : option string;
  a_output : string
}.

Definition count_line (label : string) (n : nat) (suffix : string) : string :=
  label +:+ N_to_string (N.of_nat n) +:+ suffix.

Section Main.
Context `{Runtime}.

(** The text the writer produces for a sequence of records. *)
Definition csv_text (rows : list (list string)) : string :=
  foldr (fun cells text => csv_line cells +:+ text) "" rows.

(** [open(output, "a")] followed by the writer calls. Opening raises
    when the path is not writable, and nothing has been written then.
    Otherwise the file is created if need be, and the text of the header,
    when [write_header], and of the rows is added after the text the file
    holds, whether or not that text ends with a line end. *)
Definition append_output (write_header : bool) (rows : list (list string))
    : io unit := fun w =>
  if writable w then
    (Ok (),
     mk_world (files w)
       (Some (default "" (store w)
              +:+ (if write_header then csv_line fieldnames else "")
              +:+ csv_text rows))
       (console w) (readable w) (writable w))
  else (Raise OSError, w).

(** The loop over the rows of the existing store: the reader hands over
    its records one by one, so a row that cannot be read stops the scan
    before an error of the reader further down does. *)
Definition scan_output (text : string) : res Z :=
  next_id ← next_id_of_table (csv_reader text).1;
  match (csv_reader text).2 with
  | Some e => Raise e
  | None => Ok next_id
  end.

(** The metadata loop for one finding. The finding is carried on as a
    [Finding]; a draft whose rule id, path or description is not a string,
    or whose line is not an integer, is outside the data model. *)
Definition enrich (a : args) (d : draft) : res Finding :=
  match d_rule_id d, d_file_path d, d_start_line d, d_description d with
  | VStr rule, VStr path, VInt line, VStr text =>
      Ok (mk_finding (d_tool d) rule (d_cwe_id d) (d_severity d) path line
            text (a_pr a) (a_task a) (a_condition a) (a_ai_share a)
            (a_pipeline a)
            (compute_fingerprint (d_tool d) rule path line) "" "")
  | _, _, _, _ => Raise OutsideDataModel
  end.

(** One line of the table, as [DictWriter] renders a finding. *)
Definition cells_of (r : record) : list string :=
  let c := r_clustered r in
  let f := c_finding c in
  [finding_id r; Z_to_string (pr_number f); task_id f; condition f;
   py_str (VFloat (ai_share f)); pipeline f; tool f; rule_id f; cwe_id f;
   severity f; file_path f; Z_to_string (start_line f); fingerprint f;
   triage_status f; py_str (VBool (is_cross_tool_dup c));
   unique_weakness_id c; triage_notes f].

(** One [if path and os.path.exists(path)] block: parse, report the
    count. *)
Definition parse_block (path : string) (adapter : value -> res (list draft))
    (label suffix : string) : io (list draft) :=
  doc ← load_json path;
  found ← lift (adapter doc);
  _ ← print (count_line label (length found) suffix);
  mret found.

Definition parse_optional (path : option string)
    (adapter : value -> res (list draft)) (label : string)
    : io (list draft) :=
  p ← given_and_exists path;
  match p with
  | Some p => parse_block p adapter label " finding(s)"
  | None => mret []
  end.

Definition parse_semgrep (a : args) : io (list draft) :=
  pj ← given_and_exists (a_semgrep_json a);
  match pj with
  | Some p => parse_block p parse_semgrep_json "  Semgrep:   " " finding(s)"
  | None =>
      ps ← given_and_exists (a_semgrep_sarif a);
      match ps with
      | Some p => parse_block p parse_semgrep_sarif "  Semgrep:   "
                    " finding(s) (from SARIF)"
      | None => mret []
      end
  end.

Definition distinct_weaknesses (fs : list clustered) : nat :=
  size (list_to_set (unique_weakness_id <$> fs) : gset string).

Definition cross_tool_count (fs : list clustered) : nat :=
  length (filter (fun c => is_cross_tool_dup c = true) fs).

Definition main (a : args) : io unit :=
  codeql ← parse_optional (a_codeql_sarif a) parse_codeql_sarif "  CodeQL:    ";
  semgrep ← parse_semgrep a;
  gitleaks ← parse_optional (a_gitleaks_sarif a) parse_gitleaks_sarif
               "  Gitleaks:  ";
  depcheck ← parse_optional (a_depcheck_json a) parse_depcheck_json
               "  Dep-Check: ";
  let drafts := (codeql ++ semgrep ++ gitleaks ++ depcheck)%list in
  _ ← (if bool_decide (drafts = [] :> list draft)
       then print "  No findings from any tool." else mret ());
  enriched ← lift (traverse (enrich a) drafts);
  let all_findings := deduplicate_and_assign_weaknesses enriched in
  present ← output_exists;
  next_id ← (if present : bool
             then text ← read_output; lift (scan_output text)
             else mret 1);
  records ← lift (assign_finding_ids next_id all_findings);
  file_exists ← output_exists;
  _ ← append_output (negb file_exists) (cells_of <$> records);
  _ ← print "";
  _ ← print (count_line "  Total findings:      " (length all_findings) "");
  _ ← print (count_line "  Unique weaknesses:   "
               (distinct_weaknesses all_findings) "");
  _ ← print (count_line "  Cross-tool overlaps: "
               (cross_tool_count all_findings) "");
  print ("  Written to:          " +:+ a_output a).

End Main.

(* ------------------------------------------------------------------ *)
(** ** Sample inputs *)

(** Stand-ins for the [csv] module on cells that need no quoting: a
    record is written as its cells between commas, ended by a carriage
    return and a line feed, and read back by cutting the text at line
    feeds and commas. *)
Definition line_end : string :=
  String (ascii_of_N 13) (String (ascii_of_N 10) "").

Fixpoint plain_cells (cells : list string) : string :=
  match cells with
  | [] => ""
  | [c] => c
  | c :: rest => c +:+ "," +:+ plain_cells rest
  end.

Definition plain_line (cells : list string) : string :=
  plain_cells cells +:+ line_end.

(** [plain_records text cell row]: the records of [text], with the cell
    and the row being read held back to front. *)
Fixpoint plain_records (text cell : string) (row : list string)
    : list (list string) :=
  match text with
  | "" =>
      if bool_decide (cell = "") && bool_decide (row = []) then []
      else [rev (str_rev cell :: row)]
  | String c rest =>
      if bool_decide (c = ascii_of_N 10) then
        (if bool_decide (cell = "") && bool_decide (row = []) then []
         else rev (str_rev cell :: row))
        :: plain_records rest "" []
      else if bool_decide (c = ascii_of_N 13) then plain_records rest cell row
      else if bool_decide (c = ","%char)
           then plain_records rest "" (str_rev cell :: row)
           else plain_records rest (String c cell) row
  end.

(** A stand-in for the run-time services, used to run the embedding on
    concrete inputs. *)
Definition plain_runtime : Runtime :=
  {| py_repr := fun _ => "<repr>";
     sha256_hexdigest := fun s => s;
     csv_reader := fun text => (plain_records text "" [], None);
     csv_line := plain_line |}.

(** The text of a table under the stand-in. *)
Definition plain_text (table : list (list string)) : string :=
  foldr (fun cells text => plain_line cells +:+ text) "" table.

Definition sample_result (level : string) : value :=
  VDict [("ruleId", VStr "java/sql-injection"); ("level", VStr level);
         ("message", VDict [("text", VStr "Query built from user input")])].




(** A result with no rule tags whose message names a category, and a
    report holding just that result. *)
Definition untagged_result : value :=
  VDict [("ruleId", VStr "sql-injection");
         ("message", VDict [("text", VStr "CWE-89: SQL built from input")])].

Definition untagged_report : value :=
  VDict [("runs", VList [VDict [("results", VList [untagged_result])]])].

(** A dependency vulnerability whose first weakness is already spelt
    with its prefix. *)
Definition prefixed_vulnerability : value :=
  VDict [("name", VStr "CVE-2021-44228");
         ("cvssv3", VDict [("baseScore", VFloat float_10)]);
         ("cwes", VList [VStr "CWE-502"; VStr "CWE-20"]);
         ("description", VStr "Remote code execution")].

Definition sample_dependency : value :=
  VDict [("fileName", VStr "log4j-core-2.14.1.jar");
         ("vulnerabilities", VList [prefixed_vulnerability])].

(** Findings for the examples: a category and a location, with the run
    metadata of a fixed pull request. *)
Definition finding_at (tool rule_id cwe file : string) (line : Z) : Finding :=
  mk_finding tool rule_id cwe "high" file line "" 3 "T1" "high-ai" float_0
    "security-gated" "" "" "".

(** One tool's report, as the adapter returns it. *)
Definition codeql_batch : list Finding :=
  [finding_at "codeql" "java/sql-injection" "CWE-89" "src/Dao.java" 10;
   finding_at "codeql" "java/xss" "CWE-79" "src/View.java" 42;
   finding_at "codeql" "java/sql-injection" "CWE-89" "src/Dao.java" 10].

(** The ordering scenario: one category, one file, lines 10, 13 and 16,
    reported by three tools. *)
Definition sqli_10_13_16 : list Finding :=
  [finding_at "codeql" "java/sql-injection" "CWE-89" "src/Dao.java" 10;
   finding_at "semgrep" "java.lang.security.sqli" "CWE-89" "src/Dao.java" 13;
   finding_at "depcheck" "CVE-2020-0001" "CWE-89" "src/Dao.java" 16].

(** Two findings of one tool, by two rules, one line apart. *)
Definition same_tool_pair : list Finding :=
  [finding_at "codeql" "java/sql-injection" "CWE-89" "src/Dao.java" 10;
   finding_at "codeql" "java/concatenated-sql-query" "CWE-89" "src/Dao.java" 11].

(** A store whose highest identifier is F-007, rows out of order. *)
Definition store_up_to_7 : csv_table :=
  [fieldnames;
   ["F-003"; "2"; "T1"; "low-ai"; "0.3"; "baseline"; "codeql"; "r1"; "CWE-89";
    "high"; "a.java"; "4"; "00"; ""; "False"; "W-001"; ""];
   ["F-007"; "2"; "T1"; "low-ai"; "0.3"; "baseline"; "semgrep"; "r2"; "";
    "low"; "b.java"; "9"; "01"; "TP"; "False"; "W-002"; ""];
   ["F-005"; "2"; "T1"; "low-ai"; "0.3"; "baseline"; "gitleaks"; "r3";
    "CWE-798"; "high"; "c.java"; "1"; "02"; ""; "False"; "W-003"; ""]].

(** An invocation given both Semgrep reports: a JSON report with no
    results, and a SARIF file that does not decode. The store does not
    exist yet. *)
Definition both_semgrep_args : args :=
  mk_args 3 "T1" "high-ai" float_0 "security-gated"
    None (Some "semgrep.json") (Some "semgrep.sarif") None None
    "data/findings.csv".

Definition both_semgrep_world : world :=
  mk_world
    (<["semgrep.json" := Some (VDict [("results", VList [])])]>
       (<["semgrep.sarif" := None]> ∅))
    None [] true true.

(** An invocation given a Gitleaks report that decodes to a list, not
    an object, and a store that already holds rows. *)
Definition bad_gitleaks_args : args :=
  mk_args 3 "T1" "high-ai" float_0 "security-gated"
    None None None (Some "gitleaks.sarif") None "data/findings.csv".

Definition bad_gitleaks_world : world :=
  mk_world (<["gitleaks.sarif" := Some (VList [])]> ∅)
    (Some (plain_text store_up_to_7)) [] true true.

(** An invocation given a Gitleaks report of three results, on the store
    whose highest identifier is F-007. *)
Definition key_result (rule_id : string) : value :=
  VDict [("ruleId", VStr rule_id);
         ("message", VDict [("text", VStr "Detected a key")])].

Definition three_keys_report : value :=
  VDict [("runs",
          VList [VDict [("results",
                         VList [key_result "aws-access-token";
                                key_result "generic-api-key";
                                key_result "private-key"])]])].

Definition three_keys_args : args :=
  mk_args 3 "T1" "high-ai" float_0 "security-gated"
    None None None (Some "gitleaks.sarif") None "data/findings.csv".

Definition three_keys_world : world :=
  mk_world (<["gitleaks.sarif" := Some three_keys_report]> ∅)
    (Some (plain_text store_up_to_7)) [] true true.
(* ------------------------------------------------------------------ *)
(** ** Vocabulary of the properties

    The predicates and auxiliary functions in which Part II states what
    the embedding does. *)

(** *** Severity and category *)

(** The severity the table assigns to a SARIF level, written out. *)
Definition sarif_severity (level : string) : string :=
  if decide (level = "error") then "high"
  else if decide (level = "warning") then "medium"
  else if decide (level = "note") then "low"
  else if decide (level = "none") then "info"
  else "medium".



(** *** Deduplication and clustering *)

(** The keys of a list of findings, as a set. *)
Definition keys_of (l : list Finding) : gset dedup_key :=
  list_to_set (key_of <$> l).

(** [f] stands in [l] at a position before which no record has its
    key. *)
Definition first_of_its_key (l : list Finding) (f : Finding) : Prop :=
  exists i, l !! i = Some f
            /\ forall j g, (j < i)%nat -> l !! j = Some g -> key_of g <> key_of f.

(** [c] opened the entry [wm]: it is not flagged and carries the entry's
    identifier, category and file. *)
Definition founder_of (wm : weakness) (c : clustered) : Prop :=
  unique_weakness_id c = wm_weakness_id wm
  /\ is_cross_tool_dup c = false
  /\ cwe_id (c_finding c) = wm_cwe wm
  /\ file_path (c_finding c) = wm_file wm.

(** Every entry of the weakness map of [st] was opened by a record of
    [pre]. *)
Definition founded (pre : list clustered) (st : cluster_state) : Prop :=
  forall wm, wm ∈ weakness_map st ->
    exists j c, pre !! j = Some c /\ founder_of wm c.



(** Three findings of category CWE-89 in one file, at lines 10, 13 and
    16, in that order. *)
Definition lines_10_13_16 (f1 f2 f3 : Finding) : Prop :=
  cwe_id f1 = "CWE-89" /\ cwe_id f2 = "CWE-89" /\ cwe_id f3 = "CWE-89"
  /\ file_path f2 = file_path f1 /\ file_path f3 = file_path f1
  /\ start_line f1 = 10 /\ start_line f2 = 13 /\ start_line f3 = 16.

(** All records of an output share one weakness identifier. *)
Definition one_cluster (out : list clustered) : Prop :=
  exists w, forall c, c ∈ out -> unique_weakness_id c = w.

(** The two fields the clusterer sets, record by record. *)
Definition labels (out : list clustered) : list (string * bool) :=
  (fun c => (unique_weakness_id c, is_cross_tool_dup c)) <$> out.

(** *** Decimal text and identifiers *)

(** Every character of [s] is a digit. *)
Fixpoint all_digits (s : string) : bool :=
  match s with
  | "" => true
  | String c r => is_digit c && all_digits r
  end.

(** The number a digit string denotes, continuing from [acc]. *)
Fixpoint dec_value (acc : Z) (s : string) : Z :=
  match s with
  | "" => acc
  | String c r => dec_value (10 * acc + digit_val c) r
  end.

(** No character of [s] is a dash. *)
Fixpoint dash_free (s : string) : bool :=
  match s with
  | "" => true
  | String c r => negb (bool_decide (c = "-"%char)) && dash_free r
  end.

(** The numbers of the identifiers a table holds, row by row, read the
    way the scan reads them; raises where the scan does. *)
Fixpoint row_numbers (header : list string) (rows : list (list string))
    : res (list Z) :=
  match rows with
  | [] => Ok []
  | [] :: rest => row_numbers header rest
  | cells :: rest =>
      num ← finding_number (row_finding_id header cells);
      nums ← row_numbers header rest;
      Ok (num :: nums)
  end.

(** One update of [next_id] by the scan. *)
Definition bump (next_id num : Z) : Z := Z.max next_id (num + 1).

(** *** Commands and reports *)

(** A command that leaves the report files and the store as they
    were, and with them what can be done at the output path. *)
Definition quiet {A} (m : io A) : Prop :=
  forall w,
    files (m w).2 = files w /\ store (m w).2 = store w
    /\ readable (m w).2 = readable w /\ writable (m w).2 = writable w.

(** A command that, when it raises, has not written to the store. *)
Definition unwritten {A} (m : io A) : Prop :=
  forall w, is_ok (m w).1 = false -> store (m w).2 = store w.

(** A command that raises a Python exception from the world [w]; the
    marker [OutsideDataModel] is no exception of the program. *)
Definition fails {A} (m : io A) (w : world) : Prop :=
  exists e, (m w).1 = Raise e /\ e <> OutsideDataModel.

(** A computation, or a command, that stays inside the data model. *)
Definition modelled {A} (r : res A) : Prop := r <> Raise OutsideDataModel.

Definition modelled_io {A} (m : io A) : Prop := forall w, modelled (m w).1.

(** What an invocation finds at a report path: [None] when the flag is
    absent or empty or the file does not exist, else the state of the
    file. *)
Definition effective (path : option string) (w : world)
    : option (option value) :=
  match path with
  | Some p => if bool_decide (p = "") then None else files w !! p
  | None => None
  end.

(** A file is structurally invalid for an adapter when it does not
    decode, or the adapter raises on the decoded document. *)
Definition invalid_for (adapter : value -> res (list draft))
    (file : option value) : Prop :=
  match file with
  | Some doc => is_ok (adapter doc) = false
  | None => True
  end.

(** The report at [path] is there and is invalid for [adapter]. *)
Definition invalid_at (adapter : value -> res (list draft))
    (path : option string) (w : world) : Prop :=
  exists file, effective path w = Some file /\ invalid_for adapter file.

Section ReportPredicates.
Context `{Runtime}.

(** The drafts of one report: none when the report is not found, else
    what the adapter makes of the decoded file. *)
Definition report_drafts (adapter : value -> res (list draft))
    (path : option string) (w : world) : res (list draft) :=
  match effective path w with
  | None => Ok []
  | Some None => Raise JSONDecodeError
  | Some (Some doc) => adapter doc
  end.

(** The drafts of the reports that an invocation reads, in the order in
    which it reads them: CodeQL, Semgrep (the JSON report if one is found,
    else the SARIF report), Gitleaks, Dependency-Check. *)
Definition drafts_read (a : args) (w : world) : res (list draft) :=
  codeql ← report_drafts parse_codeql_sarif (a_codeql_sarif a) w;
  semgrep ← match effective (a_semgrep_json a) w with
            | Some _ => report_drafts parse_semgrep_json (a_semgrep_json a) w
            | None => report_drafts parse_semgrep_sarif (a_semgrep_sarif a) w
            end;
  gitleaks ← report_drafts parse_gitleaks_sarif (a_gitleaks_sarif a) w;
  depcheck ← report_drafts parse_depcheck_json (a_depcheck_json a) w;
  Ok (codeql ++ semgrep ++ gitleaks ++ depcheck)%list.

(** The findings that an invocation hands to the allocator: the drafts
    of the reports it reads, with the run metadata, deduplicated and
    clustered. *)
Definition findings_of_run (a : args) (w : world) : res (list clustered) :=
  drafts ← drafts_read a w;
  enriched ← traverse (enrich a) drafts;
  Ok (deduplicate_and_assign_weaknesses enriched).

(** What an invocation adds to the text of the store it found: the
    header line if the file is new, then the lines of the rows. *)
Definition appended (before : option string) (rows : list (list string))
    : string :=
  default "" before
  +:+ match before with Some _ => "" | None => csv_line fieldnames end
  +:+ csv_text rows.

(** Some report whose path was supplied exists and is invalid. *)
Definition some_supplied_report_invalid (a : args) (w : world) : Prop :=
  invalid_at parse_codeql_sarif (a_codeql_sarif a) w
  \/ invalid_at parse_semgrep_json (a_semgrep_json a) w
  \/ invalid_at parse_semgrep_sarif (a_semgrep_sarif a) w
  \/ invalid_at parse_gitleaks_sarif (a_gitleaks_sarif a) w
  \/ invalid_at parse_depcheck_json (a_depcheck_json a) w.

(** Some report that the invocation reads is invalid: the Semgrep SARIF
    report counts only when no existing Semgrep JSON report was
    supplied. *)
Definition some_read_report_invalid (a : args) (w : world) : Prop :=
  invalid_at parse_codeql_sarif (a_codeql_sarif a) w
  \/ invalid_at parse_semgrep_json (a_semgrep_json a) w
  \/ (effective (a_semgrep_json a) w = None
      /\ invalid_at parse_semgrep_sarif (a_semgrep_sarif a) w)
  \/ invalid_at parse_gitleaks_sarif (a_gitleaks_sarif a) w
  \/ invalid_at parse_depcheck_json (a_depcheck_json a) w.

(** The claim that any invalid supplied report aborts the invocation
    with the store untouched. *)
Definition aborts_on_invalid_supplied (a : args) (w : world) : Prop :=
  some_supplied_report_invalid a w ->
  fails (main a) w /\ store (main a w).2 = store w.

End ReportPredicates.

(** *** Scores *)

(** The rational number a finite binary64 denotes. *)
Definition SF2Q (f : spec_float) : option Q :=
  match f with
  | S754_zero _ => Some (inject_Z 0)
  | S754_finite s m e =>
      let sm := if s then Zneg m else Zpos m in
      Some (if 0 <=? e then inject_Z (sm * 2 ^ e)
            else Qmake sm (Z.to_pos (2 ^ (- e))))
  | _ => None
  end.

(** The number a score denotes: an integer, or a finite binary64 in
    canonical form. *)
Definition score_value (s : value) : option Q :=
  match s with
  | VInt z => Some (inject_Z z)
  | VBool b => Some (inject_Z (if b then 1 else 0))
  | VFloat f => if valid_binary prec emax f then SF2Q f else None
  | _ => None
  end.

(** An integer threshold [T] held as the binary64 of mantissa [mT] and
    negative exponent [eT]. *)
Definition threshold (T : Z) (mT : positive) (eT : Z) : Prop :=
  -1074 < eT < 0 /\ 2 ^ 52 <= Z.pos mT < 2 ^ 53
  /\ Z.pos mT = T * 2 ^ (- eT).
(* ------------------------------------------------------------------ *)
(** ** Vocabulary of the further properties *)

(** *** Adapters *)

(** The severity the Semgrep table assigns to a native level, written
    out. *)
Definition semgrep_severity (level : string) : string :=
  if decide (level = "ERROR") then "high"
  else if decide (level = "WARNING") then "medium"
  else if decide (level = "INFO") then "low"
  else "medium".

(** The five levels of the unified scale. *)
Definition canonical_scale : list string :=
  ["critical"; "high"; "medium"; "low"; "info"].

(** A description cut by [[:200]]: a text, or a list, of at most 200
    items. *)
Definition description_bounded (d : draft) : Prop :=
  match d_description d with
  | VStr s => (String.length s <= 200)%nat
  | VList l => (length l <= 200)%nat
  | _ => False
  end.

(** A category in normal form: empty, or the upper-case prefix followed
    by one or more decimal digits and nothing else. *)
Definition canonical_category (c : string) : Prop :=
  c = "" \/ exists ds, c = "CWE-" +:+ ds /\ ds <> "" /\ all_digits ds = true.

(** A rule object that carries a text identifier. *)
Definition rule_with_text_id (rule : value) : Prop :=
  exists d s, rule = VDict d /\ assoc "id" d = Some (VStr s).

(** Some adapter returned the drafts [ds] on the document [doc]. *)
Section AdapterPredicates.
Context `{Runtime}.

Definition some_adapter_returns (doc : value) (ds : list draft) : Prop :=
  parse_codeql_sarif doc = Ok ds
  \/ parse_semgrep_json doc = Ok ds
  \/ parse_semgrep_sarif doc = Ok ds
  \/ parse_gitleaks_sarif doc = Ok ds
  \/ parse_depcheck_json doc = Ok ds.

(** One of the adapters that extract the category from tags or text, or
    the Gitleaks adapter, returned [ds]. *)
Definition some_extracting_adapter_returns (doc : value) (ds : list draft)
    : Prop :=
  parse_codeql_sarif doc = Ok ds
  \/ parse_semgrep_json doc = Ok ds
  \/ parse_semgrep_sarif doc = Ok ds
  \/ parse_gitleaks_sarif doc = Ok ds.

End AdapterPredicates.

(** *** Sample reports *)

(** A Semgrep JSON result of a given native level and category
    metadata. *)
Definition semgrep_result (level : string) (cwe : value) : value :=
  VDict [("check_id", VStr "java.lang.security.sqli");
         ("path", VStr "src/Dao.java");
         ("start", VDict [("line", VInt 10)]);
         ("extra", VDict [("severity", VStr level);
                          ("message", VStr "SQL built from input");
                          ("metadata", VDict [("cwe", cwe)])])].

(** A Semgrep JSON report with two results. *)
Definition semgrep_report : value :=
  VDict [("results",
          VList [semgrep_result "ERROR"
                   (VList [VStr "CWE-89: SQL Injection"; VStr "CWE-20"]);
                 semgrep_result "INFO" (VStr "no category here")])].

(** A Gitleaks report whose only result declares the level "note". *)
Definition gitleaks_report : value :=
  VDict [("runs",
          VList [VDict [("results",
                         VList [VDict [("ruleId", VStr "generic-api-key");
                                       ("level", VStr "note");
                                       ("message",
                                        VDict [("text", VStr "Detected a key")])]])]])].

(** A dependency vulnerability with a version-3 block that has no base
    score, beside a version-2 block scoring 10. *)
Definition half_scored_vulnerability : value :=
  VDict [("name", VStr "CVE-2019-0001");
         ("cvssv3", VDict [("attackVector", VStr "NETWORK")]);
         ("cvssv2", VDict [("score", VFloat float_10)])].

(** A SARIF run whose second rule has no identifier, and no results. *)
Definition run_with_anonymous_rule : value :=
  VDict [("tool",
          VDict [("driver",
                  VDict [("rules",
                          VList [VDict [("id", VStr "java/sql-injection")];
                                 VDict [("name", VStr "unnamed")]])])]);
         ("results", VList [])].

(** *** Clusters *)

(** The state of the clusterer after the findings [l]. *)
Definition clusters_after (st : cluster_state) (l : list Finding)
    : cluster_state :=
  fold_left (fun st f => (assign_weakness st f).1) l st.

(** The records that opened a cluster. *)
Definition founders (out : list clustered) : list clustered :=
  filter (fun c => is_cross_tool_dup c = false) out.

(** The entries of the weakness map carry the labels of 1, 2, ... up to
    the counter, in order. *)
Definition numbered (st : cluster_state) : Prop :=
  0 <= weakness_counter st
  /\ wm_weakness_id <$> weakness_map st
     = weakness_label <$> seqZ 1 (weakness_counter st).

(** [wm] is the entry of the cluster of [c]: same identifier, category
    and file, and a line no greater than that of [c]. *)
Definition entry_of (st : cluster_state) (c : clustered) (wm : weakness)
    : Prop :=
  wm ∈ weakness_map st
  /\ wm_weakness_id wm = unique_weakness_id c
  /\ wm_cwe wm = cwe_id (c_finding c)
  /\ wm_file wm = file_path (c_finding c)
  /\ wm_line wm <= start_line (c_finding c).

(** The weakness map follows the records put out so far: every record
    has its entry, and the line of every entry is the line of one of the
    records of its cluster, hence the lowest of them. *)
Definition tracked (pre : list clustered) (st : cluster_state) : Prop :=
  numbered st
  /\ (forall c, c ∈ pre -> exists wm, entry_of st c wm)
  /\ (forall wm, wm ∈ weakness_map st ->
        exists c, c ∈ pre
                  /\ unique_weakness_id c = wm_weakness_id wm
                  /\ start_line (c_finding c) = wm_line wm).

(** Every flagged record lies within three lines of the lowest line
    among the earlier records of its cluster. *)
Definition within_three_of_lowest (out : list clustered) : Prop :=
  forall i c, out !! i = Some c -> is_cross_tool_dup c = true ->
    exists j c', (j < i)%nat /\ out !! j = Some c'
      /\ unique_weakness_id c' = unique_weakness_id c
      /\ Z.abs (start_line (c_finding c) - start_line (c_finding c')) <= 3
      /\ forall k c'', (k < i)%nat -> out !! k = Some c'' ->
           unique_weakness_id c'' = unique_weakness_id c ->
           start_line (c_finding c') <= start_line (c_finding c'').

(** The records of one cluster have one category and one file. *)
Definition coherent (out : list clustered) : Prop :=
  forall c c', c ∈ out -> c' ∈ out ->
    unique_weakness_id c = unique_weakness_id c' ->
    cwe_id (c_finding c) = cwe_id (c_finding c')
    /\ file_path (c_finding c) = file_path (c_finding c').

(** A record without category is never flagged and shares its cluster
    with no other record. *)
Definition uncategorised_alone (out : list clustered) : Prop :=
  forall i c, out !! i = Some c -> cwe_id (c_finding c) = "" ->
    is_cross_tool_dup c = false
    /\ forall j c', out !! j = Some c' ->
         unique_weakness_id c' = unique_weakness_id c -> j = i.

(** The condition under which [g] joins the cluster that [f] has just
    opened. *)
Definition near (f g : Finding) : Prop :=
  cwe_id g <> "" /\ cwe_id g = cwe_id f /\ file_path g = file_path f
  /\ Z.abs (start_line g - start_line f) <= 3.

#[global] Instance near_dec f g : Decision (near f g).
Proof. unfold near. apply _. Defined.

(** Findings whose lines go down from [from] in steps of at most
    three. *)
Fixpoint descends (from : Z) (l : list Finding) : Prop :=
  match l with
  | [] => True
  | f :: rest =>
      0 <= from - start_line f <= 3 /\ descends (start_line f) rest
  end.

(** *** Sample findings *)

(** One tool's batch followed by another's. *)
Definition semgrep_batch : list Finding :=
  [finding_at "semgrep" "java.lang.security.sqli" "CWE-89" "src/Dao.java" 10;
   finding_at "semgrep" "java.lang.security.sqli" "CWE-89" "src/Dao.java" 10].

(** The ordering scenario read downwards: lines 16, 13 and 10. *)
Definition sqli_16_13_10 : list Finding :=
  [finding_at "depcheck" "CVE-2020-0001" "CWE-89" "src/Dao.java" 16;
   finding_at "semgrep" "java.lang.security.sqli" "CWE-89" "src/Dao.java" 13;
   finding_at "codeql" "java/sql-injection" "CWE-89" "src/Dao.java" 10].

(** Two findings without category on one line, by two tools. *)
Definition uncategorised_pair : list Finding :=
  [finding_at "codeql" "java/unused" "" "src/Dao.java" 10;
   finding_at "semgrep" "java.unused" "" "src/Dao.java" 10].

(** *** The store and the invocation *)

(** No report is found: every report flag is absent or empty, or names
    a file that does not exist. *)
Definition no_report_found (a : args) (w : world) : Prop :=
  effective (a_codeql_sarif a) w = None
  /\ effective (a_semgrep_json a) w = None
  /\ effective (a_semgrep_sarif a) w = None
  /\ effective (a_gitleaks_sarif a) w = None
  /\ effective (a_depcheck_json a) w = None.


(** A data row whose identifier the scan cannot read. *)
Definition unreadable_row (header cells : list string) : Prop :=
  cells <> []
  /\ is_ok (finding_number (row_finding_id header cells)) = false.

Section RunPredicates.
Context `{Runtime}.

(** A store in which the reader finds no data row: no file, an empty
    file, or a header alone. *)
Definition without_rows (s : option string) : Prop :=
  match s with
  | Some text => tail (csv_reader text).1 = []
  | None => True
  end.

(** The store the invocation finds can be scanned: the text it holds,
    if any, can be read, and the scan of its rows ends without error. *)
Definition store_scans (w : world) : Prop :=
  match store w with
  | Some text => readable w = true /\ is_ok (scan_output text) = true
  | None => True
  end.

(** A finding that carries the metadata of the invocation [a], empty
    triage fields and the fingerprint of its own key. *)
Definition stamped (a : args) (f : Finding) : Prop :=
  pr_number f = a_pr a /\ task_id f = a_task a
  /\ condition f = a_condition a /\ ai_share f = a_ai_share a
  /\ pipeline f = a_pipeline a
  /\ triage_status f = "" /\ triage_notes f = ""
  /\ fingerprint f
     = compute_fingerprint (tool f) (rule_id f) (file_path f) (start_line f).

End RunPredicates.

(** *** Sample invocations *)

(** An invocation given a Gitleaks report only; the store does not
    exist yet. *)
Definition gitleaks_args : args :=
  mk_args 3 "T1" "high-ai" float_0 "security-gated"
    None None None (Some "gitleaks.sarif") None "data/findings.csv".

Definition gitleaks_world : world :=
  mk_world (<["gitleaks.sarif" := Some gitleaks_report]> ∅)
    None [] true true.

(** The same invocation on the store whose highest identifier is
    F-007. *)
Definition gitleaks_world_after_7 : world :=
  mk_world (<["gitleaks.sarif" := Some gitleaks_report]> ∅)
    (Some (plain_text store_up_to_7)) [] true true.

(** The same invocation on a store whose last line has no line end. *)
Definition unterminated_text : string :=
  plain_line fieldnames
  +:+ plain_cells
        ["F-007"; "2"; "T1"; "low-ai"; "0.3"; "baseline"; "semgrep"; "r2";
         ""; "low"; "b.java"; "9"; "01"; "TP"; "False"; "W-002"; "kept"].

Definition gitleaks_world_unterminated : world :=
  mk_world (<["gitleaks.sarif" := Some gitleaks_report]> ∅)
    (Some unterminated_text) [] true true.

(** An invocation given no report at all. *)
Definition bare_args : args :=
  mk_args 3 "T1" "high-ai" float_0 "security-gated"
    None None None None None "data/findings.csv".

Definition bare_world : world := mk_world ∅ None [] true true.

(** The same, with the directory of the output path missing. *)
Definition bare_world_without_directory : world :=
  mk_world ∅ None [] true false.

(** A store one of whose identifiers lacks the dash. *)
Definition store_with_undashed_id : csv_table :=
  [fieldnames;
   ["F007"; "2"; "T1"; "low-ai"; "0.3"; "baseline"; "semgrep"; "r2"; "";
    "low"; "b.java"; "9"; "01"; "TP"; "False"; "W-002"; ""]].

Definition gitleaks_world_undashed : world :=
  mk_world (<["gitleaks.sarif" := Some gitleaks_report]> ∅)
    (Some (plain_text store_with_undashed_id)) [] true true.

(** A store kept under another header: the identifiers are in a column
    called [id]. *)
Definition store_with_id_column : csv_table :=
  [["id"; "tool"]; ["F-041"; "codeql"]; ["F-042"; "semgrep"]].
(* ================================================================== *)
(** * Part II. Properties *)
(* ================================================================== *)

(** ** Results *)

Lemma bind_Ok {A B} (m : res A) (k : A -> res B) (b : B) :
  (x ← m; k x) = Ok b -> exists a, m = Ok a /\ k a = Ok b.
Proof. destruct m as [a|e]; simpl; [eauto | discriminate]. Qed.

(** Splits a hypothesis saying that a chain of binds returned. *)
Ltac bind_inv H :=
  repeat match type of H with
  | mbind _ _ = Ok _ =>
      let a := fresh "a" in
      let E := fresh "E" in
      apply bind_Ok in H; destruct H as (a & E & H)
  end.

(** ** Severity table *)

Lemma codeql_map_lookup (level : string) :
  default "medium" (CODEQL_SEVERITY_MAP !! level) = sarif_severity level.
Proof.
  unfold CODEQL_SEVERITY_MAP, sarif_severity. simpl.
  repeat (rewrite lookup_insert; case_decide; subst;
          [ repeat (case_decide; try congruence); reflexivity |]).
  rewrite lookup_empty. simpl.
  repeat (case_decide; try congruence).
Qed.

Section SeverityFacts.
Context `{Runtime}.

Lemma codeql_result_severity rules result level dr :
  py_get result "level" (VStr "warning") = Ok (VStr level) ->
  codeql_result rules result = Ok dr ->
  d_severity dr = sarif_severity level.
Proof.
  intros Hl Hr. unfold codeql_result in Hr. bind_inv Hr.
  rewrite Hl in *. simplify_eq. simpl in *.
  match goal with
  | E : Ok _ = Ok _ |- _ => inversion E; subst
  end.
  apply codeql_map_lookup.
Qed.

Lemma semgrep_sarif_result_severity rules result level dr :
  py_get result "level" (VStr "warning") = Ok (VStr level) ->
  semgrep_sarif_result rules result = Ok dr ->
  d_severity dr = sarif_severity level.
Proof.
  intros Hl Hr. unfold semgrep_sarif_result in Hr. bind_inv Hr.
  rewrite Hl in *. simplify_eq. simpl in *.
  match goal with
  | E : Ok _ = Ok _ |- _ => inversion E; subst
  end.
  apply codeql_map_lookup.
Qed.

(** C8. The SARIF severity normalisation maps the level "error" to
    "high", "warning" to "medium", "note" to "low", "none" to "info", and
    every other string to "medium"; a finding that the CodeQL adapter or
    the Semgrep SARIF adapter emits for a result of that level carries
    that severity. *)
Theorem sarif_severity_table :
  severity_get CODEQL_SEVERITY_MAP (VStr "error") "medium" = Ok "high"
  /\ severity_get CODEQL_SEVERITY_MAP (VStr "warning") "medium" = Ok "medium"
  /\ severity_get CODEQL_SEVERITY_MAP (VStr "note") "medium" = Ok "low"
  /\ severity_get CODEQL_SEVERITY_MAP (VStr "none") "medium" = Ok "info"
  /\ (forall level : string,
        level <> "error" -> level <> "warning" -> level <> "note" ->
        level <> "none" ->
        severity_get CODEQL_SEVERITY_MAP (VStr level) "medium" = Ok "medium")
  /\ (forall rules result level dr,
        py_get result "level" (VStr "warning") = Ok (VStr level) ->
        (codeql_result rules result = Ok dr
         \/ semgrep_sarif_result rules result = Ok dr) ->
        severity_get CODEQL_SEVERITY_MAP (VStr level) "medium"
          = Ok (d_severity dr)).
Proof.
  repeat split; try reflexivity.
  - intros level H1 H2 H3 H4. simpl. rewrite codeql_map_lookup.
    unfold sarif_severity. repeat (case_decide; try congruence).
  - intros rules result level dr Hl [Hr | Hr]; simpl;
      rewrite codeql_map_lookup; f_equal; symmetry.
    + eapply codeql_result_severity; eauto.
    + eapply semgrep_sarif_result_severity; eauto.
Qed.

End SeverityFacts.

Lemma sarif_severity_table_witness :
  exists dr,
    @codeql_result plain_runtime [] (sample_result "error") = Ok dr
    /\ severity_get CODEQL_SEVERITY_MAP (VStr "error") "medium"
       = Ok (d_severity dr).
Proof.
  eexists. split; [reflexivity |].
  apply (proj2 (proj2 (proj2 (proj2 (proj2
           (@sarif_severity_table plain_runtime)))))
           [] (sample_result "error") "error");
    [reflexivity | left; reflexivity].
Defined.

(** ** The first location of a SARIF result *)




Lemma bind_not_raise {A B} (m : res A) (k : A -> res B) (e : exn) :
  m <> Raise e -> (forall a, k a <> Raise e) -> (x ← m; k x) <> Raise e.
Proof. destruct m as [a | e']; simpl; [auto | congruence]. Qed.



Section LocationFacts.
Context `{Runtime}.


End LocationFacts.


(** ** Category extraction *)




Lemma re_search_cwe_unfold b s :
  re_search_cwe b s =
    match match_cwe b s with
    | Some ds => Some ds
    | None => match s with
              | "" => None
              | String _ r => re_search_cwe b r
              end
    end.
Proof. destruct s; reflexivity. Qed.



Section CategoryFacts.
Context `{Runtime}.




End CategoryFacts.

Section AdapterCategories.
Context `{Runtime}.

(** What the CodeQL adapter puts in [cwe_id]: the first matching tag of
    the rule, else the first match in the message text, else nothing. *)
Lemma codeql_result_category rules result dr :
  codeql_result rules result = Ok dr ->
  exists rule_id rule_def tags ts,
    py_get result "ruleId" (VStr "unknown") = Ok rule_id
    /\ rules_get rules rule_id = Ok rule_def
    /\ rule_tags rule_def = Ok tags
    /\ py_iter tags = Ok ts
    /\ (if bool_decide (first_tag_match ts = "")
        then exists text, message_text result = Ok text
                          /\ extract_cwe_from_text text = Ok (d_cwe_id dr)
        else d_cwe_id dr = first_tag_match ts).
Proof.
  intros Hr. unfold codeql_result in Hr. bind_inv Hr.
  injection Hr as <-. simpl.
  match goal with
  | E : extract_cwe_from_tags _ = Ok _ |- _ =>
      unfold extract_cwe_from_tags in E; bind_inv E; injection E as <-
  end.
  do 4 eexists. repeat (split; [eassumption |]).
  case_bool_decide as Hnil.
  - match goal with
    | E : mbind _ _ = Ok _ |- _ => bind_inv E; eauto
    end.
  - congruence.
Qed.

(** What the Semgrep SARIF adapter puts there: the first matching tag,
    else nothing; the message is not consulted. *)
Lemma semgrep_sarif_result_category rules result dr :
  semgrep_sarif_result rules result = Ok dr ->
  exists rule_id rule_def tags ts,
    py_get result "ruleId" (VStr "unknown") = Ok rule_id
    /\ rules_get rules rule_id = Ok rule_def
    /\ rule_tags rule_def = Ok tags
    /\ py_iter tags = Ok ts
    /\ d_cwe_id dr = first_tag_match ts.
Proof.
  intros Hr. unfold semgrep_sarif_result in Hr. bind_inv Hr.
  injection Hr as <-. simpl.
  match goal with
  | E : extract_cwe_from_tags _ = Ok _ |- _ =>
      unfold extract_cwe_from_tags in E; bind_inv E; injection E as <-
  end.
  do 4 eexists. repeat (split; [eassumption |]). reflexivity.
Qed.

(** C4, at the input where the code departs from it. On a report whose
    only result has no rule tags and whose message reads
    "CWE-89: SQL built from input", the CodeQL adapter falls back to the
    message and emits the category CWE-89, while the Semgrep SARIF adapter
    emits the empty category. *)
Theorem semgrep_sarif_skips_message_fallback :
  (map d_cwe_id <$> parse_codeql_sarif untagged_report) = Ok ["CWE-89"]
  /\ (map d_cwe_id <$> parse_semgrep_sarif untagged_report) = Ok [""].
Proof. split; reflexivity. Qed.


End AdapterCategories.


(** ** Within-tool deduplication *)

Lemma dedup_cons seen f l :
  within_tool_dedup seen (f :: l)
  = if decide (key_of f ∈ seen) then within_tool_dedup seen l
    else f :: within_tool_dedup ({[key_of f]} ∪ seen) l.
Proof. reflexivity. Qed.

Lemma dedup_sublist seen l : sublist (within_tool_dedup seen l) l.
Proof.
  revert seen. induction l as [| f l IH]; intros seen; simpl.
  - constructor.
  - case_decide.
    + apply sublist_cons, IH.
    + apply sublist_skip, IH.
Qed.

Lemma dedup_fresh seen l g :
  g ∈ within_tool_dedup seen l -> key_of g ∉ seen.
Proof.
  revert seen. induction l as [| f l IH]; intros seen; simpl.
  - intros Hg. inversion Hg.
  - case_decide as Hf.
    + apply IH.
    + intros [-> | Hg]%elem_of_cons; [exact Hf |].
      apply IH in Hg. set_solver.
Qed.

Lemma dedup_keys_NoDup seen l :
  NoDup (key_of <$> within_tool_dedup seen l).
Proof.
  revert seen. induction l as [| f l IH]; intros seen.
  - constructor.
  - rewrite dedup_cons. case_decide as Hf; [apply IH |].
    rewrite fmap_cons. constructor; [| apply IH].
    intros (g & Hk & Hg)%list_elem_of_fmap.
    apply dedup_fresh in Hg. apply Hg. rewrite <- Hk.
    apply elem_of_union_l, elem_of_singleton. reflexivity.
Qed.

Lemma dedup_covers seen l f :
  f ∈ l ->
  key_of f ∈ seen
  \/ exists g, g ∈ within_tool_dedup seen l /\ key_of g = key_of f.
Proof.
  revert seen. induction l as [| h l IH]; intros seen Hf.
  - inversion Hf.
  - simpl. apply elem_of_cons in Hf as [-> | Hf].
    + case_decide as Hh; [left; exact Hh |].
      right. exists h. split; [left | reflexivity].
    + case_decide as Hh.
      * apply IH, Hf.
      * destruct (IH ({[key_of h]} ∪ seen) Hf) as [Hin | (g & Hg & Hk)].
        -- apply elem_of_union in Hin as [Hin | Hin]; [| left; exact Hin].
           apply elem_of_singleton in Hin.
           right. exists h. split; [left | congruence].
        -- right. exists g. split; [right; exact Hg | exact Hk].
Qed.

Lemma dedup_first seen l g :
  g ∈ within_tool_dedup seen l -> first_of_its_key l g.
Proof.
  revert seen. induction l as [| f l IH]; intros seen; simpl.
  - intros Hg. inversion Hg.
  - assert (Hlift : forall seen',
              g ∈ within_tool_dedup seen' l -> key_of f <> key_of g ->
              first_of_its_key (f :: l) g).
    { intros seen' Hg Hne. destruct (IH _ Hg) as (i & Hi & Hbefore).
      exists (S i). split; [exact Hi |].
      intros [| j] h Hj Hh; simpl in Hh.
      - injection Hh as <-. exact Hne.
      - eapply Hbefore; [| exact Hh]. lia. }
    case_decide as Hf.
    + intros Hg. apply (Hlift _ Hg).
      intros Heq. apply dedup_fresh in Hg. congruence.
    + intros [-> | Hg]%elem_of_cons.
      * exists 0%nat. split; [reflexivity |]. intros j h Hj. lia.
      * apply (Hlift _ Hg).
        intros Heq. apply dedup_fresh in Hg. apply Hg. rewrite <- Heq.
        apply elem_of_union_l, elem_of_singleton. reflexivity.
Qed.

Lemma dedup_all_seen seen l :
  (forall f, f ∈ l -> key_of f ∈ seen) -> within_tool_dedup seen l = [].
Proof.
  induction l as [| f l IH]; intros Hall; simpl; [reflexivity |].
  case_decide as Hf.
  - apply IH. intros g Hg. apply Hall. right. exact Hg.
  - exfalso. apply Hf, Hall. left.
Qed.

Lemma dedup_app seen l1 l2 :
  within_tool_dedup seen (l1 ++ l2)
  = within_tool_dedup seen l1 ++ within_tool_dedup (keys_of l1 ∪ seen) l2.
Proof.
  revert seen. induction l1 as [| f l1 IH]; intros seen; simpl.
  - unfold keys_of. simpl. f_equal. set_solver.
  - assert (Hkeys : forall s : gset dedup_key,
              key_of f ∈ s -> keys_of (f :: l1) ∪ s = keys_of l1 ∪ s).
    { intros s Hs. unfold keys_of. simpl. set_solver. }
    case_decide as Hf.
    + rewrite IH, Hkeys by exact Hf. reflexivity.
    + rewrite IH. simpl.
      replace (keys_of l1 ∪ ({[key_of f]} ∪ seen))
        with (keys_of (f :: l1) ∪ seen); [reflexivity |].
      unfold keys_of. simpl. set_solver.
Qed.

(** C7. The within-tool deduplicator keeps, in arrival order, exactly
    the first record of each key (tool, rule_id, file_path, start_line):
    its output is a subsequence of the input, holds no key twice, holds a
    record for every key of the input, and each record it holds is the
    first of its key in the input. Records added to the batch whose keys
    are already there — a second copy of a tool's report among them —
    leave the output as it was. *)
Theorem within_tool_dedup_keeps_first (l : list Finding) :
  sublist (within_tool_dedup ∅ l) l
  /\ NoDup (key_of <$> within_tool_dedup ∅ l)
  /\ (forall f, f ∈ l ->
        exists g, g ∈ within_tool_dedup ∅ l /\ key_of g = key_of f)
  /\ (forall g, g ∈ within_tool_dedup ∅ l -> first_of_its_key l g)
  /\ (forall l', (forall f, f ∈ l' -> key_of f ∈ keys_of l) ->
        within_tool_dedup ∅ (l ++ l') = within_tool_dedup ∅ l)
  /\ within_tool_dedup ∅ (l ++ l) = within_tool_dedup ∅ l.
Proof.
  assert (Happ : forall l', (forall f, f ∈ l' -> key_of f ∈ keys_of l) ->
            within_tool_dedup ∅ (l ++ l') = within_tool_dedup ∅ l).
  { intros l' Hl'.
    rewrite dedup_app, (dedup_all_seen (keys_of l ∪ ∅) l'); [apply app_nil_r |].
    intros f Hf. apply elem_of_union_l, Hl', Hf. }
  repeat split.
  - apply dedup_sublist.
  - apply dedup_keys_NoDup.
  - intros f Hf. destruct (dedup_covers ∅ l f Hf) as [Hin | Hg];
      [set_solver | exact Hg].
  - intros g. apply dedup_first.
  - exact Happ.
  - apply Happ. intros f Hf. unfold keys_of.
    apply elem_of_list_to_set, list_elem_of_fmap. eauto.
Qed.

Lemma within_tool_dedup_example :
  within_tool_dedup ∅ codeql_batch = take 2 codeql_batch
  /\ within_tool_dedup ∅ (codeql_batch ++ codeql_batch) = take 2 codeql_batch.
Proof. split; vm_compute; reflexivity. Qed.

(** ** The weakness clusterer *)

Lemma assign_weaknesses_cons st f rest :
  assign_weaknesses st (f :: rest)
  = (assign_weakness st f).2
    :: assign_weaknesses (assign_weakness st f).1 rest.
Proof. simpl. destruct (assign_weakness st f). reflexivity. Qed.

Lemma assign_weakness_finding st f :
  c_finding (assign_weakness st f).2 = f.
Proof.
  unfold assign_weakness.
  destruct (list_find (wm_matches f) (weakness_map st)) as [[i wm] |];
    reflexivity.
Qed.

(** The clusterer annotates the findings it is given, one for one and in
    order. *)
Lemma assign_weaknesses_findings st l :
  c_finding <$> assign_weaknesses st l = l.
Proof.
  revert st. induction l as [| f l IH]; intros st; [reflexivity |].
  rewrite assign_weaknesses_cons, fmap_cons, assign_weakness_finding, IH.
  reflexivity.
Qed.

Lemma founded_initial : founded [] initial_clusters.
Proof. intros wm Hwm. inversion Hwm. Qed.

Lemma founded_step pre st f :
  founded pre st ->
  founded (pre ++ [(assign_weakness st f).2]) (assign_weakness st f).1.
Proof.
  intros Hinv. unfold assign_weakness.
  destruct (list_find (wm_matches f) (weakness_map st)) as [[i wm] |] eqn:Hfind;
    simpl; intros wm' Hwm'.
  - apply list_find_Some in Hfind as (Hi & _ & _).
    apply list_elem_of_lookup in Hwm' as (k & Hk).
    apply list_lookup_insert_Some in Hk as [(-> & <- & _) | (_ & Hk)].
    + destruct (Hinv wm) as (j & c & Hj & Hc);
        [eapply list_elem_of_lookup_2; exact Hi |].
      exists j, c. split; [apply lookup_app_l_Some; exact Hj | exact Hc].
    + destruct (Hinv wm') as (j & c & Hj & Hc);
        [eapply list_elem_of_lookup_2; exact Hk |].
      exists j, c. split; [apply lookup_app_l_Some; exact Hj | exact Hc].
  - apply elem_of_app in Hwm' as [Hold | Hnew].
    + destruct (Hinv wm' Hold) as (j & c & Hj & Hc).
      exists j, c. split; [apply lookup_app_l_Some; exact Hj | exact Hc].
    + apply list_elem_of_singleton in Hnew as ->.
      exists (length pre), (mk_clustered f (weakness_label (weakness_counter st + 1)) false).
      split; [apply list_lookup_middle; reflexivity |].
      repeat split.
Qed.

(** A record flagged by one step joins an entry whose founder is
    already out. *)
Lemma flagged_step_has_founder pre st f :
  founded pre st ->
  is_cross_tool_dup (assign_weakness st f).2 = true ->
  exists j c, pre !! j = Some c
    /\ unique_weakness_id c = unique_weakness_id (assign_weakness st f).2
    /\ is_cross_tool_dup c = false
    /\ cwe_id (c_finding c) = cwe_id f
    /\ cwe_id f <> ""
    /\ file_path (c_finding c) = file_path f.
Proof.
  intros Hinv. unfold assign_weakness.
  destruct (list_find (wm_matches f) (weakness_map st)) as [[i wm] |] eqn:Hfind;
    simpl; [intros _ | discriminate].
  apply list_find_Some in Hfind as (Hi & (Hne & Hcwe & Hfile & _) & _).
  destruct (Hinv wm) as (j & c & Hj & Hid & Hflag & Hc & Hp);
    [eapply list_elem_of_lookup_2; exact Hi |].
  exists j, c. repeat split; congruence.
Qed.

Lemma flagged_has_founder pre st l i c :
  founded pre st ->
  (pre ++ assign_weaknesses st l) !! i = Some c ->
  (length pre <= i)%nat ->
  is_cross_tool_dup c = true ->
  exists j c', (j < i)%nat
    /\ (pre ++ assign_weaknesses st l) !! j = Some c'
    /\ unique_weakness_id c' = unique_weakness_id c
    /\ is_cross_tool_dup c' = false
    /\ cwe_id (c_finding c') = cwe_id (c_finding c)
    /\ cwe_id (c_finding c) <> ""
    /\ file_path (c_finding c') = file_path (c_finding c).
Proof.
  revert pre st i. induction l as [| f l IH]; intros pre st i Hinv Hi Hlen Hflag.
  - simpl in Hi. rewrite app_nil_r in Hi. apply lookup_lt_Some in Hi. lia.
  - rewrite assign_weaknesses_cons in *.
    destruct (decide (i = length pre)) as [-> | Hne].
    + rewrite list_lookup_middle in Hi by reflexivity. injection Hi as <-.
      destruct (flagged_step_has_founder pre st f Hinv Hflag)
        as (j & c' & Hj & Hrest).
      exists j, c'. split; [apply lookup_lt_Some in Hj; lia |].
      split; [apply lookup_app_l_Some; exact Hj |].
      rewrite assign_weakness_finding. exact Hrest.
    + rewrite (cons_middle _ pre), app_assoc in *.
      apply (IH _ _ i (founded_step pre st f Hinv) Hi); [| exact Hflag].
      rewrite length_app. simpl. lia.
Qed.




(** *** The ordering scenario *)

(** C1, refuted as stated. For the order 10, 13, 16 the third finding
    opens a second cluster: the anchor of the first cluster is still 10
    after 13 has joined, and 16 is six lines away from it. *)
Lemma order_10_13_16_splits :
  labels (deduplicate_and_assign_weaknesses sqli_10_13_16)
  = [("W-001", false); ("W-001", true); ("W-002", false)]
  /\ lines_10_13_16 (finding_at "codeql" "java/sql-injection" "CWE-89" "src/Dao.java" 10)
       (finding_at "semgrep" "java.lang.security.sqli" "CWE-89" "src/Dao.java" 13)
       (finding_at "depcheck" "CVE-2020-0001" "CWE-89" "src/Dao.java" 16)
  /\ ~ one_cluster (deduplicate_and_assign_weaknesses sqli_10_13_16).
Proof.
  split; [vm_compute; reflexivity |].
  split; [repeat split |].
  intros (w & Hw).
  assert (H1 : "W-001" = w).
  { apply (Hw (mk_clustered
                 (finding_at "codeql" "java/sql-injection" "CWE-89"
                    "src/Dao.java" 10) "W-001" false)).
    vm_compute. left. }
  assert (H2 : "W-002" = w).
  { apply (Hw (mk_clustered
                 (finding_at "depcheck" "CVE-2020-0001" "CWE-89"
                    "src/Dao.java" 16) "W-002" false)).
    vm_compute. right. right. left. }
  congruence.
Qed.

Lemma dedup_distinct_lines f1 f2 f3 :
  start_line f1 <> start_line f2 -> start_line f1 <> start_line f3 ->
  start_line f2 <> start_line f3 ->
  within_tool_dedup ∅ [f1; f2; f3] = [f1; f2; f3].
Proof.
  intros H12 H13 H23.
  assert (Hk : forall f g : Finding,
            start_line f <> start_line g -> key_of f <> key_of g).
  { intros f g Hne Heq. apply Hne. unfold key_of in Heq. congruence. }
  rewrite !dedup_cons.
  repeat case_decide; try reflexivity; exfalso;
    repeat match goal with
    | Hin : _ ∈ _ |- _ =>
        first [ apply elem_of_empty in Hin; exact Hin
              | apply elem_of_union in Hin as [Hin | Hin]
              | apply elem_of_singleton in Hin;
                first [ exact (Hk _ _ H12 (eq_sym Hin))
                      | exact (Hk _ _ H13 (eq_sym Hin))
                      | exact (Hk _ _ H23 (eq_sym Hin)) ] ]
    end.
Qed.

(** C1, amended. For three findings of category CWE-89 in one file at
    lines 10, 13 and 16, processed in that order, the clusterer produces
    exactly two clusters: the findings at 10 and 13 share W-001, the
    second one flagged, and the finding at 16 opens W-002. *)
Theorem order_10_13_16_gives_two_clusters (f1 f2 f3 : Finding) :
  lines_10_13_16 f1 f2 f3 ->
  labels (deduplicate_and_assign_weaknesses [f1; f2; f3])
  = [("W-001", false); ("W-001", true); ("W-002", false)]
  /\ c_finding <$> deduplicate_and_assign_weaknesses [f1; f2; f3]
     = [f1; f2; f3].
Proof.
  intros (C1 & C2 & C3 & P2 & P3 & L1 & L2 & L3).
  unfold deduplicate_and_assign_weaknesses.
  rewrite dedup_distinct_lines by lia.
  split; [| apply assign_weaknesses_findings].
  set (wm1 := mk_weakness (cwe_id f1) (file_path f1) (start_line f1) "W-001").
  set (wm1' := mk_weakness (cwe_id f1) (file_path f1)
                 (Z.min (start_line f1) (start_line f2)) "W-001").
  assert (S1 : assign_weakness initial_clusters f1
               = (mk_cluster_state 1 [wm1], mk_clustered f1 "W-001" false))
    by reflexivity.
  assert (F2 : list_find (wm_matches f2) [wm1] = Some (0%nat, wm1)).
  { apply list_find_Some. split; [reflexivity |]. split.
    - unfold wm_matches; simpl. rewrite C1, C2, L1, L2, P2.
      repeat split; [discriminate | lia].
    - intros j y Hj Hlt. lia. }
  assert (S2 : assign_weakness (mk_cluster_state 1 [wm1]) f2
               = (mk_cluster_state 1 [wm1'], mk_clustered f2 "W-001" true)).
  { unfold assign_weakness. simpl weakness_map. rewrite F2. reflexivity. }
  assert (F3 : list_find (wm_matches f3) [wm1'] = None).
  { apply list_find_None. constructor; [| constructor].
    unfold wm_matches; simpl. rewrite L1, L2, L3. intros (_ & _ & _ & Habs).
    lia. }
  assert (S3 : (assign_weakness (mk_cluster_state 1 [wm1']) f3).2
               = mk_clustered f3 "W-002" false).
  { unfold assign_weakness. simpl weakness_map. rewrite F3. reflexivity. }
  rewrite !assign_weaknesses_cons, S1. simpl fst. simpl snd.
  rewrite S2. simpl fst. simpl snd. rewrite S3. reflexivity.
Qed.

Lemma order_10_13_16_witness :
  labels (deduplicate_and_assign_weaknesses sqli_10_13_16)
  = [("W-001", false); ("W-001", true); ("W-002", false)]
  /\ c_finding <$> deduplicate_and_assign_weaknesses sqli_10_13_16
     = sqli_10_13_16.
Proof.
  apply (order_10_13_16_gives_two_clusters
           (finding_at "codeql" "java/sql-injection" "CWE-89" "src/Dao.java" 10)
           (finding_at "semgrep" "java.lang.security.sqli" "CWE-89" "src/Dao.java" 13)
           (finding_at "depcheck" "CVE-2020-0001" "CWE-89" "src/Dao.java" 16)).
  repeat split.
Defined.

(** ** Decimal text *)

(** Case analysis on a character known to be a digit. *)
Ltac digit_cases c Hc :=
  destruct c as [[] [] [] [] [] [] [] []]; vm_compute in Hc;
  try discriminate Hc.

Lemma digit_not_space c : is_digit c = true -> is_int_space c = false.
Proof. intros Hc. digit_cases c Hc; reflexivity. Qed.

Lemma digit_not_dash c : is_digit c = true -> c <> "-"%char.
Proof. intros Hc. digit_cases c Hc; discriminate. Qed.

Lemma digit_not_underscore c : is_digit c = true -> c <> "_"%char.
Proof. intros Hc. digit_cases c Hc; discriminate. Qed.

Lemma digit_val_range c : is_digit c = true -> 0 <= digit_val c <= 9.
Proof. intros Hc. digit_cases c Hc; vm_compute; split; discriminate. Qed.

Lemma digit_char_is_digit d : (d < 10)%N -> is_digit (digit_char d) = true.
Proof.
  intros Hd.
  assert (Hcases : d = 0%N \/ d = 1%N \/ d = 2%N \/ d = 3%N \/ d = 4%N
                   \/ d = 5%N \/ d = 6%N \/ d = 7%N \/ d = 8%N \/ d = 9%N)
    by lia.
  repeat (destruct Hcases as [-> | Hcases]; [reflexivity |]).
  subst. reflexivity.
Qed.

Lemma digit_val_char d : (d < 10)%N -> digit_val (digit_char d) = Z.of_N d.
Proof.
  intros Hd.
  assert (Hcases : d = 0%N \/ d = 1%N \/ d = 2%N \/ d = 3%N \/ d = 4%N
                   \/ d = 5%N \/ d = 6%N \/ d = 7%N \/ d = 8%N \/ d = 9%N)
    by lia.
  repeat (destruct Hcases as [-> | Hcases]; [reflexivity |]).
  subst. reflexivity.
Qed.

Lemma all_digits_dash_free s : all_digits s = true -> dash_free s = true.
Proof.
  induction s as [| c r IH]; simpl; [reflexivity |].
  intros [Hc Hr]%andb_true_iff. rewrite (IH Hr), andb_true_r.
  apply negb_true_iff, bool_decide_eq_false, digit_not_dash, Hc.
Qed.

Lemma all_digits_app s t :
  all_digits (s +:+ t) = all_digits s && all_digits t.
Proof.
  induction s as [| c r IH]; simpl; [reflexivity |].
  rewrite IH, andb_assoc. reflexivity.
Qed.

Lemma dec_value_app acc s t :
  dec_value acc (s +:+ t) = dec_value (dec_value acc s) t.
Proof. revert acc. induction s as [| c r IH]; intros acc; simpl; auto. Qed.

Lemma dec_value_nonneg acc s :
  0 <= acc -> all_digits s = true -> 0 <= dec_value acc s.
Proof.
  revert acc. induction s as [| c r IH]; intros acc Hacc; simpl; [auto |].
  intros [Hc Hr]%andb_true_iff. apply IH; [| exact Hr].
  pose proof (digit_val_range c Hc). lia.
Qed.

Lemma all_digits_zeros k : all_digits (zeros k) = true.
Proof. induction k as [| k IH]; simpl; auto. Qed.

Lemma dec_value_zeros k : dec_value 0 (zeros k) = 0.
Proof. induction k as [| k IH]; simpl; auto. Qed.

(** *** Rendering a number *)

Lemma N_digits_all_digits fuel n acc :
  all_digits acc = true -> all_digits (N_digits fuel n acc) = true.
Proof.
  revert n acc. induction fuel as [| fuel IH]; intros n acc Hacc; simpl;
    [exact Hacc |].
  assert (Hstep : all_digits (String (digit_char (n mod 10)) acc) = true).
  { simpl. rewrite Hacc, andb_true_r. apply digit_char_is_digit.
    apply N.mod_lt. discriminate. }
  destruct (n / 10 =? 0)%N; [exact Hstep | apply IH, Hstep].
Qed.

Lemma N_digits_nonempty fuel n acc :
  N_digits (S fuel) n acc <> "".
Proof.
  revert n acc. induction fuel as [| fuel IH]; intros n acc.
  - simpl. destruct (n / 10 =? 0)%N; discriminate.
  - change (N_digits (S (S fuel)) n acc)
      with (if (n / 10 =? 0)%N then String (digit_char (n mod 10)) acc
            else N_digits (S fuel) (n / 10) (String (digit_char (n mod 10)) acc)).
    destruct (n / 10 =? 0)%N; [discriminate | apply IH].
Qed.

Lemma N_digits_value fuel n acc :
  (n < 10 ^ N.of_nat fuel)%N ->
  dec_value 0 (N_digits fuel n acc) = dec_value (Z.of_N n) acc.
Proof.
  revert n acc. induction fuel as [| fuel IH]; intros n acc Hn.
  - simpl in Hn. assert (n = 0%N) as -> by lia. reflexivity.
  - simpl N_digits.
    assert (Hd : (n mod 10 < 10)%N) by (apply N.mod_lt; discriminate).
    assert (Hsplit : Z.of_N n = 10 * Z.of_N (n / 10) + Z.of_N (n mod 10)).
    { rewrite (N.div_mod n 10) at 1 by discriminate. lia. }
    destruct (n / 10 =? 0)%N eqn:Hq.
    + apply N.eqb_eq in Hq. simpl. rewrite digit_val_char by exact Hd.
      rewrite Hsplit, Hq. reflexivity.
    + rewrite IH.
      * simpl. rewrite digit_val_char by exact Hd. rewrite Hsplit. reflexivity.
      * rewrite Nat2N.inj_succ, N.pow_succ_r' in Hn.
        apply N.Div0.div_lt_upper_bound. exact Hn.
Qed.

Lemma N_to_string_all_digits n : all_digits (N_to_string n) = true.
Proof. apply N_digits_all_digits. reflexivity. Qed.

Lemma N_to_string_nonempty n : N_to_string n <> "".
Proof. apply N_digits_nonempty. Qed.

Lemma N_to_string_value n : dec_value 0 (N_to_string n) = Z.of_N n.
Proof.
  unfold N_to_string. rewrite N_digits_value; [reflexivity |].
  destruct n as [| p]; [reflexivity |].
  rewrite Nat2N.inj_succ, N2Nat.id.
  pose proof (N.log2_spec (N.pos p) eq_refl) as [_ Hlt].
  eapply N.lt_le_trans; [exact Hlt |].
  apply N.pow_le_mono_l. lia.
Qed.

(** *** Reading a number back *)

Lemma int_body_digits acc after s :
  all_digits s = true -> (s <> "" \/ after = true) ->
  int_body acc after s = Some (dec_value acc s).
Proof.
  revert acc after. induction s as [| c r IH]; intros acc after Hs Hne; simpl.
  - destruct Hne as [Hne | ->]; [congruence | reflexivity].
  - simpl in Hs. apply andb_true_iff in Hs as [Hc Hr].
    rewrite Hc. apply IH; [exact Hr | right; reflexivity].
Qed.

Lemma int_body_nonneg acc after s z :
  0 <= acc -> int_body acc after s = Some z -> 0 <= z.
Proof.
  revert acc after. induction s as [| c r IH]; intros acc after Hacc; simpl.
  - destruct after; [intros [= <-]; exact Hacc | discriminate].
  - destruct (is_digit c) eqn:Hc.
    + apply IH. pose proof (digit_val_range c Hc). lia.
    + case_bool_decide; [| discriminate].
      destruct after; [apply IH; exact Hacc | discriminate].
Qed.

Lemma str_rev_onto_twice s a b :
  str_rev_onto (str_rev_onto s a) b = str_rev_onto a (s +:+ b).
Proof.
  revert a b. induction s as [| c r IH]; intros a b; simpl; [reflexivity |].
  rewrite IH. reflexivity.
Qed.

Lemma str_app_empty s : s +:+ "" = s.
Proof.
  induction s as [| c r IH]; [reflexivity |].
  change (String c (r +:+ "") = String c r). f_equal. exact IH.
Qed.

Lemma str_app_assoc (a b c : string) : (a +:+ b) +:+ c = a +:+ (b +:+ c).
Proof.
  induction a as [| x a IH]; [reflexivity |].
  change (String x ((a +:+ b) +:+ c) = String x (a +:+ (b +:+ c))).
  f_equal. exact IH.
Qed.

Lemma str_app_length (a b : string) :
  String.length (a +:+ b) = (String.length a + String.length b)%nat.
Proof.
  induction a as [| x a IH]; [reflexivity |].
  change (S (String.length (a +:+ b))
          = S (String.length a + String.length b)).
  f_equal. exact IH.
Qed.

Lemma zeros_length k : String.length (zeros k) = k.
Proof. induction k as [| k IH]; simpl; [reflexivity | f_equal; exact IH]. Qed.

Lemma digits_in_all_digits s :
  all_digits s = true -> digits_in s = Z.of_nat (String.length s).
Proof.
  induction s as [| c r IH]; [reflexivity |].
  intros [Hc Hr]%andb_true_iff.
  change (digits_in (String c r))
    with ((if is_digit c then 1 else 0) + digits_in r).
  change (String.length (String c r)) with (S (String.length r)).
  rewrite Hc, (IH Hr). lia.
Qed.

Lemma str_rev_involutive s : str_rev (str_rev s) = s.
Proof.
  unfold str_rev. rewrite str_rev_onto_twice. simpl. apply str_app_empty.
Qed.

Lemma str_rev_onto_all_digits s a :
  all_digits (str_rev_onto s a) = all_digits s && all_digits a.
Proof.
  revert a. induction s as [| c r IH]; intros a; simpl; [reflexivity |].
  rewrite IH. simpl. destruct (is_digit c), (all_digits r); reflexivity.
Qed.

Lemma str_rev_onto_dash_free s a :
  dash_free (str_rev_onto s a) = dash_free s && dash_free a.
Proof.
  revert a. induction s as [| c r IH]; intros a; simpl; [reflexivity |].
  rewrite IH. simpl.
  destruct (negb (bool_decide (c = "-"%char))), (dash_free r); reflexivity.
Qed.

Lemma lstrip_digits s : all_digits s = true -> int_lstrip s = s.
Proof.
  destruct s as [| c r]; simpl; [reflexivity |].
  intros [Hc _]%andb_true_iff. rewrite (digit_not_space c Hc). reflexivity.
Qed.

Lemma lstrip_dash_free s :
  dash_free s = true -> dash_free (int_lstrip s) = true.
Proof.
  induction s as [| c r IH]; simpl; [reflexivity |].
  intros Hs. destruct (is_int_space c); [| exact Hs].
  apply IH. apply andb_true_iff in Hs as [_ Hr]. exact Hr.
Qed.

Lemma strip_digits s : all_digits s = true -> int_strip s = s.
Proof.
  intros Hs. unfold int_strip. rewrite (lstrip_digits s Hs).
  rewrite lstrip_digits; [apply str_rev_involutive |].
  unfold str_rev. rewrite str_rev_onto_all_digits, Hs. reflexivity.
Qed.

Lemma strip_dash_free s :
  dash_free s = true -> dash_free (int_strip s) = true.
Proof.
  intros Hs. unfold int_strip, str_rev.
  rewrite str_rev_onto_dash_free, andb_true_r.
  apply lstrip_dash_free.
  rewrite str_rev_onto_dash_free, andb_true_r.
  apply lstrip_dash_free, Hs.
Qed.

(** [int] reads a non-empty digit string within the digit limit as the
    number it denotes. *)
Lemma py_int_digits s :
  all_digits s = true -> s <> "" ->
  Z.of_nat (String.length s) <= int_max_str_digits ->
  py_int s = Ok (dec_value 0 s).
Proof.
  intros Hs Hne Hlen. unfold py_int. rewrite (strip_digits s Hs).
  rewrite (digits_in_all_digits s Hs).
  apply Z.leb_le in Hlen. rewrite Hlen.
  destruct s as [| c r]; [congruence |].
  assert (Hc : is_digit c = true).
  { simpl in Hs. apply andb_true_iff in Hs as [Hc _]. exact Hc. }
  assert (Hbody : int_body 0 false (String c r)
                  = Some (dec_value 0 (String c r))).
  { apply int_body_digits; [exact Hs | left; discriminate]. }
  digit_cases c Hc; rewrite Hbody; reflexivity.
Qed.

(** A digit string beyond the digit limit is refused. *)
Lemma py_int_too_long s :
  all_digits s = true ->
  int_max_str_digits < Z.of_nat (String.length s) ->
  py_int s = Raise ValueError.
Proof.
  intros Hs Hlen. unfold py_int. rewrite (strip_digits s Hs).
  rewrite (digits_in_all_digits s Hs).
  apply Z.leb_gt in Hlen. rewrite Hlen.
  destruct (match s with
            | String "+" b => int_body 0 false b
            | String "-" b => Z.opp <$> int_body 0 false b
            | _ => int_body 0 false s
            end); reflexivity.
Qed.

(** [int] of a piece that holds no dash is never negative. *)
Lemma py_int_dash_free_nonneg s z :
  dash_free s = true -> py_int s = Ok z -> 0 <= z.
Proof.
  intros Hs. unfold py_int.
  pose proof (strip_dash_free s Hs) as Ht.
  destruct (int_strip s) as [| c r] eqn:Hstrip.
  - simpl. discriminate.
  - destruct (decide (c = "-"%char)) as [-> | Hdash];
      [simpl in Ht; discriminate |].
    assert (Hcases :
      match String c r with
      | String "+" b => int_body 0 false b
      | String "-" b => Z.opp <$> int_body 0 false b
      | _ => int_body 0 false (String c r)
      end = (if bool_decide (c = "+"%char) then int_body 0 false r
             else int_body 0 false (String c r))).
    { destruct c as [[] [] [] [] [] [] [] []]; try reflexivity. congruence. }
    rewrite Hcases.
    destruct (if bool_decide (c = "+"%char) then int_body 0 false r
              else int_body 0 false (String c r)) as [z' |] eqn:Hb;
      [| discriminate].
    destruct (digits_in (String c r) <=? int_max_str_digits);
      [| discriminate].
    intros [= <-]. case_bool_decide; eapply int_body_nonneg; eauto; lia.
Qed.

Lemma fmt_03d_digits z :
  0 <= z ->
  all_digits (fmt_03d z) = true /\ fmt_03d z <> ""
  /\ dec_value 0 (fmt_03d z) = z.
Proof.
  intros Hz. unfold fmt_03d.
  assert (Hshape : forall n k,
            let s := zeros k +:+ N_to_string n in
            all_digits s = true /\ s <> "" /\ dec_value 0 s = Z.of_N n).
  { intros n k s. subst s. split; [| split].
    - rewrite all_digits_app, all_digits_zeros, N_to_string_all_digits.
      reflexivity.
    - pose proof (N_to_string_nonempty n) as Hne.
      destruct k; simpl; [exact Hne | discriminate].
    - rewrite dec_value_app, dec_value_zeros. apply N_to_string_value. }
  destruct z as [| p | p]; [| | lia].
  - apply (Hshape 0%N).
  - specialize (Hshape (N.pos p)). simpl Z.to_N.
    destruct (Hshape (3 - String.length (N_to_string (N.pos p)))%nat)
      as (H1 & H2 & H3).
    repeat split; [exact H1 | exact H2 |]. rewrite H3. reflexivity.
Qed.

Lemma fmt_03d_length z :
  0 <= z ->
  Z.of_nat (String.length (fmt_03d z)) = Z.max 3 (decimal_digits z).
Proof.
  intros Hz. unfold decimal_digits.
  assert (Hshape : forall n,
            Z.of_nat (String.length
                        (zeros (3 - String.length (N_to_string n))
                         +:+ N_to_string n))
            = Z.max 3 (Z.of_nat (String.length (N_to_string n)))).
  { intros n. rewrite str_app_length, zeros_length. lia. }
  destruct z as [| p | p]; [| | lia].
  - apply (Hshape 0%N).
  - apply (Hshape (N.pos p)).
Qed.

Lemma py_fmt_03d_Ok z digits :
  py_fmt_03d z = Ok digits ->
  digits = fmt_03d z /\ decimal_digits z <= int_max_str_digits.
Proof.
  unfold py_fmt_03d.
  destruct (decimal_digits z <=? int_max_str_digits) eqn:Hlen;
    [| discriminate].
  intros [= <-]. split; [reflexivity | apply Z.leb_le, Hlen].
Qed.

Lemma py_fmt_03d_fits z :
  decimal_digits z <= int_max_str_digits -> py_fmt_03d z = Ok (fmt_03d z).
Proof.
  intros Hlen. unfold py_fmt_03d. apply Z.leb_le in Hlen. rewrite Hlen.
  reflexivity.
Qed.

Lemma py_int_fmt_03d z :
  0 <= z -> decimal_digits z <= int_max_str_digits ->
  py_int (fmt_03d z) = Ok z.
Proof.
  intros Hz Hlen. destruct (fmt_03d_digits z Hz) as (Hd & Hne & Hv).
  rewrite py_int_digits; [rewrite Hv; reflexivity | assumption | assumption |].
  rewrite (fmt_03d_length z Hz). unfold int_max_str_digits in *. lia.
Qed.

(** *** Splitting an identifier *)

Lemma split_dash_dash_free s : dash_free s = true -> split_dash s = [s].
Proof.
  induction s as [| c r IH]; simpl; [reflexivity |].
  intros [Hc Hr]%andb_true_iff. apply negb_true_iff in Hc.
  rewrite Hc, (IH Hr). reflexivity.
Qed.

Lemma split_dash_pieces s piece :
  piece ∈ split_dash s -> dash_free piece = true.
Proof.
  revert piece. induction s as [| c r IH]; intros piece; simpl.
  - intros ->%list_elem_of_singleton. reflexivity.
  - case_bool_decide as Hc.
    + intros [-> | Hin]%elem_of_cons; [reflexivity | apply IH, Hin].
    + destruct (split_dash r) as [| h t] eqn:Hsplit.
      * intros ->%list_elem_of_singleton. simpl.
        rewrite bool_decide_eq_false_2 by exact Hc. reflexivity.
      * intros [-> | Hin]%elem_of_cons.
        -- simpl. rewrite bool_decide_eq_false_2 by exact Hc. simpl.
           apply IH. left.
        -- apply IH. right. exact Hin.
Qed.

(** The number of an identifier in the store is never negative. *)
Lemma finding_number_nonneg fid n : finding_number fid = Ok n -> 0 <= n.
Proof.
  destruct fid as [s |]; simpl; [| discriminate].
  destruct (split_dash s !! 1%nat) as [piece |] eqn:Hp; [| discriminate].
  apply py_int_dash_free_nonneg.
  eapply split_dash_pieces, list_elem_of_lookup_2, Hp.
Qed.

(** An identifier the allocator writes reads back as its number. *)
Lemma finding_number_label n :
  0 <= n -> decimal_digits n <= int_max_str_digits ->
  finding_number (Some (finding_label n)) = Ok n.
Proof.
  intros Hn Hlen. destruct (fmt_03d_digits n Hn) as (Hd & _ & _).
  unfold finding_number, finding_label.
  change (split_dash ("F-" +:+ fmt_03d n))
    with ("F" :: split_dash (fmt_03d n)).
  rewrite (split_dash_dash_free _ (all_digits_dash_free _ Hd)). simpl.
  apply py_int_fmt_03d; assumption.
Qed.

(** ** The identifier allocator *)

Lemma scan_rows_fold header next_id rows nums :
  row_numbers header rows = Ok nums ->
  scan_rows header next_id rows = Ok (fold_left bump nums next_id).
Proof.
  revert next_id nums. induction rows as [| cells rest IH]; intros next_id nums.
  - intros [= <-]. reflexivity.
  - destruct cells as [| c cs]; [apply IH |].
    intros Hr. simpl in Hr. bind_inv Hr. injection Hr as <-.
    change (scan_rows header next_id ((c :: cs) :: rest))
      with (num ← finding_number (row_finding_id header (c :: cs));
            scan_rows header (Z.max next_id (num + 1)) rest).
    rewrite E. simpl. apply IH. assumption.
Qed.

Lemma row_numbers_nonneg header rows nums n :
  row_numbers header rows = Ok nums -> n ∈ nums -> 0 <= n.
Proof.
  revert nums. induction rows as [| cells rest IH]; intros nums.
  - intros [= <-] Hn. inversion Hn.
  - destruct cells as [| c cs]; [apply IH |].
    intros Hr. simpl in Hr. bind_inv Hr. injection Hr as <-.
    intros [-> | Hn]%elem_of_cons.
    + eapply finding_number_nonneg; eassumption.
    + eapply IH; eassumption.
Qed.

Lemma fold_bump_max nums next_id M :
  (forall n, n ∈ nums -> n <= M) -> next_id <= M + 1 ->
  (M ∈ nums \/ next_id = M + 1) ->
  fold_left bump nums next_id = M + 1.
Proof.
  revert next_id. induction nums as [| n nums IH]; intros next_id Hle Hnext Hmax.
  - destruct Hmax as [Hin | ->]; [inversion Hin | reflexivity].
  - simpl. assert (Hn : n <= M) by (apply Hle; left).
    apply IH.
    + intros k Hk. apply Hle. right. exact Hk.
    + unfold bump. lia.
    + destruct Hmax as [[-> | Hin]%elem_of_cons | ->].
      * right. unfold bump. lia.
      * left. exact Hin.
      * right. unfold bump. lia.
Qed.

Lemma assign_finding_ids_cons next_id f rest records :
  assign_finding_ids next_id (f :: rest) = Ok records ->
  decimal_digits next_id <= int_max_str_digits
  /\ exists tail,
       assign_finding_ids (next_id + 1) rest = Ok tail
       /\ records = mk_record f (finding_label next_id) :: tail.
Proof.
  intros Hrun.
  change (assign_finding_ids next_id (f :: rest))
    with (digits ← py_fmt_03d next_id;
          records ← assign_finding_ids (next_id + 1) rest;
          Ok (mk_record f ("F-" +:+ digits) :: records)) in Hrun.
  destruct (py_fmt_03d next_id) as [digits | e] eqn:Hfmt; [| discriminate].
  apply py_fmt_03d_Ok in Hfmt as [-> Hlen].
  destruct (assign_finding_ids (next_id + 1) rest) as [tail | e] eqn:Hrest;
    [| discriminate].
  injection Hrun as <-. split; [exact Hlen |].
  exists tail. split; reflexivity.
Qed.

Lemma assign_finding_ids_lookup next_id findings records i :
  assign_finding_ids next_id findings = Ok records ->
  records !! i
  = (fun f => mk_record f (finding_label (next_id + Z.of_nat i)))
      <$> findings !! i.
Proof.
  revert next_id records i.
  induction findings as [| f rest IH]; intros next_id records i Hrun.
  - injection Hrun as <-. reflexivity.
  - apply assign_finding_ids_cons in Hrun as (_ & tail & Hrest & ->).
    destruct i as [| i].
    + simpl. rewrite Z.add_0_r. reflexivity.
    + change ((mk_record f (finding_label next_id) :: tail) !! S i)
        with (tail !! i).
      change ((f :: rest) !! S i) with (rest !! i).
      rewrite (IH _ _ i Hrest).
      replace (next_id + 1 + Z.of_nat i) with (next_id + Z.of_nat (S i))
        by lia.
      reflexivity.
Qed.

Lemma assign_finding_ids_findings next_id findings records :
  assign_finding_ids next_id findings = Ok records ->
  r_clustered <$> records = findings.
Proof.
  revert next_id records.
  induction findings as [| f rest IH]; intros next_id records Hrun.
  - injection Hrun as <-. reflexivity.
  - apply assign_finding_ids_cons in Hrun as (_ & tail & Hrest & ->).
    rewrite fmap_cons, (IH _ _ Hrest). reflexivity.
Qed.

(** A numbering that completes has rendered every number: each one is
    within the digit limit. *)
Lemma assign_finding_ids_fits next_id findings records i :
  assign_finding_ids next_id findings = Ok records ->
  (i < length findings)%nat ->
  decimal_digits (next_id + Z.of_nat i) <= int_max_str_digits.
Proof.
  revert next_id records i.
  induction findings as [| f rest IH]; intros next_id records i Hrun Hi.
  - simpl in Hi. lia.
  - apply assign_finding_ids_cons in Hrun as (Hlen & tail & Hrest & ->).
    destruct i as [| i].
    + rewrite Z.add_0_r. exact Hlen.
    + replace (next_id + Z.of_nat (S i)) with (next_id + 1 + Z.of_nat i)
        by lia.
      apply (IH _ _ i Hrest). simpl in Hi. lia.
Qed.

(** Numbers within the digit limit are all rendered. *)
Lemma assign_finding_ids_Ok next_id findings :
  (forall i, (i < length findings)%nat ->
             decimal_digits (next_id + Z.of_nat i) <= int_max_str_digits) ->
  exists records, assign_finding_ids next_id findings = Ok records.
Proof.
  revert next_id. induction findings as [| f rest IH]; intros next_id Hfit.
  - exists []. reflexivity.
  - destruct (IH (next_id + 1)) as [tail Htail].
    { intros i Hi.
      replace (next_id + 1 + Z.of_nat i) with (next_id + Z.of_nat (S i))
        by lia.
      apply Hfit. simpl. lia. }
    exists (mk_record f (finding_label next_id) :: tail).
    change (assign_finding_ids next_id (f :: rest))
      with (digits ← py_fmt_03d next_id;
            records ← assign_finding_ids (next_id + 1) rest;
            Ok (mk_record f ("F-" +:+ digits) :: records)).
    rewrite py_fmt_03d_fits, Htail; [reflexivity |].
    specialize (Hfit 0%nat). rewrite Z.add_0_r in Hfit. apply Hfit.
    simpl. lia.
Qed.

(** The allocator on its own: the scan of a table whose identifiers have
    maximum number [M] ends at [M + 1]; a numbering from there that
    completes keeps the findings, and the record at position [i] gets
    the identifier of number [M + 1 + i]. *)
Lemma allocator_continues_after_maximum
    (header : list string) (rows : list (list string)) (nums : list Z)
    (M : Z) (findings : list clustered) (records : list record) :
  row_numbers header rows = Ok nums ->
  M ∈ nums ->
  (forall n, n ∈ nums -> n <= M) ->
  assign_finding_ids (M + 1) findings = Ok records ->
  next_id_of_table (header :: rows) = Ok (M + 1)
  /\ r_clustered <$> records = findings
  /\ (forall i r,
        records !! i = Some r ->
        finding_id r = finding_label (M + 1 + Z.of_nat i)
        /\ finding_number (Some (finding_id r)) = Ok (M + 1 + Z.of_nat i)
        /\ (forall n, n ∈ nums -> n < M + 1 + Z.of_nat i)
        /\ (forall j r',
              (j < i)%nat ->
              records !! j = Some r' ->
              finding_number (Some (finding_id r')) = Ok (M + 1 + Z.of_nat j)
              /\ M + 1 + Z.of_nat j < M + 1 + Z.of_nat i)).
Proof.
  intros Hrows HM Hmax Hrun.
  assert (HM0 : 0 <= M) by (eapply row_numbers_nonneg; eassumption).
  assert (Hid : forall i r,
            records !! i = Some r ->
            finding_id r = finding_label (M + 1 + Z.of_nat i)
            /\ finding_number (Some (finding_id r)) = Ok (M + 1 + Z.of_nat i)).
  { intros i r Hi. rewrite (assign_finding_ids_lookup _ _ _ i Hrun) in Hi.
    destruct (findings !! i) as [f |] eqn:Hf; [| discriminate].
    injection Hi as <-. simpl. split; [reflexivity |].
    apply finding_number_label; [lia |].
    apply (assign_finding_ids_fits _ _ _ i Hrun).
    apply lookup_lt_is_Some. eauto. }
  split; [| split].
  - simpl. rewrite (scan_rows_fold header 1 rows nums Hrows).
    f_equal. apply fold_bump_max; [exact Hmax | lia | left; exact HM].
  - apply (assign_finding_ids_findings _ _ _ Hrun).
  - intros i r Hi. destruct (Hid i r Hi) as (H1 & H2).
    split; [exact H1 |]. split; [exact H2 |]. split.
    + intros n Hn. specialize (Hmax n Hn). lia.
    + intros j r' Hji Hj. split; [apply (Hid j r' Hj) | lia].
Qed.


(** ** Commands *)

Lemma bind_run {A B} (m : io A) (k : A -> io B) w :
  (m ≫= k) w
  = match m w with
    | (Ok a, w') => k a w'
    | (Raise e, w') => (Raise e, w')
    end.
Proof. reflexivity. Qed.

Lemma quiet_bind {A B} (m : io A) (k : A -> io B) :
  quiet m -> (forall a, quiet (k a)) -> quiet (m ≫= k).
Proof.
  intros Hm Hk w. rewrite bind_run. destruct (Hm w) as (Hf & Hs & Hr & Hw).
  destruct (m w) as [[a | e] w']; simpl in *.
  - destruct (Hk a w') as (Hf' & Hs' & Hr' & Hw').
    repeat split; congruence.
  - repeat split; assumption.
Qed.

Lemma unwritten_bind {A B} (m : io A) (k : A -> io B) :
  quiet m -> (forall a, unwritten (k a)) -> unwritten (m ≫= k).
Proof.
  intros Hm Hk w. rewrite bind_run. destruct (Hm w) as (_ & Hs & _).
  destruct (m w) as [[a | e] w']; simpl in *.
  - intros Hfail. rewrite (Hk a w' Hfail). exact Hs.
  - intros _. exact Hs.
Qed.

Lemma unwritten_total {A} (m : io A) :
  (forall w, is_ok (m w).1 = true) -> unwritten m.
Proof. intros Hm w Hfail. rewrite Hm in Hfail. discriminate. Qed.

Lemma fails_bind_l {A B} (m : io A) (k : A -> io B) w :
  fails m w -> fails (m ≫= k) w.
Proof.
  unfold fails. rewrite bind_run. intros (e & He & Hpy).
  destruct (m w) as [[a | e'] w']; simpl in *; [discriminate |].
  injection He as ->. exists e. split; [reflexivity | exact Hpy].
Qed.

Lemma fails_bind_r {A B} (m : io A) (k : A -> io B) w :
  modelled_io m ->
  (forall a w', m w = (Ok a, w') -> fails (k a) w') -> fails (m ≫= k) w.
Proof.
  unfold fails. rewrite bind_run. intros Hm Hk. specialize (Hm w).
  destruct (m w) as [[a | e] w']; simpl in *; [apply Hk; reflexivity |].
  exists e. split; [reflexivity | congruence].
Qed.

Lemma not_fails_Ok {A} (m : io A) w a w' : m w = (Ok a, w') -> ~ fails m w.
Proof. intros Hrun (e & He & _). rewrite Hrun in He. discriminate. Qed.

Lemma modelled_io_bind {A B} (m : io A) (k : A -> io B) :
  modelled_io m -> (forall a, modelled_io (k a)) -> modelled_io (m ≫= k).
Proof.
  intros Hm Hk w. rewrite bind_run. specialize (Hm w).
  destruct (m w) as [[a | e] w']; simpl in *; [apply Hk |].
  unfold modelled in *. congruence.
Qed.

Lemma modelled_io_lift {A} (r : res A) : modelled r -> modelled_io (lift r).
Proof. intros Hr w. exact Hr. Qed.

Lemma modelled_io_given_and_exists path : modelled_io (given_and_exists path).
Proof.
  intros w. unfold given_and_exists. destruct path as [p |]; [| discriminate].
  case_bool_decide; [discriminate |]. destruct (files w !! p); discriminate.
Qed.

Lemma modelled_io_load_json path : modelled_io (load_json path).
Proof.
  intros w. unfold load_json. destruct (files w !! path) as [[v |] |];
    discriminate.
Qed.

Lemma modelled_io_print line : modelled_io (print line).
Proof. intros w. discriminate. Qed.

Lemma modelled_io_ret {A} (a : A) : modelled_io (mret a : io A).
Proof. intros w. discriminate. Qed.

Lemma quiet_ret {A} (a : A) : quiet (mret a : io A).
Proof. intros w. repeat split. Qed.

Lemma quiet_lift {A} (r : res A) : quiet (lift r).
Proof. intros w. repeat split. Qed.

Lemma quiet_print line : quiet (print line).
Proof. intros w. repeat split. Qed.

Lemma quiet_given_and_exists path : quiet (given_and_exists path).
Proof.
  intros w. unfold given_and_exists. destruct path as [p |]; [| repeat split].
  case_bool_decide; [repeat split |].
  destruct (files w !! p); repeat split.
Qed.

Lemma quiet_load_json path : quiet (load_json path).
Proof.
  intros w. unfold load_json. destruct (files w !! path) as [[v |] |];
    repeat split.
Qed.

Lemma quiet_output_exists : quiet output_exists.
Proof. intros w. repeat split. Qed.

Lemma quiet_read_output : quiet read_output.
Proof.
  intros w. unfold read_output.
  destruct (readable w) eqn:Hr; repeat split; exact Hr.
Qed.

Lemma print_total line w : is_ok (print line w).1 = true.
Proof. reflexivity. Qed.

Create HintDb quiet.
#[local] Hint Resolve quiet_ret quiet_lift quiet_print quiet_given_and_exists
  quiet_load_json quiet_output_exists quiet_read_output : quiet.

(** Proves that a chain of binds of quiet commands is quiet. *)
Ltac quiet_chain :=
  repeat first
    [ apply quiet_bind; [| intros ?]
    | solve [auto with quiet]
    | match goal with
      | |- quiet (match ?x with _ => _ end) => destruct x
      end ].

Section Invocation.
Context `{Runtime}.

Lemma quiet_parse_block path adapter label suffix :
  quiet (parse_block path adapter label suffix).
Proof. unfold parse_block. quiet_chain. Qed.

Lemma quiet_parse_optional path adapter label :
  quiet (parse_optional path adapter label).
Proof.
  unfold parse_optional. quiet_chain.
Qed.

Lemma quiet_parse_semgrep a : quiet (parse_semgrep a).
Proof.
  unfold parse_semgrep. quiet_chain.
Qed.

(** Whatever makes an invocation raise, it has not written to the
    store by then. *)
Lemma main_unwritten a : unwritten (main a).
Proof.
  unfold main.
  apply unwritten_bind; [apply quiet_parse_optional | intros codeql].
  apply unwritten_bind; [apply quiet_parse_semgrep | intros semgrep].
  apply unwritten_bind; [apply quiet_parse_optional | intros gitleaks].
  apply unwritten_bind; [apply quiet_parse_optional | intros depcheck].
  cbv zeta.
  apply unwritten_bind; [quiet_chain | intros _].
  apply unwritten_bind; [quiet_chain | intros enriched].
  apply unwritten_bind; [quiet_chain | intros present].
  apply unwritten_bind; [destruct present; quiet_chain | intros next_id].
  apply unwritten_bind; [quiet_chain | intros records].
  apply unwritten_bind; [quiet_chain | intros file_exists].
  intros w. rewrite bind_run. unfold append_output.
  destruct (writable w); [| reflexivity].
  intros Hfail. discriminate Hfail.
Qed.

End Invocation.

(** ** Exceptions of the adapters

    An adapter raises Python exceptions only: the marker
    [OutsideDataModel] arises in the metadata loop alone. *)

Lemma modelled_bind {A B} (m : res A) (k : A -> res B) :
  modelled m -> (forall a, modelled (k a)) -> modelled (x ← m; k x).
Proof. apply bind_not_raise. Qed.

Lemma modelled_traverse {A B} (f : A -> res B) xs :
  (forall x, modelled (f x)) -> modelled (traverse f xs).
Proof.
  intros Hf. induction xs as [| x xs IH]; [discriminate |].
  simpl. apply modelled_bind; [apply Hf | intros y].
  apply modelled_bind; [exact IH | intros ys]. discriminate.
Qed.

Lemma modelled_py_get v k dflt : modelled (py_get v k dflt).
Proof. destruct v; discriminate. Qed.

Lemma modelled_py_getitem v k : modelled (py_getitem v k).
Proof. destruct v; simpl; try discriminate. destruct (assoc k d); discriminate. Qed.

Lemma modelled_py_index0 v : modelled (py_index0 v).
Proof.
  destruct v as [| | | | s | l | d]; simpl; try discriminate.
  - destruct s; discriminate.
  - destruct l; discriminate.
Qed.

Lemma modelled_py_iter v : modelled (py_iter v).
Proof. destruct v; discriminate. Qed.

Lemma modelled_py_slice_to n v : modelled (py_slice_to n v).
Proof. destruct v; discriminate. Qed.

Lemma modelled_py_ge a b : modelled (py_ge a b).
Proof. unfold py_ge. destruct (as_number a), (as_number b); discriminate. Qed.

Lemma modelled_severity_get table level dflt :
  modelled (severity_get table level dflt).
Proof. destruct level; discriminate. Qed.

Lemma modelled_rules_get rules rule_id : modelled (rules_get rules rule_id).
Proof. unfold rules_get. destruct (hashable rule_id); discriminate. Qed.

Lemma modelled_Ok {A} (a : A) : modelled (Ok a).
Proof. discriminate. Qed.

Lemma modelled_Raise {A} e : e <> OutsideDataModel -> modelled (@Raise A e).
Proof. intros He. unfold modelled. congruence. Qed.

Create HintDb modelled.
#[local] Hint Resolve modelled_py_get modelled_py_getitem modelled_py_index0
  modelled_py_iter modelled_py_slice_to modelled_py_ge modelled_severity_get
  modelled_rules_get modelled_Ok : modelled.

(** Proves that a chain of binds over the operations above stays inside
    the data model. *)
Ltac modelled_chain :=
  repeat first
    [ solve [auto with modelled]
    | apply modelled_bind; [| intros ?]
    | apply modelled_traverse; intros ?
    | apply modelled_Raise; discriminate
    | match goal with
      | |- modelled (if ?c then _ else _) => destruct c
      | |- modelled (match ?x with _ => _ end) => destruct x
      end ].

Lemma modelled_build_rules rules rs : modelled (build_rules rules rs).
Proof.
  revert rules. induction rs as [| rule rest IH]; intros rules; simpl;
    [discriminate |].
  apply modelled_bind; [apply modelled_py_getitem | intros id].
  destruct (hashable id); [apply IH | discriminate].
Qed.

Lemma modelled_normalize_cvss_severity score :
  modelled (normalize_cvss_severity score).
Proof. unfold normalize_cvss_severity. modelled_chain. Qed.

Lemma modelled_first_location result : modelled (first_location result).
Proof. unfold first_location. modelled_chain. Qed.

Lemma modelled_message_text result : modelled (message_text result).
Proof. unfold message_text. modelled_chain. Qed.

Lemma modelled_rule_tags rule_def : modelled (rule_tags rule_def).
Proof. unfold rule_tags. modelled_chain. Qed.

Lemma modelled_run_rules run : modelled (run_rules run).
Proof.
  unfold run_rules. modelled_chain. apply modelled_build_rules.
Qed.

Lemma modelled_for_each {B} container key (body : value -> res (list B)) :
  (forall x, modelled (body x)) -> modelled (for_each container key body).
Proof. intros Hb. unfold for_each. modelled_chain. Qed.

#[local] Hint Resolve modelled_build_rules modelled_normalize_cvss_severity
  modelled_first_location modelled_message_text modelled_rule_tags
  modelled_run_rules : modelled.

Section AdapterExceptions.
Context `{Runtime}.

Lemma modelled_extract_cwe_from_tags tags : modelled (extract_cwe_from_tags tags).
Proof. unfold extract_cwe_from_tags. modelled_chain. Qed.

Lemma modelled_extract_cwe_from_text text : modelled (extract_cwe_from_text text).
Proof. destruct text; discriminate. Qed.

Hint Resolve modelled_extract_cwe_from_tags modelled_extract_cwe_from_text
  : modelled.

Lemma modelled_parse_codeql_sarif doc : modelled (parse_codeql_sarif doc).
Proof.
  unfold parse_codeql_sarif. apply modelled_for_each. intros run.
  unfold codeql_run. apply modelled_bind; [auto with modelled | intros rules].
  apply modelled_for_each. intros result.
  apply modelled_bind; [| discriminate].
  unfold codeql_result. modelled_chain.
Qed.

Lemma modelled_parse_semgrep_json doc : modelled (parse_semgrep_json doc).
Proof.
  unfold parse_semgrep_json. apply modelled_for_each. intros result.
  apply modelled_bind; [| discriminate].
  unfold semgrep_json_result. modelled_chain.
Qed.

Lemma modelled_parse_semgrep_sarif doc : modelled (parse_semgrep_sarif doc).
Proof.
  unfold parse_semgrep_sarif. apply modelled_for_each. intros run.
  unfold semgrep_sarif_run.
  apply modelled_bind; [auto with modelled | intros rules].
  apply modelled_for_each. intros result.
  apply modelled_bind; [| discriminate].
  unfold semgrep_sarif_result. modelled_chain.
Qed.

Lemma modelled_parse_gitleaks_sarif doc : modelled (parse_gitleaks_sarif doc).
Proof.
  unfold parse_gitleaks_sarif. apply modelled_for_each. intros run.
  unfold gitleaks_run. apply modelled_for_each. intros result.
  apply modelled_bind; [| discriminate].
  unfold gitleaks_result. modelled_chain.
Qed.

Lemma modelled_parse_depcheck_json doc : modelled (parse_depcheck_json doc).
Proof.
  unfold parse_depcheck_json. apply modelled_for_each. intros dep.
  unfold depcheck_dep. apply modelled_for_each. intros vuln.
  apply modelled_bind; [| discriminate].
  unfold depcheck_vuln, depcheck_score, depcheck_cwe. modelled_chain.
Qed.

End AdapterExceptions.

(** ** Malformed reports *)

Section Reports.
Context `{Runtime}.

Lemma effective_files path w w' :
  files w' = files w -> effective path w' = effective path w.
Proof. intros Hf. unfold effective. rewrite Hf. reflexivity. Qed.

Lemma given_and_exists_run path w :
  given_and_exists path w
  = (Ok (match effective path w with
         | Some _ => path
         | None => None
         end), w).
Proof.
  unfold given_and_exists, effective. destruct path as [p |]; [| reflexivity].
  case_bool_decide; [reflexivity |]. destruct (files w !! p); reflexivity.
Qed.

Lemma modelled_io_parse_block p adapter label suffix :
  (forall doc, modelled (adapter doc)) ->
  modelled_io (parse_block p adapter label suffix).
Proof.
  intros Had. unfold parse_block.
  apply modelled_io_bind; [apply modelled_io_load_json | intros doc].
  apply modelled_io_bind; [apply modelled_io_lift, Had | intros found].
  apply modelled_io_bind; [apply modelled_io_print | intros _].
  apply modelled_io_ret.
Qed.

Lemma modelled_io_parse_optional path adapter label :
  (forall doc, modelled (adapter doc)) ->
  modelled_io (parse_optional path adapter label).
Proof.
  intros Had. unfold parse_optional.
  apply modelled_io_bind; [apply modelled_io_given_and_exists | intros [p |]].
  - apply modelled_io_parse_block, Had.
  - apply modelled_io_ret.
Qed.

Lemma modelled_io_parse_semgrep a : modelled_io (parse_semgrep a).
Proof.
  unfold parse_semgrep.
  apply modelled_io_bind; [apply modelled_io_given_and_exists | intros [p |]].
  - apply modelled_io_parse_block, modelled_parse_semgrep_json.
  - apply modelled_io_bind; [apply modelled_io_given_and_exists | intros [p |]].
    + apply modelled_io_parse_block, modelled_parse_semgrep_sarif.
    + apply modelled_io_ret.
Qed.

Lemma parse_block_fails p adapter label suffix w file :
  (forall doc, modelled (adapter doc)) ->
  files w !! p = Some file -> invalid_for adapter file ->
  fails (parse_block p adapter label suffix) w.
Proof.
  intros Had Hp Hbad. unfold fails, parse_block. rewrite bind_run.
  unfold load_json. rewrite Hp. destruct file as [doc |].
  - rewrite bind_run. unfold lift. simpl in Hbad. specialize (Had doc).
    destruct (adapter doc) as [found | e]; [discriminate |].
    exists e. split; [reflexivity |]. unfold modelled in Had. congruence.
  - exists JSONDecodeError. split; [reflexivity | discriminate].
Qed.

Lemma effective_Some path w file :
  effective path w = Some file ->
  exists p, path = Some p /\ files w !! p = Some file.
Proof.
  unfold effective. destruct path as [p |]; [| discriminate].
  case_bool_decide; [discriminate |]. eauto.
Qed.

Lemma parse_optional_fails path adapter label w :
  (forall doc, modelled (adapter doc)) ->
  invalid_at adapter path w -> fails (parse_optional path adapter label) w.
Proof.
  intros Had (file & Heff & Hbad). unfold parse_optional.
  apply fails_bind_r; [apply modelled_io_given_and_exists |].
  intros p w'. rewrite given_and_exists_run, Heff.
  intros [= <- <-]. apply effective_Some in Heff as (p & -> & Hp).
  eapply parse_block_fails; eassumption.
Qed.

Lemma parse_semgrep_fails a w :
  invalid_at parse_semgrep_json (a_semgrep_json a) w
  \/ (effective (a_semgrep_json a) w = None
      /\ invalid_at parse_semgrep_sarif (a_semgrep_sarif a) w) ->
  fails (parse_semgrep a) w.
Proof.
  intros Hbad. unfold parse_semgrep.
  apply fails_bind_r; [apply modelled_io_given_and_exists |].
  intros pj w'. rewrite given_and_exists_run.
  intros [= <- <-].
  destruct Hbad as [(file & Heff & Hbad) | (Hnone & file & Heff & Hbad)].
  - rewrite Heff. apply effective_Some in Heff as (p & -> & Hp).
    eapply parse_block_fails;
      [apply modelled_parse_semgrep_json | eassumption..].
  - rewrite Hnone.
    apply fails_bind_r; [apply modelled_io_given_and_exists |].
    intros ps w'. rewrite given_and_exists_run, Heff.
    intros [= <- <-]. apply effective_Some in Heff as (p & -> & Hp).
    eapply parse_block_fails;
      [apply modelled_parse_semgrep_sarif | eassumption..].
Qed.

Lemma invalid_at_files adapter path w w' :
  files w' = files w -> invalid_at adapter path w ->
  invalid_at adapter path w'.
Proof.
  intros Hf (file & Heff & Hbad). exists file.
  rewrite (effective_files _ _ _ Hf). split; assumption.
Qed.

(** The world after a quiet command that returned has the files of the
    world before. *)
Lemma quiet_run_files {A} (m : io A) w a w' :
  quiet m -> m w = (Ok a, w') -> files w' = files w.
Proof.
  intros Hq Hrun. destruct (Hq w) as (Hf & _). rewrite Hrun in Hf. exact Hf.
Qed.

Lemma main_fails_on_invalid_read a w :
  some_read_report_invalid a w -> fails (main a) w.
Proof.
  intros Hbad. unfold main.
  apply fails_bind_r;
    [apply modelled_io_parse_optional, modelled_parse_codeql_sarif |].
  intros codeql w1 R1.
  pose proof (quiet_run_files _ _ _ _ (quiet_parse_optional _ _ _) R1) as F1.
  destruct Hbad as [Hbad | Hbad].
  { exfalso. apply (not_fails_Ok _ _ _ _ R1).
    apply parse_optional_fails; [apply modelled_parse_codeql_sarif | exact Hbad]. }
  apply fails_bind_r; [apply modelled_io_parse_semgrep |].
  intros semgrep w2 R2.
  pose proof (quiet_run_files _ _ _ _ (quiet_parse_semgrep _) R2) as F2.
  rewrite F1 in F2.
  assert (Hsem : ~ (invalid_at parse_semgrep_json (a_semgrep_json a) w
                    \/ (effective (a_semgrep_json a) w = None
                        /\ invalid_at parse_semgrep_sarif (a_semgrep_sarif a) w))).
  { intros Hs. apply (not_fails_Ok _ _ _ _ R2).
    apply parse_semgrep_fails.
    destruct Hs as [Hs | (Hn & Hs)]; [left | right; split].
    - eapply invalid_at_files; eassumption.
    - rewrite (effective_files _ _ _ F1). exact Hn.
    - eapply invalid_at_files; eassumption. }
  destruct Hbad as [Hbad | [Hbad | Hbad]]; [tauto | tauto |].
  apply fails_bind_r;
    [apply modelled_io_parse_optional, modelled_parse_gitleaks_sarif |].
  intros gitleaks w3 R3.
  pose proof (quiet_run_files _ _ _ _ (quiet_parse_optional _ _ _) R3) as F3.
  rewrite F2 in F3.
  destruct Hbad as [Hbad | Hbad].
  { exfalso. apply (not_fails_Ok _ _ _ _ R3).
    apply parse_optional_fails; [apply modelled_parse_gitleaks_sarif |].
    eapply invalid_at_files; eassumption. }
  apply fails_bind_l.
  apply parse_optional_fails; [apply modelled_parse_depcheck_json |].
  eapply invalid_at_files; eassumption.
Qed.

End Reports.

(** ** A completed invocation *)

Section Completed.
Context `{Runtime}.

Lemma report_drafts_files adapter path w w' :
  files w' = files w ->
  report_drafts adapter path w' = report_drafts adapter path w.
Proof.
  intros Hf. unfold report_drafts. rewrite (effective_files _ _ _ Hf).
  reflexivity.
Qed.

(** A block that returned has decoded its file and run its adapter. *)
Lemma parse_block_run p adapter label suffix w found w1 :
  parse_block p adapter label suffix w = (Ok found, w1) ->
  exists doc, files w !! p = Some (Some doc) /\ adapter doc = Ok found.
Proof.
  unfold parse_block. rewrite bind_run. unfold load_json.
  destruct (files w !! p) as [[doc |] |]; try discriminate.
  rewrite bind_run. unfold lift.
  destruct (adapter doc) as [found' | e] eqn:Had; [| discriminate].
  intros [= <- _]. exists doc. split; [reflexivity | exact Had].
Qed.

Lemma parse_optional_run path adapter label w found w1 :
  parse_optional path adapter label w = (Ok found, w1) ->
  report_drafts adapter path w = Ok found.
Proof.
  unfold parse_optional, report_drafts.
  rewrite bind_run, given_and_exists_run.
  destruct (effective path w) as [file |] eqn:Heff.
  - apply effective_Some in Heff as (p & -> & Hp).
    intros (doc & Hdoc & Hfound)%parse_block_run.
    rewrite Hp in Hdoc. injection Hdoc as ->. exact Hfound.
  - intros [= <- _]. reflexivity.
Qed.

Lemma parse_semgrep_run a w found w1 :
  parse_semgrep a w = (Ok found, w1) ->
  match effective (a_semgrep_json a) w with
  | Some _ => report_drafts parse_semgrep_json (a_semgrep_json a) w
  | None => report_drafts parse_semgrep_sarif (a_semgrep_sarif a) w
  end = Ok found.
Proof.
  unfold parse_semgrep, report_drafts.
  rewrite bind_run, given_and_exists_run.
  destruct (effective (a_semgrep_json a) w) as [file |] eqn:Hj.
  - apply effective_Some in Hj as (p & Hpath & Hp). rewrite Hpath.
    intros (doc & Hdoc & Hfound)%parse_block_run.
    rewrite Hp in Hdoc. injection Hdoc as ->. exact Hfound.
  - rewrite bind_run, given_and_exists_run.
    destruct (effective (a_semgrep_sarif a) w) as [file |] eqn:Hs.
    + apply effective_Some in Hs as (p & Hpath & Hp). rewrite Hpath.
      intros (doc & Hdoc & Hfound)%parse_block_run.
      rewrite Hp in Hdoc. injection Hdoc as ->. exact Hfound.
    + intros [= <- _]. reflexivity.
Qed.

(** Steps over the first command of a chain that returned, keeping what
    a quiet command preserves. *)
Ltac step_quiet Hrun Hq a w1 :=
  rewrite bind_run in Hrun;
  let R := fresh "R" in
  lazymatch type of Hrun with
  | match ?m ?w with _ => _ end = _ =>
      destruct (m w) as [[a | ?] w1] eqn:R; [| discriminate Hrun];
      let Q := fresh "Q" in
      assert (Q : quiet m) by Hq;
      let Qf := fresh "Qf" in
      let Qs := fresh "Qs" in
      let Qr := fresh "Qr" in
      let Qw := fresh "Qw" in
      destruct (Q w) as (Qf & Qs & Qr & Qw);
      rewrite R in Qf, Qs, Qr, Qw; simpl in Qf, Qs, Qr, Qw;
      clear Q
  end.

(** A completed invocation, with what it went through: the drafts of the
    reports it read, the findings made of them, the number the scan ended
    at, the records it numbered, and the store it left. The store could
    be read if it was there, and could be written. The report files are
    as they were. *)
Lemma main_run a w w' :
  main a w = (Ok (), w') ->
  exists (drafts : list draft) (enriched : list Finding) (next_id : Z)
         (records : list record),
    drafts_read a w = Ok drafts
    /\ traverse (enrich a) drafts = Ok enriched
    /\ match store w with
       | Some text => readable w = true /\ scan_output text = Ok next_id
       | None => next_id = 1
       end
    /\ assign_finding_ids next_id (deduplicate_and_assign_weaknesses enriched)
       = Ok records
    /\ writable w = true
    /\ store w' = Some (appended (store w) (cells_of <$> records))
    /\ files w' = files w.
Proof.
  intros Hrun. unfold main in Hrun.
  step_quiet Hrun ltac:(apply quiet_parse_optional) codeql w1.
  step_quiet Hrun ltac:(apply quiet_parse_semgrep) semgrep w2.
  step_quiet Hrun ltac:(apply quiet_parse_optional) gitleaks w3.
  step_quiet Hrun ltac:(apply quiet_parse_optional) depcheck w4.
  cbv zeta in Hrun.
  step_quiet Hrun ltac:(quiet_chain) u w5.
  step_quiet Hrun ltac:(quiet_chain) enriched w6.
  assert (Hstore : store w6 = store w) by congruence.
  assert (Hfiles : files w6 = files w) by congruence.
  assert (Hreadable : readable w6 = readable w) by congruence.
  assert (Hwritable : writable w6 = writable w) by congruence.
  assert (Hdrafts : drafts_read a w
                    = Ok (codeql ++ semgrep ++ gitleaks ++ depcheck)).
  { unfold drafts_read.
    rewrite (parse_optional_run _ _ _ _ _ _ R).
    apply parse_semgrep_run in R0.
    rewrite !(effective_files _ _ _ Qf),
      !(report_drafts_files _ _ _ _ Qf) in R0.
    rewrite R0.
    apply parse_optional_run in R1.
    rewrite (report_drafts_files _ _ w w2) in R1 by congruence.
    rewrite R1.
    apply parse_optional_run in R2.
    rewrite (report_drafts_files _ _ w w3) in R2 by congruence.
    rewrite R2. reflexivity. }
  exists (codeql ++ semgrep ++ gitleaks ++ depcheck), enriched.
  match goal with
  | E : lift (traverse _ _) _ = (Ok enriched, _) |- _ =>
      unfold lift in E; injection E as Henrich _
  end.
  unfold appended.
  rewrite bind_run in Hrun. unfold output_exists at 1 in Hrun.
  rewrite Hstore in Hrun.
  destruct (store w) as [text |] eqn:Hw.
  - rewrite bind_run in Hrun. rewrite bind_run in Hrun.
    unfold read_output at 1 in Hrun. rewrite Hreadable, Hstore in Hrun.
    destruct (readable w); [| discriminate Hrun].
    unfold lift at 1 in Hrun. simpl default in Hrun.
    destruct (scan_output text) as [next_id |] eqn:Hscan;
      [| discriminate Hrun].
    exists next_id.
    rewrite bind_run in Hrun. unfold lift at 1 in Hrun.
    destruct (assign_finding_ids next_id
                (deduplicate_and_assign_weaknesses enriched))
      as [records |] eqn:Hids; [| discriminate Hrun].
    exists records.
    rewrite bind_run in Hrun. unfold output_exists at 1 in Hrun.
    rewrite Hstore in Hrun. rewrite bind_run in Hrun.
    unfold append_output at 1 in Hrun. rewrite Hwritable, Hstore in Hrun.
    destruct (writable w); [| discriminate Hrun].
    injection Hrun as <-.
    repeat split; first [assumption | reflexivity].
  - exists 1.
    rewrite bind_run in Hrun. unfold mret at 1, io_ret at 1 in Hrun.
    rewrite bind_run in Hrun. unfold lift at 1 in Hrun.
    destruct (assign_finding_ids 1
                (deduplicate_and_assign_weaknesses enriched))
      as [records |] eqn:Hids; [| discriminate Hrun].
    exists records.
    rewrite bind_run in Hrun. unfold output_exists at 1 in Hrun.
    rewrite Hstore in Hrun. rewrite bind_run in Hrun.
    unfold append_output at 1 in Hrun. rewrite Hwritable, Hstore in Hrun.
    destruct (writable w); [| discriminate Hrun].
    injection Hrun as <-.
    repeat split; first [assumption | reflexivity].
Qed.

(** The findings of a completed invocation are those of its reports. *)
Lemma main_run_findings a w w' :
  main a w = (Ok (), w') ->
  exists (findings : list clustered) (next_id : Z) (records : list record),
    findings_of_run a w = Ok findings
    /\ match store w with
       | Some text => readable w = true /\ scan_output text = Ok next_id
       | None => next_id = 1
       end
    /\ assign_finding_ids next_id findings = Ok records
    /\ writable w = true
    /\ store w' = Some (appended (store w) (cells_of <$> records))
    /\ files w' = files w.
Proof.
  intros Hrun.
  destruct (main_run a w w' Hrun)
    as (ds & fs & n & rs & Hds & Hfs & Hn & Hrs & Hwr & Hstore & Hfiles).
  exists (deduplicate_and_assign_weaknesses fs), n, rs.
  split; [| auto 10].
  unfold findings_of_run. rewrite Hds. simpl. rewrite Hfs. reflexivity.
Qed.

End Completed.
(** C5, refuted as stated. Given an existing Semgrep JSON report and an
    existing Semgrep SARIF file that does not decode, the invocation
    reads the JSON report only, returns, and creates the store with its
    header: an invalid supplied report did not abort it. *)
Lemma invalid_fallback_report_is_not_read :
  (@main plain_runtime both_semgrep_args both_semgrep_world).1 = Ok ()
  /\ store both_semgrep_world = None
  /\ store (@main plain_runtime both_semgrep_args both_semgrep_world).2
     = Some (@csv_line plain_runtime fieldnames)
  /\ ~ @aborts_on_invalid_supplied plain_runtime both_semgrep_args
         both_semgrep_world.
Proof.
  split; [vm_compute; reflexivity |].
  split; [reflexivity |].
  split; [vm_compute; reflexivity |].
  intros Hclaim.
  assert (Hbad : @some_supplied_report_invalid plain_runtime
                   both_semgrep_args both_semgrep_world).
  { right. right. left. exists None. split; [vm_compute; reflexivity | exact I]. }
  destruct (Hclaim Hbad) as ((e & Hfails & _) & _).
  vm_compute in Hfails. discriminate.
Qed.

Section Abort.
Context `{Runtime}.

(** C5, amended. An invocation that raises, for whatever reason, leaves
    the store as it was: nothing appended, no file or header created. If
    any report that the invocation reads — the CodeQL, Semgrep JSON,
    Gitleaks and Dependency-Check reports whose path is supplied and
    exists, and the Semgrep SARIF report only when no existing Semgrep
    JSON report is supplied — is structurally invalid, the invocation
    raises; so the store changes only if every report read was parsed
    successfully. *)
Theorem invalid_read_report_aborts_before_write (a : args) (w : world) :
  (forall e, (main a w).1 = Raise e -> store (main a w).2 = store w)
  /\ (some_read_report_invalid a w ->
      fails (main a) w /\ store (main a w).2 = store w)
  /\ (store (main a w).2 <> store w ->
      ~ some_read_report_invalid a w /\ (main a w).1 = Ok ()).
Proof.
  assert (H1 : forall e, (main a w).1 = Raise e ->
                         store (main a w).2 = store w).
  { intros e He. apply main_unwritten. rewrite He. reflexivity. }
  assert (H2 : some_read_report_invalid a w -> fails (main a) w)
    by apply main_fails_on_invalid_read.
  split; [exact H1 |]. split.
  - intros Hbad. destruct (H2 Hbad) as (e & He & Hpy).
    split; [exists e; split; assumption | exact (H1 e He)].
  - intros Hchanged. split.
    + intros Hbad. destruct (H2 Hbad) as (e & He & _).
      exact (Hchanged (H1 e He)).
    + destruct (main a w).1 as [[] | e] eqn:Hres; [reflexivity |].
      exfalso. exact (Hchanged (H1 e eq_refl)).
Qed.

End Abort.

Lemma invalid_read_report_witness :
  (@main plain_runtime bad_gitleaks_args bad_gitleaks_world).1
  = Raise AttributeError
  /\ (fails (@main plain_runtime bad_gitleaks_args) bad_gitleaks_world
      /\ store (@main plain_runtime bad_gitleaks_args bad_gitleaks_world).2
         = store bad_gitleaks_world).
Proof.
  split; [vm_compute; reflexivity |].
  apply (proj1 (proj2 (@invalid_read_report_aborts_before_write plain_runtime
                         bad_gitleaks_args bad_gitleaks_world))).
  right. right. right. left.
  exists (Some (VList [])). split; [vm_compute; reflexivity | reflexivity].
Defined.

(** ** Identifier continuity of an invocation *)

Section Continuity.
Context `{Runtime}.

(** C3. Let the rows that the reader yields for the persisted store carry
    identifiers whose numbers have maximum [M]. Then the scan sets the
    next identifier to [M + 1]. Whatever the findings, however many, a
    numbering from [M + 1] that completes keeps them all, in order, and
    gives the record at position [i] the identifier F-(M+1+i), which
    reads back as the number [M + 1 + i], exceeds the number of every
    identifier already in the store and exceeds the number given to any
    earlier record; and the numbering does complete when these numbers
    are within the interpreter's digit limit. An invocation that
    completes on this store has numbered in this way the findings of the
    reports it read, after metadata, deduplication and clustering: it
    leaves the text of the store in place and adds after it one line per
    record, of first cell F-(M+1), F-(M+2), ... in output order. *)
Theorem new_ids_continue_after_maximum
    (a : args) (w w' : world) (text : string) (header : list string)
    (rows : list (list string)) (nums : list Z) (M : Z) :
  store w = Some text ->
  (csv_reader text).1 = header :: rows ->
  row_numbers header rows = Ok nums ->
  M ∈ nums ->
  (forall n, n ∈ nums -> n <= M) ->
  next_id_of_table (header :: rows) = Ok (M + 1)
  /\ (forall findings : list clustered,
        ((forall i, (i < length findings)%nat ->
             decimal_digits (M + 1 + Z.of_nat i) <= int_max_str_digits) ->
         exists records, assign_finding_ids (M + 1) findings = Ok records)
        /\ forall records,
             assign_finding_ids (M + 1) findings = Ok records ->
             r_clustered <$> records = findings
             /\ forall i r,
                  records !! i = Some r ->
                  finding_id r = finding_label (M + 1 + Z.of_nat i)
                  /\ finding_number (Some (finding_id r))
                     = Ok (M + 1 + Z.of_nat i)
                  /\ (forall n, n ∈ nums -> n < M + 1 + Z.of_nat i)
                  /\ (forall j r',
                        (j < i)%nat ->
                        records !! j = Some r' ->
                        finding_number (Some (finding_id r'))
                        = Ok (M + 1 + Z.of_nat j)
                        /\ M + 1 + Z.of_nat j < M + 1 + Z.of_nat i))
  /\ (main a w = (Ok (), w') ->
      exists (findings : list clustered) (records : list record),
        findings_of_run a w = Ok findings
        /\ assign_finding_ids (M + 1) findings = Ok records
        /\ r_clustered <$> records = findings
        /\ store w' = Some (text +:+ csv_text (cells_of <$> records))
        /\ forall i r,
             records !! i = Some r ->
             head (cells_of r) = Some (finding_label (M + 1 + Z.of_nat i))
             /\ finding_number (head (cells_of r)) = Ok (M + 1 + Z.of_nat i)
             /\ (forall n, n ∈ nums -> n < M + 1 + Z.of_nat i)
             /\ (forall j r',
                   (j < i)%nat ->
                   records !! j = Some r' ->
                   finding_number (head (cells_of r'))
                   = Ok (M + 1 + Z.of_nat j)
                   /\ M + 1 + Z.of_nat j < M + 1 + Z.of_nat i)).
Proof.
  intros Hstore Hreader Hrows HM Hmax.
  pose proof (fun fs rs =>
                allocator_continues_after_maximum header rows nums M fs rs
                  Hrows HM Hmax) as Halloc.
  assert (Hnext : next_id_of_table (header :: rows) = Ok (M + 1)).
  { exact (proj1 (Halloc [] [] eq_refl)). }
  split; [exact Hnext |]. split.
  - intros fs. split; [apply assign_finding_ids_Ok |].
    intros rs Hrs. exact (proj2 (Halloc fs rs Hrs)).
  - intros Hrun.
    apply main_run_findings in Hrun
      as (fs & next_id & rs & Hfs & Hscan & Hrs & _ & Hout & _).
    rewrite Hstore in Hscan, Hout. destruct Hscan as (_ & Hscan).
    unfold scan_output in Hscan. rewrite Hreader, Hnext in Hscan.
    assert (next_id = M + 1) as ->.
    { simpl in Hscan. destruct (csv_reader text).2; congruence. }
    destruct (Halloc fs rs Hrs) as (_ & Hkeep & Hids).
    exists fs, rs.
    split; [exact Hfs |]. split; [exact Hrs |]. split; [exact Hkeep |].
    split; [exact Hout |].
    intros i r Hi. destruct (Hids i r Hi) as (H1 & H2 & H3 & H4).
    change (head (cells_of r)) with (Some (finding_id r)).
    split; [congruence |]. split; [exact H2 |]. split; [exact H3 |].
    intros j r' Hji Hj.
    change (head (cells_of r')) with (Some (finding_id r')).
    exact (H4 j r' Hji Hj).
Qed.

End Continuity.

Lemma new_ids_witness :
  (@main plain_runtime three_keys_args three_keys_world).1 = Ok ()
  /\ match @findings_of_run plain_runtime three_keys_args three_keys_world
     with
     | Ok findings =>
         match assign_finding_ids (7 + 1) findings with
         | Ok records => finding_id <$> records
         | Raise _ => []
         end
     | Raise _ => []
     end = ["F-008"; "F-009"; "F-010"]
  /\ exists (findings : list clustered) (records : list record),
       @findings_of_run plain_runtime three_keys_args three_keys_world
       = Ok findings
       /\ assign_finding_ids (7 + 1) findings = Ok records
       /\ r_clustered <$> records = findings
       /\ store (@main plain_runtime three_keys_args three_keys_world).2
          = Some (plain_text store_up_to_7
                  +:+ @csv_text plain_runtime
                        (@cells_of plain_runtime <$> records))
       /\ forall i r,
            records !! i = Some r ->
            head (@cells_of plain_runtime r)
            = Some (finding_label (7 + 1 + Z.of_nat i))
            /\ finding_number (head (@cells_of plain_runtime r))
               = Ok (7 + 1 + Z.of_nat i)
            /\ (forall n, n ∈ [3; 7; 5] -> n < 7 + 1 + Z.of_nat i)
            /\ (forall j r',
                  (j < i)%nat ->
                  records !! j = Some r' ->
                  finding_number (head (@cells_of plain_runtime r'))
                  = Ok (7 + 1 + Z.of_nat j)
                  /\ 7 + 1 + Z.of_nat j < 7 + 1 + Z.of_nat i).
Proof.
  split; [vm_compute; reflexivity |].
  split; [vm_compute; reflexivity |].
  apply (proj2 (proj2
           (@new_ids_continue_after_maximum plain_runtime three_keys_args
              three_keys_world
              (@main plain_runtime three_keys_args three_keys_world).2
              (plain_text store_up_to_7) fieldnames (tail store_up_to_7)
              [3; 7; 5] 7 eq_refl ltac:(vm_compute; reflexivity) eq_refl
              ltac:(right; left)
              ltac:(intros n Hn;
                    repeat (apply elem_of_cons in Hn as [-> | Hn]; [lia |]);
                    inversion Hn)))).
  vm_compute. reflexivity.
Defined.

(** ** CVSS thresholds *)

Lemma digits2_pos_bounds m :
  2 ^ (Z.pos (digits2_pos m) - 1) <= Z.pos m < 2 ^ Z.pos (digits2_pos m).
Proof.
  induction m as [m IH | m IH |]; simpl digits2_pos.
  - rewrite Pos2Z.inj_succ.
    replace (Z.succ (Z.pos (digits2_pos m)) - 1)
      with (Z.succ (Z.pos (digits2_pos m) - 1)) by lia.
    rewrite !Z.pow_succ_r by lia. lia.
  - rewrite Pos2Z.inj_succ.
    replace (Z.succ (Z.pos (digits2_pos m)) - 1)
      with (Z.succ (Z.pos (digits2_pos m) - 1)) by lia.
    rewrite !Z.pow_succ_r by lia. lia.
  - simpl. lia.
Qed.

(** What canonical form says about a mantissa: at most 53 bits, and
    exactly 53 above the smallest exponent. *)
Lemma valid_mantissa s m e :
  valid_binary prec emax (S754_finite s m e) = true ->
  Z.pos m < 2 ^ 53 /\ (-1074 < e -> 2 ^ 52 <= Z.pos m).
Proof.
  unfold valid_binary, bounded, canonical_mantissa, fexp, emin, prec, emax.
  intros [Hc _]%andb_true_iff. apply Z.eqb_eq in Hc.
  pose proof (digits2_pos_bounds m) as [Hlo Hhi].
  set (d := Z.pos (digits2_pos m)) in *.
  assert (Hd : d <= 53) by lia.
  split.
  - eapply Z.lt_le_trans; [exact Hhi |].
    apply Z.pow_le_mono_r; lia.
  - intros He. assert (d = 53) as Heq by lia.
    rewrite Heq in Hlo. exact Hlo.
Qed.

Lemma threshold_4 : threshold 4 4503599627370496 (-50).
Proof. repeat split; vm_compute; congruence. Qed.

Lemma threshold_7 : threshold 7 7881299347898368 (-50).
Proof. repeat split; vm_compute; congruence. Qed.

Lemma threshold_9 : threshold 9 5066549580791808 (-49).
Proof. repeat split; vm_compute; congruence. Qed.

Lemma pow2_split a b : 0 <= a -> 0 <= b -> 2 ^ (a + b) = 2 ^ a * 2 ^ b.
Proof. intros. apply Z.pow_add_r; assumption. Qed.

(** The binary64 comparison against a threshold agrees with the order
    of the numbers. *)
Lemma float_ge_threshold T mT eT f q :
  threshold T mT eT ->
  valid_binary prec emax f = true ->
  SF2Q f = Some q ->
  (match SFcompare f (S754_finite false mT eT) with
   | Some (Gt | Eq) => true
   | _ => false
   end = true) <-> (inject_Z T <= q)%Q.
Proof.
  intros ((HeT1 & HeT2) & (HmT1 & HmT2) & HT) Hvalid Hq.
  assert (P52 : 2 ^ 52 = 4503599627370496) by reflexivity.
  assert (P53 : 2 ^ 53 = 9007199254740992) by reflexivity.
  assert (HeT : 2 <= 2 ^ (- eT)).
  { change 2 with (2 ^ 1) at 1. apply Z.pow_le_mono_r; lia. }
  rewrite P52, P53 in *.
  assert (HT0 : 0 < T) by nia.
  assert (HT1 : T < 4503599627370496) by nia.
  destruct f as [s | s | | s m e]; simpl in Hq; try discriminate.
  - injection Hq as <-. simpl. unfold Qle. simpl.
    split; [discriminate | lia].
  - injection Hq as <-.
    destruct (valid_mantissa s m e Hvalid) as (Hm1 & Hm2).
    rewrite P52 in Hm2. rewrite P53 in Hm1.
    destruct s.
    + (* negative *)
      simpl. split; [discriminate |]. intros Hle. exfalso.
      destruct (0 <=? e) eqn:He.
      * unfold Qle in Hle. simpl in Hle.
        assert (0 < 2 ^ e) by (apply Z.pow_pos_nonneg; lia). nia.
      * unfold Qle in Hle. simpl in Hle.
        rewrite Z2Pos.id in Hle by (apply Z.pow_pos_nonneg; lia).
        assert (0 < 2 ^ (- e)) by (apply Z.pow_pos_nonneg; lia). nia.
    + (* positive *)
      simpl SFcompare.
      destruct (Z.compare_spec e eT) as [Heq | Hlt | Hgt].
      * subst e. rewrite Pos.compare_cont_spec. simpl Pos.switch_Eq.
        assert (He : (0 <=? eT) = false) by (apply Z.leb_gt; lia).
        rewrite He. unfold Qle. simpl.
        rewrite Z2Pos.id by (apply Z.pow_pos_nonneg; lia).
        rewrite <- HT, Z.mul_1_r.
        destruct (Pos.compare_spec m mT) as [-> | Hc | Hc];
          split; try discriminate; try reflexivity; intros; lia.
      * split; [discriminate |]. intros Hle. exfalso.
        assert (He : (0 <=? e) = false) by (apply Z.leb_gt; lia).
        rewrite He in Hle. unfold Qle in Hle. simpl in Hle.
        rewrite Z2Pos.id in Hle by (apply Z.pow_pos_nonneg; lia).
        replace (- e) with (- eT + (eT - e)) in Hle by lia.
        rewrite pow2_split in Hle by lia.
        assert (2 <= 2 ^ (eT - e)).
        { change 2 with (2 ^ 1) at 1. apply Z.pow_le_mono_r; lia. }
        nia.
      * split; [intros _ | reflexivity].
        specialize (Hm2 ltac:(lia)).
        destruct (0 <=? e) eqn:He.
        -- apply Z.leb_le in He. unfold Qle. simpl.
           assert (1 <= 2 ^ e).
           { assert (0 < 2 ^ e) by (apply Z.pow_pos_nonneg; lia). lia. }
           nia.
        -- apply Z.leb_gt in He. unfold Qle. simpl.
           rewrite Z2Pos.id by (apply Z.pow_pos_nonneg; lia).
           assert (Hsplit : 2 ^ (- eT) = 2 ^ (- e) * 2 ^ (e - eT)).
           { rewrite <- pow2_split by lia. f_equal. lia. }
           assert (2 <= 2 ^ (e - eT)).
           { change 2 with (2 ^ 1) at 1. apply Z.pow_le_mono_r; lia. }
           assert (0 < 2 ^ (- e)) by (apply Z.pow_pos_nonneg; lia).
           nia.
Qed.

Lemma py_ge_threshold T mT eT s q :
  threshold T mT eT ->
  score_value s = Some q ->
  exists b, py_ge s (VFloat (S754_finite false mT eT)) = Ok b
            /\ (b = true <-> (inject_Z T <= q)%Q).
Proof.
  intros HT Hq.
  assert (Hint : forall z,
            exists b, py_ge (VInt z) (VFloat (S754_finite false mT eT)) = Ok b
                      /\ (b = true <-> (inject_Z T <= inject_Z z)%Q)).
  { intros z. destruct HT as ((HeT1 & HeT2) & _ & HmT).
    eexists. split; [reflexivity |].
    unfold num_compare, SF_compare_Z.
    assert (He : (0 <=? eT) = false) by (apply Z.leb_gt; lia).
    rewrite He. rewrite <- Zle_Qle, HmT.
    assert (Hp : 0 < 2 ^ (- eT)) by (apply Z.pow_pos_nonneg; lia).
    destruct (Z.compare_spec (T * 2 ^ (- eT)) (z * 2 ^ (- eT))) as [Hc | Hc | Hc];
      cbn; split; try discriminate; try reflexivity; intros; nia. }
  destruct s as [| b | z | f | | |]; simpl in Hq; try discriminate.
  - injection Hq as <-. apply (Hint (if b then 1 else 0)).
  - injection Hq as <-. apply Hint.
  - destruct (valid_binary prec emax f) eqn:Hvalid; [| discriminate].
    eexists. split; [reflexivity |].
    apply float_ge_threshold; assumption.
Qed.

(** C6. For every score that denotes a number — an integer or a finite
    binary64, hence every score from 0.0 to 10.0 — the CVSS normaliser
    returns "critical" iff the score is at least 9, "high" iff it is at
    least 7 and below 9, "medium" iff it is at least 4 and below 7, and
    "low" iff it is below 4. *)
Theorem cvss_thresholds (s : value) (q : Q) :
  score_value s = Some q ->
  (normalize_cvss_severity s = Ok "critical" <-> (inject_Z 9 <= q)%Q)
  /\ (normalize_cvss_severity s = Ok "high"
      <-> (inject_Z 7 <= q)%Q /\ (q < inject_Z 9)%Q)
  /\ (normalize_cvss_severity s = Ok "medium"
      <-> (inject_Z 4 <= q)%Q /\ (q < inject_Z 7)%Q)
  /\ (normalize_cvss_severity s = Ok "low" <-> (q < inject_Z 4)%Q).
Proof.
  intros Hq.
  destruct (py_ge_threshold _ _ _ s q threshold_9 Hq) as (b9 & E9 & H9).
  destruct (py_ge_threshold _ _ _ s q threshold_7 Hq) as (b7 & E7 & H7).
  destruct (py_ge_threshold _ _ _ s q threshold_4 Hq) as (b4 & E4 & H4).
  assert (H79 : (inject_Z 7 <= inject_Z 9)%Q) by (rewrite <- Zle_Qle; lia).
  assert (H47 : (inject_Z 4 <= inject_Z 7)%Q) by (rewrite <- Zle_Qle; lia).
  unfold normalize_cvss_severity.
  change (VFloat float_9) with (VFloat (S754_finite false 5066549580791808 (-49))).
  change (VFloat float_7) with (VFloat (S754_finite false 7881299347898368 (-50))).
  change (VFloat float_4) with (VFloat (S754_finite false 4503599627370496 (-50))).
  rewrite E9. simpl.
  destruct b9.
  { assert (G9 : (inject_Z 9 <= q)%Q) by (apply H9; reflexivity).
    repeat split; try discriminate; try (intros; assumption).
    - intros (_ & Hlt). exfalso. exact (Qlt_not_le _ _ Hlt G9).
    - intros (_ & Hlt). exfalso.
      exact (Qlt_not_le _ _ Hlt (Qle_trans _ _ _ H79 G9)).
    - intros Hlt. exfalso.
      exact (Qlt_not_le _ _ Hlt
               (Qle_trans _ _ _ H47 (Qle_trans _ _ _ H79 G9))). }
  assert (L9 : (q < inject_Z 9)%Q).
  { apply Qnot_le_lt. intros G. apply H9 in G. discriminate. }
  rewrite E7. simpl.
  destruct b7.
  { assert (G7 : (inject_Z 7 <= q)%Q) by (apply H7; reflexivity).
    repeat split; try discriminate; try (intros; assumption).
    - intros G9. exfalso. exact (Qlt_not_le _ _ L9 G9).
    - intros (_ & Hlt). exfalso. exact (Qlt_not_le _ _ Hlt G7).
    - intros Hlt. exfalso.
      exact (Qlt_not_le _ _ Hlt (Qle_trans _ _ _ H47 G7)). }
  assert (L7 : (q < inject_Z 7)%Q).
  { apply Qnot_le_lt. intros G. apply H7 in G. discriminate. }
  rewrite E4. simpl.
  destruct b4.
  { assert (G4 : (inject_Z 4 <= q)%Q) by (apply H4; reflexivity).
    repeat split; try discriminate; try (intros; assumption).
    - intros G9. exfalso. exact (Qlt_not_le _ _ L9 G9).
    - intros (G7 & _). exfalso. exact (Qlt_not_le _ _ L7 G7).
    - intros Hlt. exfalso. exact (Qlt_not_le _ _ Hlt G4). }
  assert (L4 : (q < inject_Z 4)%Q).
  { apply Qnot_le_lt. intros G. apply H4 in G. discriminate. }
  repeat split; try discriminate; try (intros; assumption).
  - intros G9. exfalso. exact (Qlt_not_le _ _ L9 G9).
  - intros (G7 & _). exfalso. exact (Qlt_not_le _ _ L7 G7).
  - intros (G4 & _). exfalso. exact (Qlt_not_le _ _ L4 G4).
Qed.

Lemma cvss_thresholds_witness :
  normalize_cvss_severity (VFloat float_9) = Ok "critical"
  /\ normalize_cvss_severity (VFloat float_7) = Ok "high"
  /\ normalize_cvss_severity (VFloat float_4) = Ok "medium"
  /\ normalize_cvss_severity (VFloat float_3_9) = Ok "low"
  /\ (normalize_cvss_severity (VFloat float_3_9) = Ok "low"
      <-> (Qmake 8782019273372467 2251799813685248 < inject_Z 4)%Q).
Proof.
  repeat (split; [reflexivity |]).
  apply (proj2 (proj2 (proj2
           (cvss_thresholds (VFloat float_3_9)
              (Qmake 8782019273372467 2251799813685248) eq_refl)))).
Defined.

(* ================================================================== *)
(** * Part III. Further properties *)
(* ================================================================== *)

(** ** Loops over a report *)

Lemma traverse_Ok {A B} (f : A -> res B) xs ys :
  traverse f xs = Ok ys -> Forall2 (fun x y => f x = Ok y) xs ys.
Proof.
  revert ys. induction xs as [| x xs IH]; intros ys Hr; simpl in Hr.
  - injection Hr as <-. constructor.
  - bind_inv Hr. injection Hr as <-. constructor; [assumption | auto].
Qed.

Lemma traverse_Raise {A B} (f : A -> res B) xs e :
  traverse f xs = Raise e -> exists x, x ∈ xs /\ f x = Raise e.
Proof.
  induction xs as [| x xs IH]; simpl; [discriminate |].
  destruct (f x) as [y | e'] eqn:Hx; simpl.
  - destruct (traverse f xs) as [ys | e'']; simpl; [discriminate |].
    intros [= ->]. destruct IH as (x' & Hin & Hx'); [reflexivity |].
    exists x'. split; [right; exact Hin | exact Hx'].
  - intros [= ->]. exists x. split; [left | exact Hx].
Qed.

(** A property of everything a loop body emits holds of everything the
    loop emits. *)
Lemma for_each_Forall {B} (P : B -> Prop) container key
    (body : value -> res (list B)) out :
  (forall x ys, body x = Ok ys -> Forall P ys) ->
  for_each container key body = Ok out -> Forall P out.
Proof.
  intros Hbody Hr. unfold for_each in Hr. bind_inv Hr. injection Hr as <-.
  match goal with
  | E : traverse _ _ = Ok _ |- _ => apply traverse_Ok in E; rename E into Hall
  end.
  apply Forall_concat. clear - Hbody Hall.
  induction Hall; constructor; eauto.
Qed.

Lemma one_draft_Forall {A B} (P : B -> Prop) (f : A -> res B) x ys :
  (forall y, f x = Ok y -> P y) ->
  (r ← f x; Ok [r]) = Ok ys -> Forall P ys.
Proof.
  intros Hf Hr. bind_inv Hr. injection Hr as <-.
  constructor; [auto | constructor].
Qed.

(** A loop that emits one draft per item. *)
Lemma for_each_one {B} container key (f : value -> res B) items out :
  py_get container key (VList []) = Ok (VList items) ->
  for_each container key (fun x => r ← f x; Ok [r]) = Ok out ->
  Forall2 (fun x y => f x = Ok y) items out.
Proof.
  intros Hget Hr. unfold for_each in Hr. rewrite Hget in Hr. simpl in Hr.
  bind_inv Hr. injection Hr as <-.
  match goal with
  | E : traverse _ _ = Ok _ |- _ => apply traverse_Ok in E; rename E into Hall
  end.
  clear - Hall.
  induction Hall as [| x ys xs yss Hx Hall IH]; simpl; [constructor |].
  bind_inv Hx. injection Hx as <-. simpl. constructor; assumption.
Qed.

Lemma for_each_one_Raise {B} container key (f : value -> res B) items e :
  py_get container key (VList []) = Ok (VList items) ->
  for_each container key (fun x => r ← f x; Ok [r]) = Raise e ->
  exists x, x ∈ items /\ f x = Raise e.
Proof.
  intros Hget Hr. unfold for_each in Hr. rewrite Hget in Hr. simpl in Hr.
  destruct (traverse _ items) as [yss | e'] eqn:Ht; simpl in Hr;
    [discriminate |].
  injection Hr as ->. apply traverse_Raise in Ht as (x & Hin & Hx).
  exists x. split; [exact Hin |].
  destruct (f x) as [y | e']; simpl in Hx; [discriminate |].
  injection Hx as ->. reflexivity.
Qed.

(** ** The Semgrep JSON adapter *)

Lemma semgrep_map_lookup (level : string) :
  default "medium" (SEMGREP_SEVERITY_MAP !! level) = semgrep_severity level.
Proof.
  unfold SEMGREP_SEVERITY_MAP, semgrep_severity. simpl.
  repeat (rewrite lookup_insert; case_decide; subst;
          [ repeat (case_decide; try congruence); reflexivity |]).
  rewrite lookup_empty. simpl.
  repeat (case_decide; try congruence).
Qed.

Section SemgrepJson.
Context `{Runtime}.

(** X1. The Semgrep JSON adapter maps the native level "ERROR" to
    "high", "WARNING" to "medium", "INFO" to "low" and every other text,
    lower-case spellings included, to "medium"; a result without the
    level, or without the [extra] member, counts as "WARNING". *)
Theorem semgrep_json_severity_table (result extra : value) (level : string)
    (dr : draft) :
  py_get result "extra" (VDict []) = Ok extra ->
  py_get extra "severity" (VStr "WARNING") = Ok (VStr level) ->
  semgrep_json_result result = Ok dr ->
  d_severity dr = semgrep_severity level
  /\ severity_get SEMGREP_SEVERITY_MAP (VStr level) "medium"
     = Ok (semgrep_severity level).
Proof.
  intros Hx Hl Hr. split; [| simpl; rewrite semgrep_map_lookup; reflexivity].
  unfold semgrep_json_result in Hr. bind_inv Hr.
  rewrite Hx in *. simplify_eq. rewrite Hl in *. simplify_eq.
  simpl in *. simplify_eq. simpl. apply semgrep_map_lookup.
Qed.

(** X2. When the [cwe] metadata of a Semgrep JSON result is a non-empty
    list, the category of the finding is what the text extractor finds in
    the first entry alone: later entries are not looked at, so the
    category is empty if the first entry names none. *)
Theorem semgrep_json_category_from_first_entry
    (result extra metadata first : value) (rest : list value) (dr : draft) :
  py_get result "extra" (VDict []) = Ok extra ->
  py_get extra "metadata" (VDict []) = Ok metadata ->
  py_get metadata "cwe" (VList []) = Ok (VList (first :: rest)) ->
  semgrep_json_result result = Ok dr ->
  extract_cwe_from_text (VStr (py_str first)) = Ok (d_cwe_id dr).
Proof.
  intros Hx Hm Hc Hr. unfold semgrep_json_result in Hr. bind_inv Hr.
  rewrite Hx in *. simplify_eq. rewrite Hm in *. simplify_eq.
  rewrite Hc in *. simplify_eq. simpl in *. assumption.
Qed.

(** X3. On a report whose [results] member is a list, the Semgrep JSON
    adapter returns exactly when every result converts, and then emits
    one draft per result, in report order; when it raises, it raises the
    exception of one of the results, and no draft of the report is
    kept. *)
Theorem semgrep_json_one_draft_per_result
    (data : value) (results : list value) :
  py_get data "results" (VList []) = Ok (VList results) ->
  match parse_semgrep_json data with
  | Ok ds => Forall2 (fun r dr => semgrep_json_result r = Ok dr) results ds
  | Raise e => exists r, r ∈ results /\ semgrep_json_result r = Raise e
  end.
Proof.
  intros Hget. destruct (parse_semgrep_json data) as [ds | e] eqn:Hp.
  - eapply for_each_one; eassumption.
  - eapply for_each_one_Raise; eassumption.
Qed.

End SemgrepJson.

Lemma semgrep_json_severity_table_witness :
  exists dr,
    @semgrep_json_result plain_runtime (semgrep_result "ERROR" VNone) = Ok dr
    /\ d_severity dr = "high"
    /\ severity_get SEMGREP_SEVERITY_MAP (VStr "ERROR") "medium" = Ok "high".
Proof.
  eexists. split; [reflexivity |].
  apply (@semgrep_json_severity_table plain_runtime
           (semgrep_result "ERROR" VNone)
           (VDict [("severity", VStr "ERROR");
                   ("message", VStr "SQL built from input");
                   ("metadata", VDict [("cwe", VNone)])])
           "ERROR"); reflexivity.
Defined.

Lemma semgrep_json_category_from_first_entry_witness :
  exists dr,
    @semgrep_json_result plain_runtime
      (semgrep_result "ERROR" (VList [VStr "no category"; VStr "CWE-89"]))
    = Ok dr
    /\ extract_cwe_from_text
         (VStr (@py_str plain_runtime (VStr "no category")))
       = Ok (d_cwe_id dr).
Proof.
  eexists. split; [reflexivity |].
  apply (@semgrep_json_category_from_first_entry plain_runtime
           (semgrep_result "ERROR" (VList [VStr "no category"; VStr "CWE-89"]))
           (VDict [("severity", VStr "ERROR");
                   ("message", VStr "SQL built from input");
                   ("metadata",
                    VDict [("cwe", VList [VStr "no category"; VStr "CWE-89"])])])
           (VDict [("cwe", VList [VStr "no category"; VStr "CWE-89"])])
           (VStr "no category") [VStr "CWE-89"]); reflexivity.
Defined.

Lemma semgrep_json_one_draft_per_result_witness :
  match @parse_semgrep_json plain_runtime semgrep_report with
  | Ok ds =>
      Forall2 (fun r dr => @semgrep_json_result plain_runtime r = Ok dr)
        [semgrep_result "ERROR"
           (VList [VStr "CWE-89: SQL Injection"; VStr "CWE-20"]);
         semgrep_result "INFO" (VStr "no category here")] ds
  | Raise e =>
      exists r,
        r ∈ [semgrep_result "ERROR"
               (VList [VStr "CWE-89: SQL Injection"; VStr "CWE-20"]);
             semgrep_result "INFO" (VStr "no category here")]
        /\ @semgrep_json_result plain_runtime r = Raise e
  end.
Proof.
  apply (@semgrep_json_one_draft_per_result plain_runtime semgrep_report).
  reflexivity.
Defined.

(** ** What every adapter emits *)

Lemma str_take_length n s : (String.length (str_take n s) <= n)%nat.
Proof.
  revert s. induction n as [| n IH]; intros s; [simpl; lia |].
  destruct s as [| c r]; simpl; [lia |]. specialize (IH r). lia.
Qed.

Lemma py_slice_to_bounded n v t :
  py_slice_to n v = Ok t ->
  match t with
  | VStr s => (String.length s <= n)%nat
  | VList l => (length l <= n)%nat
  | _ => False
  end.
Proof.
  destruct v; simpl; try discriminate; intros [= <-].
  - apply str_take_length.
  - rewrite length_take. lia.
Qed.

Section AdapterLoops.
Context `{Runtime}.

(** What holds of every draft a per-result function returns holds of
    every draft its adapter returns. *)
Lemma codeql_drafts_Forall (P : draft -> Prop) doc ds :
  (forall rules result dr, codeql_result rules result = Ok dr -> P dr) ->
  parse_codeql_sarif doc = Ok ds -> Forall P ds.
Proof.
  intros HP. apply for_each_Forall. intros run ys Hrun.
  unfold codeql_run in Hrun. bind_inv Hrun. revert Hrun.
  apply for_each_Forall. intros result zs. apply one_draft_Forall. eauto.
Qed.

Lemma semgrep_json_drafts_Forall (P : draft -> Prop) doc ds :
  (forall result dr, semgrep_json_result result = Ok dr -> P dr) ->
  parse_semgrep_json doc = Ok ds -> Forall P ds.
Proof.
  intros HP. apply for_each_Forall. intros result zs.
  apply one_draft_Forall. eauto.
Qed.

Lemma semgrep_sarif_drafts_Forall (P : draft -> Prop) doc ds :
  (forall rules result dr, semgrep_sarif_result rules result = Ok dr -> P dr) ->
  parse_semgrep_sarif doc = Ok ds -> Forall P ds.
Proof.
  intros HP. apply for_each_Forall. intros run ys Hrun.
  unfold semgrep_sarif_run in Hrun. bind_inv Hrun. revert Hrun.
  apply for_each_Forall. intros result zs. apply one_draft_Forall. eauto.
Qed.

Lemma gitleaks_drafts_Forall (P : draft -> Prop) doc ds :
  (forall result dr, gitleaks_result result = Ok dr -> P dr) ->
  parse_gitleaks_sarif doc = Ok ds -> Forall P ds.
Proof.
  intros HP. apply for_each_Forall. intros run ys.
  apply for_each_Forall. intros result zs. apply one_draft_Forall. eauto.
Qed.

Lemma depcheck_drafts_Forall (P : draft -> Prop) doc ds :
  (forall dep vuln dr, depcheck_vuln dep vuln = Ok dr -> P dr) ->
  parse_depcheck_json doc = Ok ds -> Forall P ds.
Proof.
  intros HP. apply for_each_Forall. intros dep ys.
  apply for_each_Forall. intros vuln zs. apply one_draft_Forall. eauto.
Qed.

(** X4. Every draft of the Gitleaks adapter has the tool name
    "gitleaks", the severity "high" and the category CWE-798, whatever
    rule, level or message its result carries. *)
Theorem gitleaks_drafts_are_high_cwe_798 (sarif : value) (ds : list draft) :
  parse_gitleaks_sarif sarif = Ok ds ->
  Forall (fun d => d_tool d = "gitleaks" /\ d_severity d = "high"
                   /\ d_cwe_id d = "CWE-798") ds.
Proof.
  apply gitleaks_drafts_Forall. intros result dr Hr.
  unfold gitleaks_result in Hr. bind_inv Hr. injection Hr as <-.
  repeat split.
Qed.

(** Splits the definition of a per-result function that returned, and
    brings up the slice that made the description. *)
Ltac slice_inv Hr :=
  bind_inv Hr; injection Hr as <-; unfold description_bounded; simpl;
  match goal with
  | E : py_slice_to 200 _ = Ok ?t |- _ =>
      apply py_slice_to_bounded in E; exact E
  end.

(** X5. The description of every draft, of every adapter, holds at most
    200 characters (at most 200 items, should the report hold a list where
    the text is expected). *)
Theorem descriptions_hold_at_most_200 (doc : value) (ds : list draft) :
  some_adapter_returns doc ds -> Forall description_bounded ds.
Proof.
  intros [Hp | [Hp | [Hp | [Hp | Hp]]]]; revert Hp.
  - apply codeql_drafts_Forall. intros rules result dr Hr.
    unfold codeql_result in Hr. slice_inv Hr.
  - apply semgrep_json_drafts_Forall. intros result dr Hr.
    unfold semgrep_json_result in Hr. slice_inv Hr.
  - apply semgrep_sarif_drafts_Forall. intros rules result dr Hr.
    unfold semgrep_sarif_result in Hr. slice_inv Hr.
  - apply gitleaks_drafts_Forall. intros result dr Hr.
    unfold gitleaks_result in Hr. slice_inv Hr.
  - apply depcheck_drafts_Forall. intros dep vuln dr Hr.
    unfold depcheck_vuln in Hr. slice_inv Hr.
Qed.

Lemma severity_get_codeql_scale level s :
  severity_get CODEQL_SEVERITY_MAP level "medium" = Ok s ->
  s ∈ canonical_scale.
Proof.
  unfold canonical_scale.
  destruct level; simpl; try discriminate; intros [= <-];
    try (rewrite !elem_of_cons; tauto).
  rewrite codeql_map_lookup. unfold sarif_severity.
  repeat case_decide; rewrite !elem_of_cons; tauto.
Qed.

Lemma severity_get_semgrep_scale level s :
  severity_get SEMGREP_SEVERITY_MAP level "medium" = Ok s ->
  s ∈ canonical_scale.
Proof.
  unfold canonical_scale.
  destruct level; simpl; try discriminate; intros [= <-];
    try (rewrite !elem_of_cons; tauto).
  rewrite semgrep_map_lookup. unfold semgrep_severity.
  repeat case_decide; rewrite !elem_of_cons; tauto.
Qed.

Lemma normalize_cvss_severity_scale score s :
  normalize_cvss_severity score = Ok s -> s ∈ canonical_scale.
Proof.
  unfold normalize_cvss_severity, canonical_scale. intros Hr.
  repeat match type of Hr with
  | mbind _ _ = Ok _ =>
      let b := fresh "b" in
      let E := fresh "E" in
      apply bind_Ok in Hr; destruct Hr as (b & E & Hr); destruct b
  end; injection Hr as <-; rewrite !elem_of_cons; tauto.
Qed.

(** Splits the definition of a per-result function that returned, and
    closes the goal with the lemma on the scale of its severity. *)
Ltac scale_inv Hr :=
  bind_inv Hr; injection Hr as <-; simpl;
  first [ eapply severity_get_codeql_scale; eassumption
        | eapply severity_get_semgrep_scale; eassumption
        | eapply normalize_cvss_severity_scale; eassumption
        | unfold canonical_scale; rewrite !elem_of_cons; tauto ].

(** X6. The severity of every draft, of every adapter, is one of
    critical, high, medium, low and info, whatever the report holds. *)
Theorem severities_are_on_the_scale (doc : value) (ds : list draft) :
  some_adapter_returns doc ds ->
  Forall (fun d => d_severity d ∈ canonical_scale) ds.
Proof.
  intros [Hp | [Hp | [Hp | [Hp | Hp]]]]; revert Hp.
  - apply codeql_drafts_Forall. intros rules result dr Hr.
    unfold codeql_result in Hr. scale_inv Hr.
  - apply semgrep_json_drafts_Forall. intros result dr Hr.
    unfold semgrep_json_result in Hr. scale_inv Hr.
  - apply semgrep_sarif_drafts_Forall. intros rules result dr Hr.
    unfold semgrep_sarif_result in Hr. scale_inv Hr.
  - apply gitleaks_drafts_Forall. intros result dr Hr.
    unfold gitleaks_result in Hr. scale_inv Hr.
  - apply depcheck_drafts_Forall. intros dep vuln dr Hr.
    unfold depcheck_vuln in Hr. scale_inv Hr.
Qed.

End AdapterLoops.

Lemma gitleaks_drafts_are_high_cwe_798_witness :
  exists ds,
    parse_gitleaks_sarif gitleaks_report = Ok ds
    /\ length ds = 1%nat
    /\ Forall (fun d => d_tool d = "gitleaks" /\ d_severity d = "high"
                        /\ d_cwe_id d = "CWE-798") ds.
Proof.
  eexists. split; [reflexivity |]. split; [reflexivity |].
  apply (gitleaks_drafts_are_high_cwe_798 gitleaks_report). reflexivity.
Defined.

Lemma descriptions_hold_at_most_200_witness :
  exists ds,
    parse_gitleaks_sarif gitleaks_report = Ok ds
    /\ length ds = 1%nat
    /\ Forall description_bounded ds.
Proof.
  eexists. split; [reflexivity |]. split; [reflexivity |].
  apply (@descriptions_hold_at_most_200 plain_runtime gitleaks_report).
  right. right. right. left. reflexivity.
Defined.

Lemma severities_are_on_the_scale_witness :
  exists ds,
    @parse_semgrep_json plain_runtime semgrep_report = Ok ds
    /\ length ds = 2%nat
    /\ Forall (fun d => d_severity d ∈ canonical_scale) ds.
Proof.
  eexists. split; [reflexivity |]. split; [reflexivity |].
  apply (@severities_are_on_the_scale plain_runtime semgrep_report).
  right. left. reflexivity.
Defined.

(** ** The score of a dependency vulnerability *)

Lemma normalize_float_0 : normalize_cvss_severity (VFloat float_0) = Ok "low".
Proof. reflexivity. Qed.

Section DependencyScores.
Context `{Runtime}.

(** X7. When a vulnerability has a non-empty [cvssv3] object, its
    severity comes from the [baseScore] of that object, 0.0 standing in
    for a missing one, and the [cvssv2] object is not consulted. *)
Theorem depcheck_cvss3_shadows_cvss2
    (dep vuln : value) (d c3 : list (string * value)) (dr : draft) :
  vuln = VDict d ->
  assoc "cvssv3" d = Some (VDict c3) ->
  c3 <> [] ->
  depcheck_vuln dep vuln = Ok dr ->
  depcheck_score vuln = Ok (default (VFloat float_0) (assoc "baseScore" c3))
  /\ normalize_cvss_severity (default (VFloat float_0) (assoc "baseScore" c3))
     = Ok (d_severity dr).
Proof.
  intros -> H3 Hne Hr.
  assert (Hs : depcheck_score (VDict d)
               = Ok (default (VFloat float_0) (assoc "baseScore" c3))).
  { unfold depcheck_score. simpl. rewrite H3.
    destruct c3 as [| kv c3']; [congruence | reflexivity]. }
  split; [exact Hs |].
  unfold depcheck_vuln in Hr. bind_inv Hr. injection Hr as <-. simpl.
  congruence.
Qed.

(** X8. A vulnerability that has neither a [cvssv3] nor a [cvssv2]
    member, or whose non-empty [cvssv3] object has no [baseScore], is
    given the severity "low"; in the second case a [cvssv2] score, however
    high, changes nothing. *)
Theorem depcheck_unscored_is_low
    (dep vuln : value) (d : list (string * value)) (dr : draft) :
  vuln = VDict d ->
  (assoc "cvssv3" d = None /\ assoc "cvssv2" d = None)
  \/ (exists c3, assoc "cvssv3" d = Some (VDict c3) /\ c3 <> []
                 /\ assoc "baseScore" c3 = None) ->
  depcheck_vuln dep vuln = Ok dr ->
  d_severity dr = "low".
Proof.
  intros -> Hcase Hr.
  assert (Hs : depcheck_score (VDict d) = Ok (VFloat float_0)).
  { unfold depcheck_score. simpl.
    destruct Hcase as [(H3 & H2) | (c3 & H3 & Hne & Hb)].
    - rewrite H3, H2. reflexivity.
    - rewrite H3. destruct c3 as [| kv c3']; [congruence |].
      simpl. simpl in Hb. rewrite Hb. reflexivity. }
  unfold depcheck_vuln in Hr. bind_inv Hr. injection Hr as <-. simpl.
  rewrite Hs in *. simplify_eq. rewrite normalize_float_0 in *.
  congruence.
Qed.

End DependencyScores.

Lemma depcheck_cvss3_shadows_cvss2_witness :
  exists dr,
    @depcheck_vuln plain_runtime sample_dependency prefixed_vulnerability
    = Ok dr
    /\ depcheck_score prefixed_vulnerability = Ok (VFloat float_10)
    /\ normalize_cvss_severity (VFloat float_10) = Ok (d_severity dr).
Proof.
  eexists. split; [reflexivity |].
  apply (@depcheck_cvss3_shadows_cvss2 plain_runtime sample_dependency
           prefixed_vulnerability _ [("baseScore", VFloat float_10)] _
           eq_refl);
    [reflexivity | discriminate | reflexivity].
Defined.

Lemma depcheck_unscored_is_low_witness :
  exists dr,
    @depcheck_vuln plain_runtime sample_dependency half_scored_vulnerability
    = Ok dr
    /\ d_severity dr = "low".
Proof.
  eexists. split; [reflexivity |].
  apply (@depcheck_unscored_is_low plain_runtime sample_dependency
           half_scored_vulnerability _ _ eq_refl); [| reflexivity].
  right. exists [("attackVector", VStr "NETWORK")].
  split; [reflexivity |]. split; [discriminate | reflexivity].
Defined.

(** ** The rule table of the SARIF adapters *)

Lemma build_rules_anonymous rules before rule_d after :
  Forall rule_with_text_id before ->
  assoc "id" rule_d = None ->
  build_rules rules (before ++ VDict rule_d :: after) = Raise KeyError.
Proof.
  intros Hbefore Hid. revert rules.
  induction Hbefore as [| rule before (d & s & -> & Hd) _ IH]; intros rules.
  - simpl. rewrite Hid. reflexivity.
  - simpl. rewrite Hd. simpl. apply IH.
Qed.

Section Rules.
Context `{Runtime}.

(** X9. A rule object without an [id] member makes the CodeQL adapter and
    the Semgrep SARIF adapter raise [KeyError] on the run that declares
    it, whether or not any result of the run refers to that rule; the
    rules before it are taken to carry text identifiers. *)
Theorem rule_without_id_raises_KeyError
    (run : value) (rd td dd rule_d : list (string * value))
    (before after : list value) :
  run = VDict rd ->
  assoc "tool" rd = Some (VDict td) ->
  assoc "driver" td = Some (VDict dd) ->
  assoc "rules" dd = Some (VList (before ++ VDict rule_d :: after)) ->
  Forall rule_with_text_id before ->
  assoc "id" rule_d = None ->
  codeql_run run = Raise KeyError /\ semgrep_sarif_run run = Raise KeyError.
Proof.
  intros -> Ht Hd Hr Hbefore Hid.
  assert (Hrules : run_rules (VDict rd) = Raise KeyError).
  { unfold run_rules. simpl. rewrite Ht. simpl. rewrite Hd. simpl.
    rewrite Hr. simpl. apply build_rules_anonymous; assumption. }
  unfold codeql_run, semgrep_sarif_run. rewrite Hrules. split; reflexivity.
Qed.

(** X10. A report that is not a JSON object makes every adapter raise
    [AttributeError]; a report that is an object without the member the
    adapter walks ([runs], [results], [dependencies]) yields no finding
    and no error. *)
Theorem report_without_list_member (doc : value) :
  match doc with
  | VDict d =>
      (assoc "runs" d = None ->
       parse_codeql_sarif doc = Ok [] /\ parse_semgrep_sarif doc = Ok []
       /\ parse_gitleaks_sarif doc = Ok [])
      /\ (assoc "results" d = None -> parse_semgrep_json doc = Ok [])
      /\ (assoc "dependencies" d = None -> parse_depcheck_json doc = Ok [])
  | _ =>
      parse_codeql_sarif doc = Raise AttributeError
      /\ parse_semgrep_json doc = Raise AttributeError
      /\ parse_semgrep_sarif doc = Raise AttributeError
      /\ parse_gitleaks_sarif doc = Raise AttributeError
      /\ parse_depcheck_json doc = Raise AttributeError
  end.
Proof.
  destruct doc as [| | | | | | d]; try (repeat split; reflexivity).
  split; [| split].
  - intros Hd.
    unfold parse_codeql_sarif, parse_semgrep_sarif, parse_gitleaks_sarif,
      for_each.
    simpl. rewrite Hd. repeat split; reflexivity.
  - intros Hd. unfold parse_semgrep_json, for_each. simpl. rewrite Hd.
    reflexivity.
  - intros Hd. unfold parse_depcheck_json, for_each. simpl. rewrite Hd.
    reflexivity.
Qed.

End Rules.

Lemma rule_without_id_raises_KeyError_witness :
  @codeql_run plain_runtime run_with_anonymous_rule = Raise KeyError
  /\ @semgrep_sarif_run plain_runtime run_with_anonymous_rule = Raise KeyError.
Proof.
  eapply (@rule_without_id_raises_KeyError plain_runtime
            run_with_anonymous_rule _ _ _ [("name", VStr "unnamed")]
            [VDict [("id", VStr "java/sql-injection")]] []);
    try reflexivity.
  constructor; [| constructor].
  exists [("id", VStr "java/sql-injection")], "java/sql-injection".
  split; reflexivity.
Defined.

(** ** The shape of an extracted category *)

Lemma take_digits_all_digits s : all_digits (take_digits s) = true.
Proof.
  induction s as [| c r IH]; simpl; [reflexivity |].
  destruct (is_digit c) eqn:Hc; simpl; [rewrite Hc; exact IH | reflexivity].
Qed.

Lemma take_digits_id s : all_digits s = true -> take_digits s = s.
Proof.
  induction s as [| c r IH]; simpl; [reflexivity |].
  intros [Hc Hr]%andb_true_iff. rewrite Hc, (IH Hr). reflexivity.
Qed.

(** The group read after the three letters, by the character that
    follows them. *)
Lemma cwe_group_cases b r :
  cwe_group b r
  = match r with
    | String c r' =>
        if bool_decide (c = "-"%char) then take_digits r'
        else if b then take_digits r else ""
    | "" => if b then take_digits r else ""
    end.
Proof.
  unfold cwe_group. destruct r as [| c r']; [reflexivity |].
  case_bool_decide as Hc; [subst; reflexivity |].
  destruct c as [[] [] [] [] [] [] [] []]; try reflexivity. congruence.
Qed.

Lemma cwe_group_all_digits b r : all_digits (cwe_group b r) = true.
Proof.
  rewrite cwe_group_cases. destruct r as [| c r'].
  - destruct b; reflexivity.
  - case_bool_decide; [apply take_digits_all_digits |].
    destruct b; [apply take_digits_all_digits | reflexivity].
Qed.

Lemma match_cwe_all_digits b s ds :
  match_cwe b s = Some ds -> ds <> "" /\ all_digits ds = true.
Proof.
  unfold match_cwe.
  destruct s as [| c [| w [| e r]]]; try discriminate.
  destruct (ieq c "c" && ieq w "w" && ieq e "e"); [| discriminate].
  cbv zeta. case_bool_decide as Hnil; [discriminate |].
  intros [= <-]. split; [exact Hnil | apply cwe_group_all_digits].
Qed.

Lemma re_search_cwe_all_digits b s ds :
  re_search_cwe b s = Some ds -> ds <> "" /\ all_digits ds = true.
Proof.
  induction s as [| c s IH]; rewrite re_search_cwe_unfold.
  - discriminate.
  - destruct (match_cwe b (String c s)) eqn:Hm.
    + intros [= <-]. eapply match_cwe_all_digits; eauto.
    + exact IH.
Qed.

Lemma canonical_of_search b s :
  canonical_category match re_search_cwe b s with
                     | Some ds => "CWE-" +:+ ds
                     | None => ""
                     end.
Proof.
  destruct (re_search_cwe b s) as [ds |] eqn:Hs; [| left; reflexivity].
  right. exists ds. split; [reflexivity |].
  eapply re_search_cwe_all_digits; eauto.
Qed.

Lemma extract_cwe_from_text_canonical text c :
  extract_cwe_from_text text = Ok c -> canonical_category c.
Proof.
  destruct text; simpl; try discriminate. intros [= <-].
  apply canonical_of_search.
Qed.

(** Both patterns match the three letters, in any case, followed by a
    dash and digits, and read the digits back. *)
Lemma match_cwe_dashed b c w e ds :
  ieq c "c" = true -> ieq w "w" = true -> ieq e "e" = true ->
  ds <> "" -> all_digits ds = true ->
  match_cwe b (String c (String w (String e (String "-" ds)))) = Some ds.
Proof.
  intros Hc Hw He Hne Hds. unfold match_cwe. rewrite Hc, Hw, He.
  cbv zeta. simpl andb. cbv iota. rewrite cwe_group_cases.
  rewrite (bool_decide_eq_true_2 ("-"%char = "-"%char)) by reflexivity.
  rewrite (take_digits_id ds Hds).
  rewrite bool_decide_eq_false_2 by exact Hne. reflexivity.
Qed.

Lemma re_search_cwe_prefixed b ds :
  ds <> "" -> all_digits ds = true ->
  re_search_cwe b ("CWE-" +:+ ds) = Some ds.
Proof.
  intros Hne Hds.
  change ("CWE-" +:+ ds)
    with (String "C" (String "W" (String "E" (String "-" ds)))).
  rewrite re_search_cwe_unfold, match_cwe_dashed; auto.
Qed.

(** The text extractor returns a category in normal form as it is. *)
Lemma extract_cwe_from_text_fixed c :
  canonical_category c -> extract_cwe_from_text (VStr c) = Ok c.
Proof.
  intros [-> | (ds & -> & Hne & Hds)]; [reflexivity |].
  unfold extract_cwe_from_text.
  rewrite (re_search_cwe_prefixed false ds Hne Hds). reflexivity.
Qed.

Section CanonicalCategories.
Context `{Runtime}.

Lemma first_tag_match_canonical ts : canonical_category (first_tag_match ts).
Proof.
  induction ts as [| t ts IH]; simpl; [left; reflexivity |].
  destruct (re_search_cwe true (py_str t)) as [ds |] eqn:Hs; [| exact IH].
  right. exists ds. split; [reflexivity |].
  eapply re_search_cwe_all_digits; eauto.
Qed.

Lemma extract_cwe_from_tags_canonical tags c :
  extract_cwe_from_tags tags = Ok c -> canonical_category c.
Proof.
  unfold extract_cwe_from_tags. intros Hr. bind_inv Hr.
  injection Hr as <-. apply first_tag_match_canonical.
Qed.

(** The tag extractor does too, given the category as the only tag. *)
Lemma extract_cwe_from_tags_fixed c :
  canonical_category c -> extract_cwe_from_tags (VList [VStr c]) = Ok c.
Proof.
  intros [-> | (ds & -> & Hne & Hds)]; [reflexivity |].
  change (extract_cwe_from_tags (VList [VStr ("CWE-" +:+ ds)]))
    with (Ok match re_search_cwe true ("CWE-" +:+ ds) with
             | Some ds' => "CWE-" +:+ ds'
             | None => ""
             end).
  rewrite (re_search_cwe_prefixed true ds Hne Hds). reflexivity.
Qed.

(** X11. Every category that the CodeQL, Semgrep JSON, Semgrep SARIF and
    Gitleaks adapters emit is in normal form: empty, or "CWE-" in upper
    case followed by one or more decimal digits and nothing else,
    whatever spelling or surrounding text the report has. *)
Theorem extracted_categories_are_canonical (doc : value) (ds : list draft) :
  some_extracting_adapter_returns doc ds ->
  Forall (fun d => canonical_category (d_cwe_id d)) ds.
Proof.
  intros [Hp | [Hp | [Hp | Hp]]]; revert Hp.
  - apply codeql_drafts_Forall. intros rules result dr Hr.
    unfold codeql_result in Hr. bind_inv Hr. injection Hr as <-. simpl.
    match goal with
    | E : extract_cwe_from_tags _ = Ok ?c0,
      E' : (if bool_decide (?c0 = "") then _ else _) = Ok _ |- _ =>
        apply extract_cwe_from_tags_canonical in E;
        destruct (bool_decide (c0 = ""));
        [ bind_inv E'; eapply extract_cwe_from_text_canonical; eassumption
        | injection E' as <-; exact E ]
    end.
  - apply semgrep_json_drafts_Forall. intros result dr Hr.
    unfold semgrep_json_result in Hr. bind_inv Hr. injection Hr as <-. simpl.
    match goal with
    | E : (if py_truthy ?v then _ else _) = Ok _ |- _ =>
        destruct (py_truthy v);
        [ destruct (is_list v);
          [ bind_inv E | ];
          eapply extract_cwe_from_text_canonical; eassumption
        | injection E as <-; left; reflexivity ]
    end.
  - apply semgrep_sarif_drafts_Forall. intros rules result dr Hr.
    unfold semgrep_sarif_result in Hr. bind_inv Hr. injection Hr as <-. simpl.
    eapply extract_cwe_from_tags_canonical; eassumption.
  - apply gitleaks_drafts_Forall. intros result dr Hr.
    unfold gitleaks_result in Hr. bind_inv Hr. injection Hr as <-. simpl.
    right. exists "798". repeat split. discriminate.
Qed.

(** X12. Extraction is idempotent: a category returned by either
    extractor is returned unchanged by the text extractor applied to it,
    and by the tag extractor given it as the only tag. *)
Theorem extraction_is_idempotent (tags text : value) (c : string) :
  extract_cwe_from_tags tags = Ok c \/ extract_cwe_from_text text = Ok c ->
  extract_cwe_from_text (VStr c) = Ok c
  /\ extract_cwe_from_tags (VList [VStr c]) = Ok c.
Proof.
  intros Hc.
  assert (Hcan : canonical_category c).
  { destruct Hc as [Hc | Hc];
      [eapply extract_cwe_from_tags_canonical
      | eapply extract_cwe_from_text_canonical]; eassumption. }
  split; [apply extract_cwe_from_text_fixed | apply extract_cwe_from_tags_fixed];
    exact Hcan.
Qed.

End CanonicalCategories.

Lemma extracted_categories_are_canonical_witness :
  exists ds,
    @parse_codeql_sarif plain_runtime untagged_report = Ok ds
    /\ d_cwe_id <$> ds = ["CWE-89"]
    /\ Forall (fun d => canonical_category (d_cwe_id d)) ds.
Proof.
  eexists. split; [reflexivity |]. split; [reflexivity |].
  apply (@extracted_categories_are_canonical plain_runtime untagged_report).
  left. reflexivity.
Defined.

Lemma extraction_is_idempotent_witness :
  extract_cwe_from_text (VStr "see cwe-089 and CWE-79") = Ok "CWE-089"
  /\ (extract_cwe_from_text (VStr "CWE-089") = Ok "CWE-089"
      /\ @extract_cwe_from_tags plain_runtime (VList [VStr "CWE-089"])
         = Ok "CWE-089").
Proof.
  split; [reflexivity |].
  apply (@extraction_is_idempotent plain_runtime VNone
           (VStr "see cwe-089 and CWE-79") "CWE-089").
  right. reflexivity.
Defined.

(** ** The two patterns *)

(** No match starts at a character that is not the letter c. *)
Lemma match_cwe_other_head b c s :
  ieq c "c" = false -> match_cwe b (String c s) = None.
Proof.
  intros Hc. unfold match_cwe. destruct s as [| w [| e r]]; try reflexivity.
  rewrite Hc. reflexivity.
Qed.

Section Patterns.
Context `{Runtime}.

(** X13. A tag of the shape the CodeQL rules use, "external/cwe/cwe-"
    followed by digits, gives "CWE-" followed by the same digits, leading
    zeros kept: the slash after the first "cwe" stops the match there, and
    the digits are copied, not read as a number. *)
Theorem codeql_tag_keeps_its_digits (ds : string) :
  ds <> "" -> all_digits ds = true ->
  extract_cwe_from_tags (VList [VStr ("external/cwe/cwe-" +:+ ds)])
  = Ok ("CWE-" +:+ ds).
Proof.
  intros Hne Hds.
  change (extract_cwe_from_tags (VList [VStr ("external/cwe/cwe-" +:+ ds)]))
    with (Ok match re_search_cwe true ("external/cwe/cwe-" +:+ ds) with
             | Some ds' => "CWE-" +:+ ds'
             | None => ""
             end).
  assert (Hs : re_search_cwe true ("external/cwe/cwe-" +:+ ds) = Some ds);
    [| rewrite Hs; reflexivity].
  change ("external/cwe/cwe-" +:+ ds)
    with (String "e" (String "x" (String "t" (String "e" (String "r"
           (String "n" (String "a" (String "l" (String "/"
           (String "c" (String "w" (String "e" (String "/"
           (String "c" (String "w" (String "e" (String "-" ds))))))))))))))))).
  do 9 (rewrite re_search_cwe_unfold, match_cwe_other_head by reflexivity).
  rewrite re_search_cwe_unfold.
  assert (Hslash : forall r,
            match_cwe true (String "c" (String "w" (String "e" (String "/" r))))
            = None) by reflexivity.
  rewrite Hslash.
  do 3 (rewrite re_search_cwe_unfold, match_cwe_other_head by reflexivity).
  rewrite re_search_cwe_unfold, match_cwe_dashed; auto.
Qed.

End Patterns.

Lemma codeql_tag_keeps_its_digits_witness :
  @extract_cwe_from_tags plain_runtime
    (VList [VStr ("external/cwe/cwe-" +:+ "089")])
  = Ok ("CWE-" +:+ "089").
Proof.
  apply (@codeql_tag_keeps_its_digits plain_runtime "089");
    [discriminate | reflexivity].
Defined.

(** ** Fingerprints *)

Section Fingerprints.
Context `{Runtime}.

(** X14. The fingerprint does not tell where a field ends: moving the
    text after a vertical bar from the end of the rule identifier to the
    front of the file path leaves the fingerprint unchanged, although the
    two findings have different deduplication keys. Equal fingerprints
    therefore do not imply equal keys, whatever the digest. *)
Theorem fingerprint_ignores_field_boundary
    (tool r x p : string) (line : Z) :
  compute_fingerprint tool (r +:+ "|" +:+ x) p line
  = compute_fingerprint tool r (x +:+ "|" +:+ p) line
  /\ (tool, r +:+ "|" +:+ x, p, line) <> (tool, r, x +:+ "|" +:+ p, line).
Proof.
  split.
  - unfold compute_fingerprint. cbv zeta. do 2 f_equal.
    rewrite !str_app_assoc. reflexivity.
  - intros [= Hr _]. apply (f_equal String.length) in Hr.
    rewrite str_app_length in Hr. simpl in Hr. lia.
Qed.

End Fingerprints.

(** ** More on within-tool deduplication *)

Lemma dedup_seen_irrelevant seen extra l :
  (forall g, g ∈ l -> key_of g ∉ extra) ->
  within_tool_dedup (extra ∪ seen) l = within_tool_dedup seen l.
Proof.
  revert seen. induction l as [| f l IH]; intros seen Hl; [reflexivity |].
  assert (Hf : key_of f ∉ extra) by (apply Hl; left).
  assert (Hrest : forall g, g ∈ l -> key_of g ∉ extra)
    by (intros g Hg; apply Hl; right; exact Hg).
  rewrite !dedup_cons. destruct (decide (key_of f ∈ seen)) as [Hin | Hout].
  - rewrite decide_True by (apply elem_of_union_r, Hin). apply IH, Hrest.
  - rewrite decide_False
      by (intros [? | ?]%elem_of_union; [apply Hf | apply Hout]; assumption).
    f_equal. rewrite <- (IH ({[key_of f]} ∪ seen) Hrest). f_equal.
    set_solver.
Qed.

Lemma dedup_NoDup_id seen l :
  NoDup (key_of <$> l) -> (forall g, g ∈ l -> key_of g ∉ seen) ->
  within_tool_dedup seen l = l.
Proof.
  revert seen. induction l as [| f l IH]; intros seen Hnd Hl; [reflexivity |].
  rewrite fmap_cons in Hnd. apply NoDup_cons in Hnd as [Hf Hnd].
  rewrite dedup_cons, decide_False by (apply Hl; left).
  f_equal. apply IH; [exact Hnd |].
  intros g Hg [Hin | Hin]%elem_of_union.
  - apply elem_of_singleton in Hin. apply Hf. rewrite <- Hin.
    apply list_elem_of_fmap. eauto.
  - apply (Hl g); [right; exact Hg | exact Hin].
Qed.

Lemma dedup_again l :
  within_tool_dedup ∅ (within_tool_dedup ∅ l) = within_tool_dedup ∅ l.
Proof.
  apply dedup_NoDup_id; [apply dedup_keys_NoDup |].
  intros g _. apply not_elem_of_empty.
Qed.

(** X15. The within-tool deduplicator leaves a batch whose keys are
    pairwise distinct exactly as it is, and is idempotent: deduplicating
    its own output changes nothing. *)
Theorem within_tool_dedup_is_idempotent (l : list Finding) :
  (NoDup (key_of <$> l) -> within_tool_dedup ∅ l = l)
  /\ within_tool_dedup ∅ (within_tool_dedup ∅ l) = within_tool_dedup ∅ l.
Proof.
  split; [| apply dedup_again].
  intros Hnd. apply dedup_NoDup_id; [exact Hnd |].
  intros g _. apply not_elem_of_empty.
Qed.

(** X16. Findings of different tools never displace one another: when no
    tool name occurs in both of two batches, deduplicating their
    concatenation gives the deduplicated first batch followed by the
    deduplicated second batch. *)
Theorem dedup_keeps_tools_apart (l1 l2 : list Finding) :
  (forall f g, f ∈ l1 -> g ∈ l2 -> tool f <> tool g) ->
  within_tool_dedup ∅ (l1 ++ l2)
  = within_tool_dedup ∅ l1 ++ within_tool_dedup ∅ l2.
Proof.
  intros Htools. rewrite dedup_app. f_equal.
  apply dedup_seen_irrelevant. intros g Hg Hin.
  apply elem_of_list_to_set, list_elem_of_fmap in Hin as (f & Hk & Hf).
  apply (Htools f g Hf Hg). unfold key_of in Hk. congruence.
Qed.

Lemma dedup_keeps_tools_apart_witness :
  within_tool_dedup ∅ (codeql_batch ++ semgrep_batch)
  = within_tool_dedup ∅ codeql_batch ++ within_tool_dedup ∅ semgrep_batch.
Proof.
  apply (dedup_keeps_tools_apart codeql_batch semgrep_batch).
  intros f g Hf Hg.
  repeat (apply elem_of_cons in Hf as [-> | Hf]);
    try (exfalso; exact (not_elem_of_nil _ Hf));
    repeat (apply elem_of_cons in Hg as [-> | Hg]);
    try (exfalso; exact (not_elem_of_nil _ Hg)); discriminate.
Defined.

(** ** More on the weakness clusterer *)

Lemma weakness_label_inj n m :
  0 <= n -> 0 <= m -> weakness_label n = weakness_label m -> n = m.
Proof.
  intros Hn Hm Heq. unfold weakness_label in Heq.
  change (String "W" (String "-" (fmt_03d n))
          = String "W" (String "-" (fmt_03d m))) in Heq.
  injection Heq as Heq.
  destruct (fmt_03d_digits n Hn) as (_ & _ & Hvn).
  destruct (fmt_03d_digits m Hm) as (_ & _ & Hvm). congruence.
Qed.

(** The two outcomes of one iteration. *)
Lemma assign_weakness_joined st f i wm :
  list_find (wm_matches f) (weakness_map st) = Some (i, wm) ->
  assign_weakness st f
  = (mk_cluster_state (weakness_counter st)
       (<[i := mk_weakness (wm_cwe wm) (wm_file wm)
                (Z.min (wm_line wm) (start_line f)) (wm_weakness_id wm)]>
          (weakness_map st)),
     mk_clustered f (wm_weakness_id wm) true).
Proof. intros Hfind. unfold assign_weakness. rewrite Hfind. reflexivity. Qed.

Lemma assign_weakness_opened st f :
  list_find (wm_matches f) (weakness_map st) = None ->
  assign_weakness st f
  = (mk_cluster_state (weakness_counter st + 1)
       (weakness_map st
        ++ [mk_weakness (cwe_id f) (file_path f) (start_line f)
              (weakness_label (weakness_counter st + 1))]),
     mk_clustered f (weakness_label (weakness_counter st + 1)) false).
Proof. intros Hfind. unfold assign_weakness. rewrite Hfind. reflexivity. Qed.

(** Case analysis on one iteration: [Hfind] names the outcome of the
    search, [Hstep] the equation of the step. *)
Ltac step_cases st f Hfind Hstep :=
  let i := fresh "i" in
  let wm := fresh "wm" in
  destruct (list_find (wm_matches f) (weakness_map st)) as [[i wm] |] eqn:Hfind;
  [ pose proof (assign_weakness_joined st f i wm Hfind) as Hstep
  | pose proof (assign_weakness_opened st f Hfind) as Hstep ].

Lemma clusters_after_cons st f l :
  clusters_after st (f :: l) = clusters_after (assign_weakness st f).1 l.
Proof. reflexivity. Qed.

Lemma clusters_after_app st l1 l2 :
  clusters_after st (l1 ++ l2) = clusters_after (clusters_after st l1) l2.
Proof. apply fold_left_app. Qed.

Lemma assign_weaknesses_app st l1 l2 :
  assign_weaknesses st (l1 ++ l2)
  = assign_weaknesses st l1 ++ assign_weaknesses (clusters_after st l1) l2.
Proof.
  revert st. induction l1 as [| f l1 IH]; intros st; [reflexivity |].
  rewrite <- app_comm_cons, !assign_weaknesses_cons, clusters_after_cons, IH.
  reflexivity.
Qed.

Lemma assign_weaknesses_length st l :
  length (assign_weaknesses st l) = length l.
Proof.
  rewrite <- (assign_weaknesses_findings st l) at 2.
  rewrite length_fmap. reflexivity.
Qed.

(** The record at position [i] is the outcome of the step taken from the
    state reached after the first [i] findings. *)
Lemma assign_weaknesses_lookup st l i c :
  assign_weaknesses st l !! i = Some c ->
  exists f, l !! i = Some f
    /\ c = (assign_weakness (clusters_after st (take i l)) f).2
    /\ take i (assign_weaknesses st l) = assign_weaknesses st (take i l).
Proof.
  intros Hi.
  assert (Hlt : (i < length l)%nat).
  { apply lookup_lt_Some in Hi. rewrite assign_weaknesses_length in Hi.
    exact Hi. }
  destruct (lookup_lt_is_Some_2 l i Hlt) as (f & Hf).
  exists f. split; [exact Hf |].
  rewrite <- (take_drop_middle l i f Hf) in Hi at 1.
  rewrite assign_weaknesses_app, assign_weaknesses_cons in Hi.
  assert (Hlen : length (assign_weaknesses st (take i l)) = i).
  { rewrite assign_weaknesses_length, length_take. lia. }
  rewrite lookup_app_r in Hi by lia. rewrite Hlen, Nat.sub_diag in Hi.
  injection Hi as <-. split; [reflexivity |].
  rewrite <- (take_drop_middle l i f Hf) at 1.
  rewrite assign_weaknesses_app, take_app_length'; [reflexivity | symmetry; exact Hlen].
Qed.

Lemma counter_step st f :
  weakness_counter (assign_weakness st f).1
  = weakness_counter st
    + (if is_cross_tool_dup (assign_weakness st f).2 then 0 else 1).
Proof. step_cases st f Hfind Hstep; rewrite Hstep; simpl; lia. Qed.

Lemma counter_mono st l :
  weakness_counter st <= weakness_counter (clusters_after st l).
Proof.
  revert st. induction l as [| f l IH]; intros st; [simpl; lia |].
  rewrite clusters_after_cons. specialize (IH (assign_weakness st f).1).
  rewrite counter_step in IH.
  destruct (is_cross_tool_dup (assign_weakness st f).2); lia.
Qed.

Lemma counter_take_mono st l i j :
  (i <= j)%nat ->
  weakness_counter (clusters_after st (take i l))
  <= weakness_counter (clusters_after st (take j l)).
Proof.
  intros Hij. rewrite <- (take_drop i (take j l)).
  rewrite take_take, Nat.min_l by exact Hij.
  rewrite clusters_after_app. apply counter_mono.
Qed.

(** ** Numbering of the clusters *)

Lemma founders_cons c out :
  founders (c :: out)
  = if is_cross_tool_dup c then founders out else c :: founders out.
Proof.
  unfold founders. rewrite filter_cons.
  destruct (is_cross_tool_dup c); [rewrite decide_False by discriminate
                                  | rewrite decide_True by reflexivity];
    reflexivity.
Qed.

(** The founders met from a state on carry the labels that follow its
    counter, in order. *)
Lemma founders_labels st l :
  unique_weakness_id <$> founders (assign_weaknesses st l)
  = weakness_label
    <$> seqZ (weakness_counter st + 1)
          (Z.of_nat (length (founders (assign_weaknesses st l)))).
Proof.
  revert st. induction l as [| f l IH]; intros st; [reflexivity |].
  rewrite assign_weaknesses_cons, founders_cons.
  specialize (IH (assign_weakness st f).1).
  step_cases st f Hfind Hstep; rewrite Hstep in *;
    cbn [fst snd is_cross_tool_dup weakness_counter] in IH |- *.
  - exact IH.
  - rewrite fmap_cons, length_cons, Nat2Z.inj_succ.
    rewrite (seqZ_cons (weakness_counter st + 1)) by lia.
    rewrite fmap_cons, IH, Z.pred_succ. reflexivity.
Qed.

(** X17. The clusters are numbered in the order in which they are
    opened: the records that are not flagged, taken in output order,
    carry W-001, W-002, ... without gap or repetition. *)
Theorem clusters_are_numbered_in_order (findings : list Finding) :
  unique_weakness_id <$> founders (deduplicate_and_assign_weaknesses findings)
  = weakness_label
    <$> seqZ 1 (Z.of_nat (length (founders
                   (deduplicate_and_assign_weaknesses findings)))).
Proof.
  unfold deduplicate_and_assign_weaknesses. apply founders_labels.
Qed.

(** ** The summary of an invocation *)

Lemma filter_flag_lengths (out : list clustered) :
  (length (founders out) + cross_tool_count out = length out)%nat.
Proof.
  unfold cross_tool_count.
  induction out as [| c out IH]; [reflexivity |].
  rewrite founders_cons, filter_cons.
  destruct (is_cross_tool_dup c);
    [rewrite decide_True by reflexivity | rewrite decide_False by discriminate];
    simpl; lia.
Qed.

Lemma NoDup_labels m n : 0 <= m -> NoDup (weakness_label <$> seqZ m n).
Proof.
  intros Hm. apply NoDup_fmap_2_strong; [| apply NoDup_seqZ].
  intros x y Hx%elem_of_seqZ Hy%elem_of_seqZ.
  apply weakness_label_inj; lia.
Qed.

(** X18. The three counts printed at the end of an invocation add up:
    the number of distinct weakness identifiers plus the number of
    flagged records is the total number of records. *)
Theorem summary_counts_add_up (findings : list Finding) :
  (distinct_weaknesses (deduplicate_and_assign_weaknesses findings)
   + cross_tool_count (deduplicate_and_assign_weaknesses findings)
   = length (deduplicate_and_assign_weaknesses findings))%nat.
Proof.
  set (out := deduplicate_and_assign_weaknesses findings).
  rewrite <- (filter_flag_lengths out). f_equal.
  unfold distinct_weaknesses.
  assert (Hset : (list_to_set (unique_weakness_id <$> out) : gset string)
                 = list_to_set (unique_weakness_id <$> founders out)).
  { apply set_eq. intros w. rewrite !elem_of_list_to_set, !list_elem_of_fmap.
    split; intros (c & -> & Hc).
    - destruct (is_cross_tool_dup c) eqn:Hflag.
      + apply list_elem_of_lookup in Hc as (i & Hi).
        destruct (flagged_has_founder [] initial_clusters
                    (within_tool_dedup ∅ findings) i c founded_initial Hi
                    (Nat.le_0_l i) Hflag)
          as (j & c' & _ & Hj & Hid & Hnf & _).
        exists c'. split; [symmetry; exact Hid |].
        apply list_elem_of_filter. split; [exact Hnf |].
        eapply list_elem_of_lookup_2. exact Hj.
      + exists c. split; [reflexivity |].
        apply list_elem_of_filter. split; assumption.
    - exists c. split; [reflexivity |].
      apply list_elem_of_filter in Hc as [_ Hc]. exact Hc. }
  rewrite Hset. unfold out at 1, deduplicate_and_assign_weaknesses.
  rewrite founders_labels.
  rewrite size_list_to_set by (apply NoDup_labels; simpl; lia).
  rewrite length_fmap, length_seqZ, Nat2Z.id. reflexivity.
Qed.

(** ** The weakness map as a record of the output *)

Lemma numbered_step st f : numbered st -> numbered (assign_weakness st f).1.
Proof.
  intros (Hc & Hids). unfold numbered.
  step_cases st f Hfind Hstep; rewrite Hstep;
    cbn [fst weakness_counter weakness_map].
  - split; [exact Hc |].
    apply list_find_Some in Hfind as (Hi & _).
    rewrite list_fmap_insert. cbn [wm_weakness_id]. rewrite <- Hids.
    apply list_insert_id. rewrite list_lookup_fmap, Hi. reflexivity.
  - split; [lia |].
    rewrite fmap_app, Hids.
    rewrite (seqZ_app 1 (weakness_counter st) 1) by lia.
    rewrite fmap_app. f_equal.
    rewrite (seqZ_cons (1 + weakness_counter st)) by lia.
    rewrite seqZ_nil by lia. rewrite !fmap_cons, !fmap_nil.
    cbn [wm_weakness_id]. do 2 f_equal. lia.
Qed.

(** Under the numbering, an identifier names one entry. *)
Lemma numbered_entry_unique st wm1 wm2 :
  numbered st -> wm1 ∈ weakness_map st -> wm2 ∈ weakness_map st ->
  wm_weakness_id wm1 = wm_weakness_id wm2 -> wm1 = wm2.
Proof.
  intros (Hc & Hids) (k1 & H1)%list_elem_of_lookup (k2 & H2)%list_elem_of_lookup
    Heq.
  assert (Hnd : NoDup (wm_weakness_id <$> weakness_map st)).
  { rewrite Hids. apply NoDup_labels. lia. }
  assert (k1 = k2) as ->.
  { eapply (NoDup_lookup _ _ _ _ Hnd);
      rewrite list_lookup_fmap; [rewrite H1 | rewrite H2]; simpl;
      [reflexivity | congruence]. }
  congruence.
Qed.

Lemma tracked_initial : tracked [] initial_clusters.
Proof.
  split; [split; [simpl; lia | reflexivity] |].
  split; [intros c Hc | intros wm Hwm]; inversion_clear Hc || inversion Hwm.
Qed.

Lemma tracked_step pre st f :
  tracked pre st ->
  tracked (pre ++ [(assign_weakness st f).2]) (assign_weakness st f).1.
Proof.
  intros (Hnum & Hrec & Hmap).
  split; [apply numbered_step, Hnum |].
  unfold entry_of in *.
  step_cases st f Hfind Hstep; rewrite Hstep;
    cbn [fst snd weakness_map weakness_counter].
  - apply list_find_Some in Hfind as (Hi & (Hne & Hcwe & Hfile & Hline) & _).
    set (wm' := mk_weakness (wm_cwe wm) (wm_file wm)
                  (Z.min (wm_line wm) (start_line f)) (wm_weakness_id wm)).
    assert (Hnew : wm' ∈ <[i := wm']> (weakness_map st)).
    { eapply list_elem_of_lookup_2, list_lookup_insert_eq.
      eapply lookup_lt_Some, Hi. }
    split.
    + intros c [Hc | Hc]%elem_of_app.
      * destruct (Hrec c Hc) as (wm0 & Hin & Hid & Hc0 & Hf0 & Hl0).
        apply list_elem_of_lookup in Hin as (k & Hk).
        destruct (decide (k = i)) as [-> | Hki].
        -- assert (wm0 = wm) as -> by congruence.
           exists wm'. repeat split; try assumption. simpl. lia.
        -- exists wm0. repeat split; try assumption.
           apply (list_elem_of_lookup_2 _ k).
           rewrite list_lookup_insert_ne by congruence. exact Hk.
      * apply list_elem_of_singleton in Hc as ->.
        exists wm'. split; [exact Hnew |].
        repeat split; simpl; try congruence; lia.
    + intros wm0 (k & Hk)%list_elem_of_lookup.
      apply list_lookup_insert_Some in Hk as [(-> & <- & _) | (_ & Hk)].
      * destruct (Z.min_spec (wm_line wm) (start_line f)) as [(_ & Hm) | (_ & Hm)].
        -- destruct (Hmap wm) as (c & Hc & Hid & Hl);
             [eapply list_elem_of_lookup_2; exact Hi |].
           exists c. split; [apply elem_of_app; left; exact Hc |].
           split; [exact Hid | simpl; congruence].
        -- exists (mk_clustered f (wm_weakness_id wm) true).
           split; [apply elem_of_app; right; left |].
           split; [reflexivity | simpl; congruence].
      * destruct (Hmap wm0) as (c & Hc & Hid & Hl);
          [eapply list_elem_of_lookup_2; exact Hk |].
        exists c. split; [apply elem_of_app; left; exact Hc |].
        split; assumption.
  - set (wid := weakness_label (weakness_counter st + 1)).
    set (new := mk_weakness (cwe_id f) (file_path f) (start_line f) wid).
    split.
    + intros c [Hc | Hc]%elem_of_app.
      * destruct (Hrec c Hc) as (wm0 & Hin & Hrest).
        exists wm0. split; [apply elem_of_app; left; exact Hin | exact Hrest].
      * apply list_elem_of_singleton in Hc as ->.
        exists new. split; [apply elem_of_app; right; left |].
        repeat split. simpl. lia.
    + intros wm0 [Hin | Hin]%elem_of_app.
      * destruct (Hmap wm0 Hin) as (c & Hc & Hrest).
        exists c. split; [apply elem_of_app; left; exact Hc | exact Hrest].
      * apply list_elem_of_singleton in Hin as ->.
        exists (mk_clustered f wid false).
        split; [apply elem_of_app; right; left | split; reflexivity].
Qed.

Lemma tracked_run pre st l :
  tracked pre st ->
  tracked (pre ++ assign_weaknesses st l) (clusters_after st l).
Proof.
  revert pre st. induction l as [| f l IH]; intros pre st Hinv.
  - simpl. rewrite app_nil_r. exact Hinv.
  - rewrite assign_weaknesses_cons, clusters_after_cons.
    rewrite (cons_middle _ pre), app_assoc. apply IH, tracked_step, Hinv.
Qed.

(** Two records with one identifier share their entry. *)
Lemma tracked_coherent pre st : tracked pre st -> coherent pre.
Proof.
  intros (Hnum & Hrec & _) c c' Hc Hc' Hid.
  destruct (Hrec c Hc) as (wm & Hin & Hw & Hcwe & Hfile & _).
  destruct (Hrec c' Hc') as (wm' & Hin' & Hw' & Hcwe' & Hfile' & _).
  assert (wm = wm') as <-
    by (eapply numbered_entry_unique; eauto; congruence).
  split; congruence.
Qed.

(** X19. The records of one cluster agree on category and file: two
    output records with the same weakness identifier have the same
    [cwe_id] and the same [file_path], so findings whose categories are
    spelt differently are never merged. *)
Theorem clusters_are_coherent (findings : list Finding) :
  coherent (deduplicate_and_assign_weaknesses findings).
Proof.
  unfold deduplicate_and_assign_weaknesses.
  apply (tracked_coherent _ (clusters_after initial_clusters
                               (within_tool_dedup ∅ findings))).
  apply (tracked_run [] initial_clusters), tracked_initial.
Qed.

(** A flagged record lies within three lines of the lowest line among
    the records of the cluster it joins. *)
Lemma flagged_step_within_three pre st f :
  tracked pre st ->
  is_cross_tool_dup (assign_weakness st f).2 = true ->
  exists j c', pre !! j = Some c'
    /\ unique_weakness_id c' = unique_weakness_id (assign_weakness st f).2
    /\ Z.abs (start_line f - start_line (c_finding c')) <= 3
    /\ forall k c'', pre !! k = Some c'' ->
         unique_weakness_id c'' = unique_weakness_id (assign_weakness st f).2 ->
         start_line (c_finding c') <= start_line (c_finding c'').
Proof.
  intros (Hnum & Hrec & Hmap).
  step_cases st f Hfind Hstep; rewrite Hstep; simpl; [intros _ | discriminate].
  apply list_find_Some in Hfind as (Hi & (_ & _ & _ & Hline) & _).
  assert (Hwm : wm ∈ weakness_map st)
    by (eapply list_elem_of_lookup_2; exact Hi).
  destruct (Hmap wm Hwm) as (c' & (j & Hj)%list_elem_of_lookup & Hid & Hl).
  exists j, c'. split; [exact Hj |]. split; [exact Hid |].
  split; [rewrite Hl; exact Hline |].
  intros k c'' Hk Hid''.
  destruct (Hrec c'') as (wm'' & Hin & Hw & _ & _ & Hle);
    [eapply list_elem_of_lookup_2; exact Hk |].
  assert (wm'' = wm) as ->
    by (eapply numbered_entry_unique; eauto; congruence).
  lia.
Qed.

(** X20. A flagged record lies within three lines of an earlier record
    of its cluster whose line is the lowest among the earlier records of
    that cluster: the line the cluster's anchor holds at that moment. *)
Theorem flagged_is_within_three_of_lowest (findings : list Finding) :
  within_three_of_lowest (deduplicate_and_assign_weaknesses findings).
Proof.
  intros i c Hi Hflag. unfold deduplicate_and_assign_weaknesses in *.
  set (l := within_tool_dedup ∅ findings) in *.
  destruct (assign_weaknesses_lookup _ _ _ _ Hi) as (f & Hf & -> & Htake).
  assert (Hinv : tracked (assign_weaknesses initial_clusters (take i l))
                   (clusters_after initial_clusters (take i l)))
    by apply (tracked_run [] initial_clusters), tracked_initial.
  destruct (flagged_step_within_three _ _ f Hinv Hflag)
    as (j & c' & Hj & Hid & Hline & Hlow).
  rewrite <- Htake in Hj, Hlow.
  assert (Hji : (j < i)%nat).
  { apply lookup_lt_Some in Hj. rewrite length_take in Hj. lia. }
  exists j, c'. split; [exact Hji |].
  rewrite lookup_take_lt in Hj by exact Hji.
  split; [exact Hj |]. split; [exact Hid |].
  rewrite assign_weakness_finding. split; [exact Hline |].
  intros k c'' Hki Hk Hid''.
  apply (Hlow k c''); [rewrite lookup_take_lt by exact Hki; exact Hk |].
  exact Hid''.
Qed.

(** ** Findings without category *)

Lemma assign_weakness_uncategorised st f :
  cwe_id f = "" -> list_find (wm_matches f) (weakness_map st) = None.
Proof.
  intros Hf. apply list_find_None, Forall_forall.
  intros wm _ (Hne & _). congruence.
Qed.

(** The identifier of a founder is the label that follows the counter
    reached before it. *)
Lemma founder_label st l i c :
  assign_weaknesses st l !! i = Some c -> is_cross_tool_dup c = false ->
  unique_weakness_id c
  = weakness_label (weakness_counter (clusters_after st (take i l)) + 1)
    /\ weakness_counter (clusters_after st (take (S i) l))
       = weakness_counter (clusters_after st (take i l)) + 1.
Proof.
  intros Hi Hflag.
  destruct (assign_weaknesses_lookup _ _ _ _ Hi) as (f & Hf & -> & _).
  rewrite (take_S_r l i f Hf), clusters_after_app.
  change (clusters_after ?s [f]) with (assign_weakness s f).1.
  rewrite counter_step, Hflag. split; [| reflexivity].
  revert Hflag.
  step_cases (clusters_after st (take i l)) f Hfind Hstep; rewrite Hstep;
    simpl; [discriminate | reflexivity].
Qed.

(** Two founders at different positions carry different identifiers. *)
Lemma founders_differ st l i j c c' :
  0 <= weakness_counter st ->
  assign_weaknesses st l !! i = Some c -> is_cross_tool_dup c = false ->
  assign_weaknesses st l !! j = Some c' -> is_cross_tool_dup c' = false ->
  unique_weakness_id c = unique_weakness_id c' -> i = j.
Proof.
  intros Hst Hi Hc Hj Hc' Hid.
  destruct (founder_label _ _ _ _ Hi Hc) as (Hli & Hsi).
  destruct (founder_label _ _ _ _ Hj Hc') as (Hlj & Hsj).
  rewrite Hli, Hlj in Hid.
  pose proof (counter_mono st (take i l)) as Hmi.
  pose proof (counter_mono st (take j l)) as Hmj.
  apply weakness_label_inj in Hid; [| lia | lia].
  destruct (Nat.lt_trichotomy i j) as [Hlt | [Heq | Hlt]]; [| exact Heq |].
  - pose proof (counter_take_mono st l (S i) j Hlt). lia.
  - pose proof (counter_take_mono st l (S j) i Hlt). lia.
Qed.

(** X21. A finding without category is never flagged and forms a
    cluster of its own: no other output record carries its weakness
    identifier, whatever file and line the two have. *)
Theorem uncategorised_findings_stay_alone (findings : list Finding) :
  uncategorised_alone (deduplicate_and_assign_weaknesses findings).
Proof.
  intros i c Hi Hcwe.
  assert (Hcoh : coherent (deduplicate_and_assign_weaknesses findings)).
  { unfold deduplicate_and_assign_weaknesses.
    apply (tracked_coherent _ (clusters_after initial_clusters
                                 (within_tool_dedup ∅ findings))).
    apply (tracked_run [] initial_clusters), tracked_initial. }
  unfold deduplicate_and_assign_weaknesses in *.
  set (l := within_tool_dedup ∅ findings) in *.
  assert (Hunflagged : forall k x,
            assign_weaknesses initial_clusters l !! k = Some x ->
            cwe_id (c_finding x) = "" -> is_cross_tool_dup x = false).
  { intros k x Hk Hx.
    destruct (assign_weaknesses_lookup _ _ _ _ Hk) as (f & _ & -> & _).
    rewrite assign_weakness_finding in Hx.
    rewrite (assign_weakness_opened _ f)
      by (apply assign_weakness_uncategorised, Hx).
    reflexivity. }
  split; [eapply Hunflagged; eassumption |].
  intros j c' Hj Hid.
  destruct (Hcoh c' c) as (Hsame & _);
    [eapply list_elem_of_lookup_2; eassumption.. | exact Hid |].
  eapply (founders_differ initial_clusters l j i c' c); eauto.
  - simpl. lia.
  - eapply Hunflagged; [exact Hj | congruence].
Qed.

Lemma clusters_are_coherent_witness :
  cwe_id (finding_at "codeql" "java/sql-injection" "CWE-89" "src/Dao.java" 10)
  = cwe_id (finding_at "semgrep" "java.lang.security.sqli" "CWE-89"
              "src/Dao.java" 13)
  /\ file_path (finding_at "codeql" "java/sql-injection" "CWE-89"
                  "src/Dao.java" 10)
     = file_path (finding_at "semgrep" "java.lang.security.sqli" "CWE-89"
                    "src/Dao.java" 13).
Proof.
  apply (clusters_are_coherent sqli_10_13_16
           (mk_clustered
              (finding_at "codeql" "java/sql-injection" "CWE-89"
                 "src/Dao.java" 10) "W-001" false)
           (mk_clustered
              (finding_at "semgrep" "java.lang.security.sqli" "CWE-89"
                 "src/Dao.java" 13) "W-001" true)).
  - vm_compute. left.
  - vm_compute. right. left.
  - reflexivity.
Defined.

Lemma flagged_is_within_three_of_lowest_witness :
  exists j c',
    (j < 2)%nat
    /\ deduplicate_and_assign_weaknesses sqli_16_13_10 !! j = Some c'
    /\ unique_weakness_id c' = "W-001"
    /\ Z.abs (10 - start_line (c_finding c')) <= 3
    /\ forall k c'', (k < 2)%nat ->
         deduplicate_and_assign_weaknesses sqli_16_13_10 !! k = Some c'' ->
         unique_weakness_id c'' = "W-001" ->
         start_line (c_finding c') <= start_line (c_finding c'').
Proof.
  apply (flagged_is_within_three_of_lowest sqli_16_13_10 2%nat
           (mk_clustered
              (finding_at "codeql" "java/sql-injection" "CWE-89"
                 "src/Dao.java" 10) "W-001" true));
    vm_compute; reflexivity.
Defined.

Lemma uncategorised_findings_stay_alone_witness :
  is_cross_tool_dup
    (mk_clustered (finding_at "semgrep" "java.unused" "" "src/Dao.java" 10)
       "W-002" false) = false
  /\ forall j c',
       deduplicate_and_assign_weaknesses uncategorised_pair !! j = Some c' ->
       unique_weakness_id c' = "W-002" -> j = 1%nat.
Proof.
  apply (uncategorised_findings_stay_alone uncategorised_pair 1%nat
           (mk_clustered (finding_at "semgrep" "java.unused" "" "src/Dao.java" 10)
              "W-002" false));
    vm_compute; reflexivity.
Defined.

(** ** Two findings *)

Lemma dedup_pair f1 f2 :
  key_of f1 <> key_of f2 -> within_tool_dedup ∅ [f1; f2] = [f1; f2].
Proof.
  intros Hne. apply dedup_NoDup_id.
  - simpl. constructor; [| constructor; [apply not_elem_of_nil | constructor]].
    intros Hin%list_elem_of_singleton. exact (Hne Hin).
  - intros g _. apply not_elem_of_empty.
Qed.

(** X22. For two findings with different keys, the second joins the
    cluster of the first exactly when it has a category, the category and
    the file are those of the first, and the lines are at most three
    apart, whether or not the two come from different tools; it is then
    flagged and shares W-001, and otherwise opens W-002. *)
Theorem two_findings_share_a_cluster_iff_near (f1 f2 : Finding) :
  key_of f1 <> key_of f2 ->
  labels (deduplicate_and_assign_weaknesses [f1; f2])
  = if decide (near f1 f2)
    then [("W-001", false); ("W-001", true)]
    else [("W-001", false); ("W-002", false)].
Proof.
  intros Hne. unfold deduplicate_and_assign_weaknesses.
  rewrite (dedup_pair f1 f2 Hne).
  set (wm1 := mk_weakness (cwe_id f1) (file_path f1) (start_line f1) "W-001").
  assert (S1 : assign_weakness initial_clusters f1
               = (mk_cluster_state 1 [wm1], mk_clustered f1 "W-001" false))
    by reflexivity.
  rewrite !assign_weaknesses_cons, S1. cbn [fst snd].
  destruct (decide (near f1 f2)) as [Hnear | Hfar].
  - assert (F2 : list_find (wm_matches f2) [wm1] = Some (0%nat, wm1)).
    { apply list_find_Some. split; [reflexivity |]. split; [exact Hnear |].
      intros j y Hj Hlt. lia. }
    rewrite (assign_weakness_joined (mk_cluster_state 1 [wm1]) f2 _ _ F2).
    reflexivity.
  - assert (F2 : list_find (wm_matches f2) [wm1] = None).
    { apply list_find_None. constructor; [exact Hfar | constructor]. }
    rewrite (assign_weakness_opened (mk_cluster_state 1 [wm1]) f2 F2).
    reflexivity.
Qed.

Lemma two_findings_share_a_cluster_iff_near_witness :
  labels (deduplicate_and_assign_weaknesses same_tool_pair)
  = [("W-001", false); ("W-001", true)].
Proof.
  apply (two_findings_share_a_cluster_iff_near
           (finding_at "codeql" "java/sql-injection" "CWE-89" "src/Dao.java" 10)
           (finding_at "codeql" "java/concatenated-sql-query" "CWE-89"
              "src/Dao.java" 11)).
  discriminate.
Defined.

(** ** Findings in descending line order *)

(** From a state whose only cluster is anchored at [anchor], findings of
    that category and file whose lines go down in steps of at most three
    all join the cluster. *)
Lemma descending_join c p anchor l :
  c <> "" ->
  Forall (fun f => cwe_id f = c /\ file_path f = p) l ->
  descends anchor l ->
  labels (assign_weaknesses
            (mk_cluster_state 1 [mk_weakness c p anchor "W-001"]) l)
  = replicate (length l) ("W-001", true).
Proof.
  intros Hc Hall. revert anchor.
  induction Hall as [| f l (Hcwe & Hfile) _ IH]; intros anchor Hdesc;
    [reflexivity |].
  destruct Hdesc as (Hstep & Hdesc).
  set (wm := mk_weakness c p anchor "W-001").
  assert (Hfind : list_find (wm_matches f) [wm] = Some (0%nat, wm)).
  { apply list_find_Some. split; [reflexivity |]. split.
    - unfold wm_matches. simpl. repeat split; try congruence. lia.
    - intros j y Hj Hlt. lia. }
  rewrite assign_weaknesses_cons.
  rewrite (assign_weakness_joined (mk_cluster_state 1 [wm]) f _ _ Hfind).
  cbn [fst snd wm_cwe wm_file wm_line wm_weakness_id wm weakness_counter
       weakness_map].
  rewrite (Z.min_r anchor (start_line f)) by lia.
  unfold labels in *. rewrite fmap_cons. simpl replicate.
  f_equal. apply (IH (start_line f) Hdesc).
Qed.

(** X23. Findings of one category and one file that arrive in
    descending line order, each at most three lines before the previous
    one, form a single cluster however far the last lies from the first:
    the first opens W-001 and every later one joins it, because the
    anchor follows the lowest line. *)
Theorem descending_lines_make_one_cluster
    (c p : string) (f : Finding) (rest : list Finding) :
  c <> "" ->
  Forall (fun g => cwe_id g = c /\ file_path g = p) (f :: rest) ->
  descends (start_line f) rest ->
  NoDup (key_of <$> f :: rest) ->
  labels (deduplicate_and_assign_weaknesses (f :: rest))
  = ("W-001", false) :: replicate (length rest) ("W-001", true).
Proof.
  intros Hc Hall Hdesc Hnd. unfold deduplicate_and_assign_weaknesses.
  rewrite (dedup_NoDup_id ∅ (f :: rest) Hnd)
    by (intros g _; apply not_elem_of_empty).
  apply Forall_cons in Hall as ((Hcwe & Hfile) & Hall).
  rewrite assign_weaknesses_cons.
  assert (S1 : assign_weakness initial_clusters f
               = (mk_cluster_state 1
                    [mk_weakness c p (start_line f) "W-001"],
                  mk_clustered f "W-001" false)).
  { rewrite <- Hcwe, <- Hfile. reflexivity. }
  rewrite S1. cbn [fst snd]. unfold labels. rewrite fmap_cons. f_equal.
  apply (descending_join c p (start_line f) rest Hc Hall Hdesc).
Qed.

Lemma descending_lines_make_one_cluster_witness :
  labels (deduplicate_and_assign_weaknesses sqli_16_13_10)
  = ("W-001", false) :: replicate 2 ("W-001", true).
Proof.
  apply (descending_lines_make_one_cluster "CWE-89" "src/Dao.java"
           (finding_at "depcheck" "CVE-2020-0001" "CWE-89" "src/Dao.java" 16)
           [finding_at "semgrep" "java.lang.security.sqli" "CWE-89"
              "src/Dao.java" 13;
            finding_at "codeql" "java/sql-injection" "CWE-89"
              "src/Dao.java" 10]).
  - discriminate.
  - repeat constructor.
  - simpl. lia.
  - apply (bool_decide_unpack _). vm_compute. reflexivity.
Defined.

(** ** The identifiers of the appended records *)

Lemma assign_finding_ids_labels next_id findings records :
  assign_finding_ids next_id findings = Ok records ->
  finding_id <$> records
  = finding_label <$> seqZ next_id (Z.of_nat (length findings)).
Proof.
  revert next_id records.
  induction findings as [| f rest IH]; intros next_id records Hrun.
  - injection Hrun as <-. reflexivity.
  - apply assign_finding_ids_cons in Hrun as (_ & tail & Hrest & ->).
    rewrite fmap_cons, length_cons, Nat2Z.inj_succ.
    rewrite seqZ_cons by lia. rewrite fmap_cons, (IH _ _ Hrest), Z.pred_succ.
    reflexivity.
Qed.

Lemma assign_finding_ids_length next_id findings records :
  assign_finding_ids next_id findings = Ok records ->
  length records = length findings.
Proof.
  intros Hrun.
  rewrite <- (assign_finding_ids_findings _ _ _ Hrun).
  rewrite length_fmap. reflexivity.
Qed.

Lemma finding_label_inj n m :
  0 <= n -> 0 <= m -> finding_label n = finding_label m -> n = m.
Proof.
  intros Hn Hm Heq. unfold finding_label in Heq.
  change (String "F" (String "-" (fmt_03d n))
          = String "F" (String "-" (fmt_03d m))) in Heq.
  injection Heq as Heq.
  destruct (fmt_03d_digits n Hn) as (_ & _ & Hvn).
  destruct (fmt_03d_digits m Hm) as (_ & _ & Hvm). congruence.
Qed.

Lemma NoDup_finding_labels m n : 0 <= m -> NoDup (finding_label <$> seqZ m n).
Proof.
  intros Hm. apply NoDup_fmap_2_strong; [| apply NoDup_seqZ].
  intros x y Hx%elem_of_seqZ Hy%elem_of_seqZ.
  apply finding_label_inj; lia.
Qed.

(** The scan never goes down, and ends above the number of every row it
    read. *)
Lemma scan_rows_bounds header next_id rows m :
  scan_rows header next_id rows = Ok m ->
  next_id <= m
  /\ forall cells, cells ∈ rows -> cells <> [] ->
       exists num, finding_number (row_finding_id header cells) = Ok num
                   /\ num < m.
Proof.
  revert next_id. induction rows as [| cells rest IH]; intros next_id Hscan.
  - injection Hscan as <-. split; [lia |]. intros cells Hin. inversion Hin.
  - destruct cells as [| c cs].
    + destruct (IH next_id Hscan) as (Hle & Hrows).
      split; [exact Hle |].
      intros cells [-> | Hin]%elem_of_cons Hne; [congruence | auto].
    + change (scan_rows header next_id ((c :: cs) :: rest))
        with (num ← finding_number (row_finding_id header (c :: cs));
              scan_rows header (Z.max next_id (num + 1)) rest) in Hscan.
      bind_inv Hscan. destruct (IH _ Hscan) as (Hle & Hrows).
      split; [lia |].
      intros cells [-> | Hin]%elem_of_cons Hne; [| auto].
      eexists. split; [eassumption | lia].
Qed.

Lemma scan_rows_unreadable header next_id rows cells :
  cells ∈ rows -> unreadable_row header cells ->
  is_ok (scan_rows header next_id rows) = false.
Proof.
  intros Hin (Hne & Hbad).
  destruct (scan_rows header next_id rows) as [m |] eqn:Hscan; [| reflexivity].
  destruct (scan_rows_bounds _ _ _ _ Hscan) as (_ & Hrows).
  destruct (Hrows cells Hin Hne) as (num & Hnum & _).
  rewrite Hnum in Hbad. discriminate.
Qed.

Lemma last_index_absent name header i :
  name ∉ header -> last_index name header i = None.
Proof.
  revert i. induction header as [| h rest IH]; intros i Hout; [reflexivity |].
  simpl. rewrite IH by (intros Hin; apply Hout; right; exact Hin).
  rewrite bool_decide_eq_false_2; [reflexivity |].
  intros ->. apply Hout. left.
Qed.

(** X24. When the header of the store has no column called
    [finding_id], every row counts as F-000 and the next identifier is 1
    whatever identifiers the rows hold elsewhere: the numbering starts
    again at F-001. *)
Theorem store_without_id_column_restarts_at_one
    (header : list string) (rows : list (list string)) :
  "finding_id" ∉ header ->
  (forall cells, row_finding_id header cells = Some "F-000")
  /\ next_id_of_table (header :: rows) = Ok 1
  /\ forall findings records first,
       assign_finding_ids 1 findings = Ok records ->
       head records = Some first ->
       finding_id first = "F-001".
Proof.
  intros Hout.
  assert (Hrow : forall cells, row_finding_id header cells = Some "F-000").
  { intros cells. unfold row_finding_id.
    rewrite (last_index_absent _ _ _ Hout). reflexivity. }
  split; [exact Hrow |]. split.
  - simpl. induction rows as [| cells rest IH]; [reflexivity |].
    destruct cells as [| c cs]; [exact IH |].
    change (scan_rows header 1 ((c :: cs) :: rest))
      with (num ← finding_number (row_finding_id header (c :: cs));
            scan_rows header (Z.max 1 (num + 1)) rest).
    rewrite Hrow. exact IH.
  - intros [| f rest] records first Hrun.
    + injection Hrun as <-. discriminate.
    + apply assign_finding_ids_cons in Hrun as (_ & tail & _ & ->).
      intros [= <-]. reflexivity.
Qed.

Lemma store_without_id_column_restarts_at_one_witness :
  next_id_of_table store_with_id_column = Ok 1
  /\ row_finding_id ["id"; "tool"] ["F-042"; "semgrep"] = Some "F-000".
Proof.
  destruct (store_without_id_column_restarts_at_one ["id"; "tool"]
              [["F-041"; "codeql"]; ["F-042"; "semgrep"]])
    as (Hrow & Hnext & _).
  - intros Hin. repeat (apply elem_of_cons in Hin as [Hin | Hin];
                        [discriminate Hin |]).
    inversion Hin.
  - split; [exact Hnext | apply Hrow].
Defined.

(** ** What an invocation appends *)

Lemma cells_of_width `{Runtime} (r : record) :
  length (cells_of r) = length fieldnames.
Proof. reflexivity. Qed.

Section AppendedRecords.
Context `{Runtime}.

Lemma enrich_stamped a d f : enrich a d = Ok f -> stamped a f.
Proof.
  unfold enrich.
  destruct (d_rule_id d), (d_file_path d), (d_start_line d), (d_description d);
    try discriminate.
  intros [= <-]. repeat split.
Qed.

(** The scan of a store in which the reader finds no data row ends
    at 1. *)
Lemma scan_output_without_rows text next_id :
  without_rows (Some text) -> scan_output text = Ok next_id -> next_id = 1.
Proof.
  unfold without_rows, scan_output. intros Hrows.
  destruct (csv_reader text) as [table err]. simpl in *.
  destruct table as [| header rows]; simpl in *.
  - destruct err; congruence.
  - subst rows. simpl. destruct err; congruence.
Qed.

(** The scan of a store whose reader yields a header and rows is the
    scan of these rows, if the reader ends without error. *)
Lemma scan_output_rows text header rows next_id :
  (csv_reader text).1 = header :: rows ->
  scan_output text = Ok next_id ->
  scan_rows header 1 rows = Ok next_id.
Proof.
  unfold scan_output. intros ->. simpl.
  destruct (scan_rows header 1 rows) as [n |]; [| discriminate].
  simpl. destruct (csv_reader text).2; congruence.
Qed.

(** X25. A completed invocation only appends: the report files are as
    they were; the text that the store held is still there, unchanged,
    at the head of the new text, whether or not it ended with a line
    end; the header line follows it exactly when the file did not exist;
    then comes the text of the new records, each of as many cells as
    there are field names. *)
Theorem completed_run_only_appends (a : args) (w w' : world) :
  main a w = (Ok (), w') ->
  files w' = files w
  /\ exists records : list (list string),
       store w'
       = Some (default "" (store w)
               +:+ match store w with
                   | Some _ => ""
                   | None => csv_line fieldnames
                   end
               +:+ csv_text records)
       /\ Forall (fun cells => length cells = length fieldnames) records.
Proof.
  intros Hrun.
  destruct (main_run a w w' Hrun)
    as (ds & fs & n & rs & _ & _ & _ & _ & _ & Hstore & Hfiles).
  split; [exact Hfiles |]. exists (cells_of <$> rs). split; [exact Hstore |].
  apply Forall_fmap, Forall_forall. intros r _. apply cells_of_width.
Qed.

(** X26. Every record a completed invocation hands to the writer
    carries the pull request number, task, condition, AI share and
    pipeline given on the command line, empty triage status and notes,
    and the fingerprint computed from its own tool, rule, file and line;
    the text of these records is what the invocation adds to the
    store. *)
Theorem appended_records_are_stamped (a : args) (w w' : world) :
  main a w = (Ok (), w') ->
  exists records,
    store w' = Some (appended (store w) (cells_of <$> records))
    /\ Forall (fun r => stamped a (c_finding (r_clustered r))) records.
Proof.
  intros Hrun.
  destruct (main_run a w w' Hrun)
    as (ds & fs & n & rs & _ & Hfs & _ & Hrs & _ & Hstore & _).
  exists rs. split; [exact Hstore |].
  apply Forall_forall. intros r Hr.
  assert (Hin : c_finding (r_clustered r) ∈ fs).
  { eapply elem_of_sublist; [| apply (dedup_sublist ∅ fs)].
    rewrite <- (assign_weaknesses_findings initial_clusters
                  (within_tool_dedup ∅ fs)).
    apply list_elem_of_fmap. exists (r_clustered r). split; [reflexivity |].
    unfold deduplicate_and_assign_weaknesses in Hrs.
    rewrite <- (assign_finding_ids_findings _ _ _ Hrs).
    apply list_elem_of_fmap. eauto. }
  apply traverse_Ok in Hfs.
  apply list_elem_of_lookup in Hin as (i & Hi).
  destruct (Forall2_lookup_r _ _ _ _ _ Hfs Hi) as (d & _ & Hd).
  eapply enrich_stamped, Hd.
Qed.

(** X27. A store in which the reader finds no data row (no file, an
    empty file, or a header alone) makes the numbering start at 1: the
    records whose text a completed invocation adds carry F-001, F-002,
    ... in output order. *)
Theorem rowless_store_numbers_from_one (a : args) (w w' : world) :
  without_rows (store w) ->
  main a w = (Ok (), w') ->
  exists records,
    store w' = Some (appended (store w) (cells_of <$> records))
    /\ finding_id <$> records
       = finding_label <$> seqZ 1 (Z.of_nat (length records)).
Proof.
  intros Hrows Hrun.
  destruct (main_run a w w' Hrun)
    as (ds & fs & n & rs & _ & _ & Hn & Hrs & _ & Hstore & _).
  assert (n = 1) as ->.
  { destruct (store w) as [text |]; [| exact Hn].
    destruct Hn as (_ & Hn).
    exact (scan_output_without_rows text n Hrows Hn). }
  exists rs. split; [exact Hstore |].
  rewrite (assign_finding_ids_labels _ _ _ Hrs),
    (assign_finding_ids_length _ _ _ Hrs).
  reflexivity.
Qed.

(** X28. A completed invocation never reuses an identifier: the
    identifiers of the records whose text it adds to the store are
    pairwise different, and none of them is the identifier of a row that
    the reader found in the store. *)
Theorem new_identifiers_are_fresh
    (a : args) (w w' : world) (text : string) (header : list string)
    (rows : list (list string)) :
  store w = Some text ->
  (csv_reader text).1 = header :: rows ->
  main a w = (Ok (), w') ->
  exists records,
    store w' = Some (text +:+ csv_text (cells_of <$> records))
    /\ NoDup (finding_id <$> records)
    /\ forall r cells, r ∈ records -> cells ∈ rows -> cells <> [] ->
         row_finding_id header cells <> Some (finding_id r).
Proof.
  intros Hw Hreader Hrun.
  destruct (main_run a w w' Hrun)
    as (ds & fs & n & rs & _ & _ & Hn & Hrs & _ & Hstore & _).
  rewrite Hw in Hn, Hstore. destruct Hn as (_ & Hn).
  apply (scan_output_rows _ _ _ _ Hreader) in Hn.
  destruct (scan_rows_bounds _ _ _ _ Hn) as (Hn1 & Hbelow).
  exists rs. split; [exact Hstore |]. split.
  - rewrite (assign_finding_ids_labels _ _ _ Hrs).
    apply NoDup_finding_labels. lia.
  - intros r cells Hr Hcells Hne Heq.
    destruct (Hbelow cells Hcells Hne) as (num & Hnum & Hlt).
    apply list_elem_of_lookup in Hr as (i & Hi).
    assert (Hlen : (i < length (deduplicate_and_assign_weaknesses fs))%nat).
    { rewrite <- (assign_finding_ids_length _ _ _ Hrs).
      apply lookup_lt_is_Some. eauto. }
    rewrite (assign_finding_ids_lookup _ _ _ i Hrs) in Hi.
    destruct (deduplicate_and_assign_weaknesses fs !! i) as [c |];
      [| discriminate].
    injection Hi as <-.
    rewrite Heq in Hnum. cbn [finding_id] in Hnum.
    rewrite finding_number_label in Hnum.
    + injection Hnum as <-. lia.
    + lia.
    + exact (assign_finding_ids_fits _ _ _ i Hrs Hlen).
Qed.

(** X29. A store with a data row whose identifier the scan cannot read
    (no dash in it, no number after the dash, or a row too short to have
    the cell) blocks every later invocation: none completes, and the
    store stays as it is. *)
Theorem unreadable_identifier_blocks_the_run
    (a : args) (w : world) (text : string) (header : list string)
    (rows : list (list string)) (cells : list string) :
  store w = Some text ->
  (csv_reader text).1 = header :: rows ->
  cells ∈ rows ->
  unreadable_row header cells ->
  (main a w).1 <> Ok () /\ store (main a w).2 = store w.
Proof.
  intros Hw Hreader Hin Hbad.
  assert (Hnot : (main a w).1 <> Ok ()).
  { intros Hok. destruct (main a w) as [r w'] eqn:Hrun. simpl in Hok. subst r.
    destruct (main_run a w w' Hrun) as (_ & _ & n & _ & _ & _ & Hn & _).
    rewrite Hw in Hn. destruct Hn as (_ & Hn).
    apply (scan_output_rows _ _ _ _ Hreader) in Hn.
    pose proof (scan_rows_unreadable header 1 rows cells Hin Hbad) as Hscan.
    rewrite Hn in Hscan. discriminate. }
  split; [exact Hnot |]. apply main_unwritten.
  destruct (main a w).1 as [[] |]; [congruence | reflexivity].
Qed.

Lemma parse_optional_absent path adapter label w :
  effective path w = None ->
  parse_optional path adapter label w = (Ok [], w).
Proof.
  intros Heff. unfold parse_optional.
  rewrite bind_run, given_and_exists_run, Heff. reflexivity.
Qed.

Lemma parse_semgrep_absent a w :
  effective (a_semgrep_json a) w = None ->
  effective (a_semgrep_sarif a) w = None ->
  parse_semgrep a w = (Ok [], w).
Proof.
  intros Hj Hs. unfold parse_semgrep.
  rewrite bind_run, given_and_exists_run, Hj.
  rewrite bind_run, given_and_exists_run, Hs. reflexivity.
Qed.

(** X30. When no report is found and the store, if there is one, can be
    scanned, the outcome depends on the output path alone. If it can be
    opened for appending, the invocation completes: it prints that no
    tool had findings and a summary of zeros, creates the store with the
    header line alone if the file did not exist, and leaves the text of
    an existing store as it was. If it cannot (its directory is missing,
    say), the invocation raises [OSError] and there is still no store,
    or the store it found. *)
Theorem run_without_reports_adds_no_row (a : args) (w : world) :
  no_report_found a w ->
  store_scans w ->
  (writable w = true ->
   main a w
   = (Ok (),
      mk_world (files w) (Some (default (csv_line fieldnames) (store w)))
        (console w
         ++ ["  No findings from any tool."; "";
             "  Total findings:      0"; "  Unique weaknesses:   0";
             "  Cross-tool overlaps: 0";
             "  Written to:          " +:+ a_output a])
        (readable w) (writable w)))
  /\ (writable w = false ->
      (main a w).1 = Raise OSError /\ store (main a w).2 = store w).
Proof.
  intros (Hc & Hj & Hs & Hg & Hd) Hscan. unfold main.
  rewrite bind_run, (parse_optional_absent _ _ _ _ Hc).
  rewrite bind_run, (parse_semgrep_absent _ _ Hj Hs).
  rewrite bind_run, (parse_optional_absent _ _ _ _ Hg).
  rewrite bind_run, (parse_optional_absent _ _ _ _ Hd).
  destruct w as [fs st cs rd wr]. unfold store_scans in Hscan.
  simpl in Hscan |- *.
  destruct st as [text |].
  - destruct Hscan as (-> & Hscan).
    destruct (scan_output text) as [n |] eqn:Hn; [| discriminate].
    split; intros ->.
    + unfold mbind, io_bind, read_output, lift, output_exists, append_output,
        print. simpl. rewrite Hn. simpl.
      rewrite str_app_empty, <- !app_assoc. reflexivity.
    + unfold mbind, io_bind, read_output, lift, output_exists, append_output,
        print. simpl. rewrite Hn. simpl. split; reflexivity.
  - split; intros ->.
    + unfold mbind, io_bind, output_exists, append_output, print. simpl.
      rewrite str_app_empty, <- !app_assoc. reflexivity.
    + unfold mbind, io_bind, output_exists, append_output, print. simpl.
      split; reflexivity.
Qed.

End AppendedRecords.

Lemma completed_run_only_appends_witness :
  files (@main plain_runtime gitleaks_args gitleaks_world_unterminated).2
  = files gitleaks_world_unterminated
  /\ exists records : list (list string),
       store (@main plain_runtime gitleaks_args gitleaks_world_unterminated).2
       = Some (unterminated_text +:+ ""
               +:+ @csv_text plain_runtime records)
       /\ Forall (fun cells => length cells = length fieldnames) records.
Proof.
  apply (@completed_run_only_appends plain_runtime gitleaks_args
           gitleaks_world_unterminated
           (@main plain_runtime gitleaks_args gitleaks_world_unterminated).2).
  vm_compute. reflexivity.
Defined.

Lemma appended_records_are_stamped_witness :
  exists records,
    store (@main plain_runtime gitleaks_args gitleaks_world).2
    = Some (@appended plain_runtime None
              (@cells_of plain_runtime <$> records))
    /\ Forall (fun r => @stamped plain_runtime gitleaks_args
                          (c_finding (r_clustered r))) records.
Proof.
  apply (@appended_records_are_stamped plain_runtime gitleaks_args
           gitleaks_world
           (@main plain_runtime gitleaks_args gitleaks_world).2).
  vm_compute. reflexivity.
Defined.

Lemma rowless_store_numbers_from_one_witness :
  exists records,
    store (@main plain_runtime gitleaks_args gitleaks_world).2
    = Some (@appended plain_runtime None
              (@cells_of plain_runtime <$> records))
    /\ finding_id <$> records
       = finding_label <$> seqZ 1 (Z.of_nat (length records)).
Proof.
  apply (@rowless_store_numbers_from_one plain_runtime gitleaks_args
           gitleaks_world
           (@main plain_runtime gitleaks_args gitleaks_world).2).
  - exact I.
  - vm_compute. reflexivity.
Defined.

Lemma new_identifiers_are_fresh_witness :
  exists records,
    store (@main plain_runtime gitleaks_args gitleaks_world_after_7).2
    = Some (plain_text store_up_to_7
            +:+ @csv_text plain_runtime (@cells_of plain_runtime <$> records))
    /\ NoDup (finding_id <$> records)
    /\ forall r cells, r ∈ records -> cells ∈ tail store_up_to_7 ->
         cells <> [] ->
         row_finding_id fieldnames cells <> Some (finding_id r).
Proof.
  apply (@new_identifiers_are_fresh plain_runtime gitleaks_args
           gitleaks_world_after_7
           (@main plain_runtime gitleaks_args gitleaks_world_after_7).2).
  - reflexivity.
  - vm_compute. reflexivity.
  - vm_compute. reflexivity.
Defined.

Lemma unreadable_identifier_blocks_the_run_witness :
  (@main plain_runtime gitleaks_args gitleaks_world_undashed).1
  = Raise IndexError
  /\ ((@main plain_runtime gitleaks_args gitleaks_world_undashed).1 <> Ok ()
      /\ store (@main plain_runtime gitleaks_args gitleaks_world_undashed).2
         = store gitleaks_world_undashed).
Proof.
  split; [vm_compute; reflexivity |].
  apply (@unreadable_identifier_blocks_the_run plain_runtime gitleaks_args
           gitleaks_world_undashed (plain_text store_with_undashed_id)
           fieldnames (tail store_with_undashed_id)
           ["F007"; "2"; "T1"; "low-ai"; "0.3"; "baseline"; "semgrep"; "r2";
            ""; "low"; "b.java"; "9"; "01"; "TP"; "False"; "W-002"; ""]).
  - reflexivity.
  - vm_compute. reflexivity.
  - left.
  - split; [discriminate | vm_compute; reflexivity].
Defined.

Lemma run_without_reports_adds_no_row_witness :
  @main plain_runtime bare_args bare_world
  = (Ok (),
     mk_world ∅ (Some (@csv_line plain_runtime fieldnames))
       ([] ++ ["  No findings from any tool."; "";
               "  Total findings:      0"; "  Unique weaknesses:   0";
               "  Cross-tool overlaps: 0";
               "  Written to:          " +:+ "data/findings.csv"])
       true true)
  /\ (@main plain_runtime bare_args bare_world_without_directory).1
     = Raise OSError
  /\ store (@main plain_runtime bare_args bare_world_without_directory).2
     = None.
Proof.
  split.
  - apply (proj1 (@run_without_reports_adds_no_row plain_runtime bare_args
                    bare_world ltac:(repeat split) I)).
    reflexivity.
  - apply (proj2 (@run_without_reports_adds_no_row plain_runtime bare_args
                    bare_world_without_directory ltac:(repeat split) I)).
    reflexivity.
Defined.
